(** * Offline transaction queue and synchronisation engine

    A shallow embedding of [src/lib/offlineDb.ts] (the IndexedDB-backed
    store of queued transfers and cached recipients) and of
    [src/lib/syncEngine.ts] (the drain loop that submits queued transfers
    to the remote ledger), followed by the properties of the queue that
    the specification states. The embedding goes on with the rest of the
    two modules (the history list, the offline settings, the automatic
    drain on the "online" event) and with the PIN hash and the one-time
    passwords of [src/lib/auth.ts], and the properties go on with what
    the code of these shows.

    JavaScript values are modelled as follows.
    - [string] : [String.string]; [charCodeAt] is the character code, so
      identifiers are taken to be made of single-code-unit characters.
    - integral [number]s (timestamps, retry counts, counters) : [Z] or [nat].
    - the [amount], a general [number] : an abstract type with the three
      operations the code uses on it (class [JsNumber]).
    - a promise : a computation in the monad [M], which threads the
      [World] and either resolves with a value or rejects with an [Exn].
    - an [async] call among others : a [Task], the same computation cut
      at the points where it gives control away; the drain is given in
      both forms, and the second is for what happens while it is in
      progress. *)

From Stdlib Require Import List String Ascii ZArith Lia Bool Arith.
From Stdlib Require Import Numbers.DecimalString Numbers.DecimalZ Numbers.DecimalPos.
From Stdlib Require Numbers.HexadecimalString.
From Stdlib Require Import Structures.OrdersEx Sorting.Sorted Sorting.Permutation.
From Stdlib Require Import Classes.RelationClasses.
Import ListNotations.

Set Warnings "-notation-for-abbreviation".

Local Open Scope string_scope.
Local Open Scope Z_scope.

(** ** JavaScript primitives used by the store *)

Module Js.

(** [ToInt32]: the value every bitwise operator reduces its operands and
    result to. *)
Definition toInt32 (z : Z) : Z := (z + 2 ^ 31) mod 2 ^ 32 - 2 ^ 31.

(** [x << n] on numbers, for a shift count [n] below 32. *)
Definition shl (x : Z) (n : Z) : Z := toInt32 (Z.shiftl (toInt32 x) n).

(** [x & y] on numbers. *)
Definition band (x y : Z) : Z := toInt32 (Z.land (toInt32 x) (toInt32 y)).

(** [s.charCodeAt(i)] for the i-th character [c] of [s]. *)
Definition charCode (c : ascii) : Z := Z.of_nat (nat_of_ascii c).

(** [`${n}`] for an integral number [n]. *)
Definition intToString (n : Z) : string := NilZero.string_of_int (Z.to_int n).

Definition hexDigit (d : Z) : ascii :=
  if d <? 10 then ascii_of_nat (Z.to_nat (48 + d))
  else ascii_of_nat (Z.to_nat (87 + d)).

Fixpoint hexDigits (fuel : nat) (n : Z) (acc : string) : string :=
  match fuel with
  | O => acc
  | S fuel' =>
      let acc' := String (hexDigit (n mod 16)) acc in
      if n / 16 =? 0 then acc' else hexDigits fuel' (n / 16) acc'
  end.

(** [n.toString(16)] for an integral [n >= 0]: one digit per four bits. *)
Definition toString16 (n : Z) : string :=
  hexDigits (S (Z.to_nat (Z.log2 n / 4))) n EmptyString.

Fixpoint repeat0 (k : nat) : string :=
  match k with
  | O => EmptyString
  | S k' => String "0"%char (repeat0 k')
  end.

(** [s.padStart(n, "0")]. *)
Definition padStart0 (n : nat) (s : string) : string :=
  (repeat0 (n - String.length s) ++ s)%string.

(** [s.slice(0, n)]. *)
Definition slice0 (n : nat) (s : string) : string := String.substring 0 n s.

End Js.

(** ** The interface of [number] and of the remote ledger *)

(** The operations the code applies to a transfer amount: the literal [0]
    and [+] of the daily total, and the conversion to text of a template
    literal. *)
Class JsNumber (Amount : Type) := {
  num_zero : Amount;
  num_add : Amount -> Amount -> Amount;
  num_toString : Amount -> string
}.

(** What awaiting a promise gives. *)
Inductive Awaited (A : Type) : Type :=
| Resolved (a : A)
| Rejected (reason : string).
Arguments Resolved {A} a.
Arguments Rejected {A} reason.

(** The [{ data, error }] object a supabase query resolves to. *)
Record Response : Type := {
  data : option string;
  error : option string
}.

(** The arguments of the [process_transaction] remote procedure. *)
Record ProcessArgs (Amount : Type) : Type := {
  _sender_id : string;
  _receiver_id : string;
  _amount : Amount;
  _description : option string;
  _is_offline : bool;
  _transaction_hash : string;
  _device_id : string
}.
Arguments _sender_id {Amount} p.
Arguments _receiver_id {Amount} p.
Arguments _amount {Amount} p.
Arguments _description {Amount} p.
Arguments _is_offline {Amount} p.
Arguments _transaction_hash {Amount} p.
Arguments _device_id {Amount} p.

(** The remote ledger as the engine sees it: a state [R] and the two calls
    of the drain loop, the look-up of a transfer by hash
    ([from("transactions").select("id").eq("transaction_hash", h).maybeSingle()])
    and [rpc("process_transaction", args)]. *)
Class RemoteLedger (R Amount : Type) := {
  selectByHash : R -> string -> Awaited Response * R;
  rpcProcessTransaction : R -> ProcessArgs Amount -> Awaited Response * R
}.

(** ** An IndexedDB object store with an in-line key

    The records of a store are kept in ascending key order, which is the
    order [getAll] and [getAllFromIndex] (for one index key) return them in. *)

Module ObjectStore.
Section Store.
Context {V : Type} (keyOf : V -> string).

Fixpoint put (v : V) (s : list V) : list V :=
  match s with
  | [] => [v]
  | x :: s' =>
      match String_as_OT.compare (keyOf v) (keyOf x) with
      | Lt => v :: x :: s'
      | Eq => v :: s'
      | Gt => x :: put v s'
      end
  end.

Definition get (k : string) (s : list V) : option V :=
  find (fun x => String.eqb (keyOf x) k) s.

Definition delete (k : string) (s : list V) : list V :=
  filter (fun x => negb (String.eqb (keyOf x) k)) s.

Definition getAll (s : list V) : list V := s.

Definition getAllFromIndex (indexKey : V -> string) (query : string)
    (s : list V) : list V :=
  filter (fun x => String.eqb (indexKey x) query) s.

(** The store invariant: keys strictly ascending, hence unique. *)
Definition wf (s : list V) : Prop :=
  StronglySorted (fun a b => String_as_OT.lt (keyOf a) (keyOf b)) s.

End Store.
End ObjectStore.

(** ** Data model of [offlineDb.ts] *)

Inductive Status : Type := pending | syncing | failed.

Definition Status_eqb (a b : Status) : bool :=
  match a, b with
  | pending, pending | syncing, syncing | failed, failed => true
  | _, _ => false
  end.

(** The value the "by-status" index holds for a record. *)
Definition statusName (s : Status) : string :=
  match s with
  | pending => "pending"
  | syncing => "syncing"
  | failed => "failed"
  end.

Record CachedRecipient : Type := {
  rc_id : string;
  user_id : string;
  display_name : option string;
  payment_id : string;
  cached_at : Z
}.

(** [Omit<CachedRecipient, "cached_at">] *)
Record RecipientProfile : Type := {
  rp_id : string;
  rp_user_id : string;
  rp_display_name : option string;
  rp_payment_id : string
}.

Inductive Phase : Type := PhSyncing | PhSuccess | PhError.

(** The registered observer: called with a phase, a message and a count;
    [Some reason] when the call throws. *)
Definition SyncCallback : Type := Phase -> string -> nat -> option string.

(** What the platform decides: whether the storage request issued at a
    given instant fails, the value of [Date.now()], the local midnight
    before an instant ([setHours(0, 0, 0, 0)]) and [crypto.randomUUID()]. *)
Record Host : Type := {
  storageFails : nat -> bool;
  dateNow : nat -> Z;
  localMidnight : Z -> Z;
  randomUUID : nat -> string
}.

Inductive Exn : Type :=
| StorageUnavailable
| RemoteFailure (reason : string)
| CallbackFailure (reason : string).

Inductive Outcome (A : Type) : Type :=
| Ok (a : A)
| Throw (e : Exn).
Arguments Ok {A} a.
Arguments Throw {A} e.

(** [{ synced, failed }] *)
Record SyncResult : Type := {
  synced : nat;
  failedCount : nat
}.

Section Model.
Context {Amount R : Type} {numOps : JsNumber Amount}
        {ledger : RemoteLedger R Amount}.

Record PendingTransaction : Type := {
  id : string;
  senderId : string;
  receiverId : string;
  receiverPhone : option string;
  amount : Amount;
  timestamp : Z;
  status : Status;
  hash : string;
  retryCount : nat;
  deviceId : string;
  description : option string
}.

(** [Omit<PendingTransaction, "hash" | "id">] *)
Record UnhashedTransaction : Type := {
  u_senderId : string;
  u_receiverId : string;
  u_receiverPhone : option string;
  u_amount : Amount;
  u_timestamp : Z;
  u_status : Status;
  u_retryCount : nat;
  u_deviceId : string;
  u_description : option string
}.

(** The argument of [addPendingTransaction]. *)
Record NewTransaction : Type := {
  n_senderId : string;
  n_receiverId : string;
  n_receiverPhone : option string;
  n_amount : Amount;
  n_description : option string
}.

(** *** [generateHash] *)

(** The text that is hashed. *)
Definition hashInput (tx : UnhashedTransaction) : string :=
  (u_senderId tx ++ ":" ++ u_receiverId tx ++ ":" ++ num_toString (u_amount tx)
     ++ ":" ++ Js.intToString (u_timestamp tx) ++ ":" ++ u_deviceId tx)%string.

(** One turn of the loop: [hash = (hash << 5) - hash + char; hash = hash & hash]. *)
Definition hashStep (h : Z) (c : ascii) : Z :=
  let h1 := Js.shl h 5 - h + Js.charCode c in
  Js.band h1 h1.

Fixpoint hashLoop (s : string) (h : Z) : Z :=
  match s with
  | EmptyString => h
  | String c s' => hashLoop s' (hashStep h c)
  end.

Definition generateHash (tx : UnhashedTransaction) : string :=
  let h := hashLoop (hashInput tx) 0 in
  Js.padStart0 8 (Js.toString16 (Z.abs h)).

(** *** The world the two modules run in *)

(** The remote calls and observer notifications, in the order made. *)
Inductive Event : Type :=
| EvSelectByHash (h : string) (existing : bool)
| EvProcessTransaction (args : ProcessArgs Amount)
| EvNotify (phase : Phase) (message : string) (count : nat).

(** The database "offlinepay-db". *)
Record Db : Type := {
  pendingTransactions : list PendingTransaction;
  cachedRecipients : list CachedRecipient
}.

Record World : Type := {
  db : Db;
  deviceIdItem : option string;      (* localStorage "offlinepay-device-id" *)
  isSyncing : bool;
  syncCallback : option SyncCallback;
  remote : R;
  trace : list Event;
  tick : nat;
  host : Host
}.

Definition withDb (w : World) (d : Db) : World :=
  {| db := d; deviceIdItem := deviceIdItem w; isSyncing := isSyncing w;
     syncCallback := syncCallback w; remote := remote w; trace := trace w;
     tick := tick w; host := host w |}.

Definition withDeviceIdItem (w : World) (v : option string) : World :=
  {| db := db w; deviceIdItem := v; isSyncing := isSyncing w;
     syncCallback := syncCallback w; remote := remote w; trace := trace w;
     tick := tick w; host := host w |}.

Definition withIsSyncing (w : World) (b : bool) : World :=
  {| db := db w; deviceIdItem := deviceIdItem w; isSyncing := b;
     syncCallback := syncCallback w; remote := remote w; trace := trace w;
     tick := tick w; host := host w |}.

Definition withSyncCallback (w : World) (c : option SyncCallback) : World :=
  {| db := db w; deviceIdItem := deviceIdItem w; isSyncing := isSyncing w;
     syncCallback := c; remote := remote w; trace := trace w;
     tick := tick w; host := host w |}.

Definition withRemote (w : World) (r : R) (e : Event) : World :=
  {| db := db w; deviceIdItem := deviceIdItem w; isSyncing := isSyncing w;
     syncCallback := syncCallback w; remote := r; trace := trace w ++ [e];
     tick := tick w; host := host w |}.

Definition logged (w : World) (e : Event) : World :=
  {| db := db w; deviceIdItem := deviceIdItem w; isSyncing := isSyncing w;
     syncCallback := syncCallback w; remote := remote w; trace := trace w ++ [e];
     tick := tick w; host := host w |}.

Definition tickUp (w : World) : World :=
  {| db := db w; deviceIdItem := deviceIdItem w; isSyncing := isSyncing w;
     syncCallback := syncCallback w; remote := remote w; trace := trace w;
     tick := S (tick w); host := host w |}.

Definition withPending (d : Db) (l : list PendingTransaction) : Db :=
  {| pendingTransactions := l; cachedRecipients := cachedRecipients d |}.

Definition withRecipients (d : Db) (l : list CachedRecipient) : Db :=
  {| pendingTransactions := pendingTransactions d; cachedRecipients := l |}.

(** *** Asynchronous computations *)

Definition M (A : Type) : Type := World -> Outcome A * World.

Definition ret {A} (a : A) : M A := fun w => (Ok a, w).

Definition throw {A} (e : Exn) : M A := fun w => (Throw e, w).

Definition bind {A B} (m : M A) (k : A -> M B) : M B :=
  fun w =>
    match m w with
    | (Ok a, w') => k a w'
    | (Throw e, w') => (Throw e, w')
    end.

(** [try { m } catch (e) { handler e }] *)
Definition tryCatch {A} (m : M A) (handler : Exn -> M A) : M A :=
  fun w =>
    match m w with
    | (Ok a, w') => (Ok a, w')
    | (Throw e, w') => handler e w'
    end.

(** [try { m } finally { cleanup }], for a [cleanup] that cannot throw. *)
Definition tryFinally {A} (m : M A) (cleanup : World -> World) : M A :=
  fun w => let (r, w') := m w in (r, cleanup w').

Notation "x <- m ;; k" := (bind m (fun x => k))
  (at level 61, m at next level, right associativity).
Notation "m ;;; k" := (bind m (fun _ => k))
  (at level 61, right associativity).

(** One storage request: it fails when the platform says so, and then
    leaves the database as it was. *)
Definition idb {A} (request : Db -> A * Db) : M A :=
  fun w =>
    if storageFails (host w) (tick w) then (Throw StorageUnavailable, tickUp w)
    else let (a, d) := request (db w) in (Ok a, withDb (tickUp w) d).

(** [Date.now()] *)
Definition now : M Z :=
  fun w => (Ok (dateNow (host w) (tick w)), tickUp w).

(** *** [offlineDb.ts] *)

(** Opening the database (or taking the open instance) changes no record. *)
Definition getDB : M unit := idb (fun d => (tt, d)).

Definition getDeviceId : M string :=
  fun w =>
    let generate :=
      let fresh := randomUUID (host w) (tick w) in
      (Ok fresh, withDeviceIdItem (tickUp w) (Some fresh)) in
    match deviceIdItem w with
    | Some d => if String.eqb d "" then generate else (Ok d, w)
    | None => generate
    end.

Definition addPendingTransaction (tx : NewTransaction) : M PendingTransaction :=
  getDB ;;;
  deviceId <- getDeviceId ;;
  timestamp <- now ;;
  let fullTx :=
    {| u_senderId := n_senderId tx; u_receiverId := n_receiverId tx;
       u_receiverPhone := n_receiverPhone tx; u_amount := n_amount tx;
       u_timestamp := timestamp; u_status := pending; u_retryCount := 0%nat;
       u_deviceId := deviceId; u_description := n_description tx |} in
  let txHash := generateHash fullTx in
  let txId := ("tx-" ++ Js.intToString timestamp ++ "-" ++ Js.slice0 8 txHash)%string in
  let transaction :=
    {| id := txId; senderId := u_senderId fullTx; receiverId := u_receiverId fullTx;
       receiverPhone := u_receiverPhone fullTx; amount := u_amount fullTx;
       timestamp := u_timestamp fullTx; status := u_status fullTx; hash := txHash;
       retryCount := u_retryCount fullTx; deviceId := u_deviceId fullTx;
       description := u_description fullTx |} in
  idb (fun d => (tt, withPending d (ObjectStore.put id transaction (pendingTransactions d)))) ;;;
  ret transaction.

Definition getPendingTransactions : M (list PendingTransaction) :=
  getDB ;;;
  idb (fun d => (ObjectStore.getAllFromIndex (fun t => statusName (status t))
                   "pending" (pendingTransactions d), d)).

Definition setStatusField (tx : PendingTransaction) (s : Status) : PendingTransaction :=
  {| id := id tx; senderId := senderId tx; receiverId := receiverId tx;
     receiverPhone := receiverPhone tx; amount := amount tx;
     timestamp := timestamp tx; status := s; hash := hash tx;
     retryCount := retryCount tx; deviceId := deviceId tx;
     description := description tx |}.

Definition incrRetryCount (tx : PendingTransaction) : PendingTransaction :=
  {| id := id tx; senderId := senderId tx; receiverId := receiverId tx;
     receiverPhone := receiverPhone tx; amount := amount tx;
     timestamp := timestamp tx; status := status tx; hash := hash tx;
     retryCount := S (retryCount tx); deviceId := deviceId tx;
     description := description tx |}.

Definition updateTransactionStatus (key : string) (s : Status)
    (incrementRetry : bool) : M unit :=
  getDB ;;;
  found <- idb (fun d => (ObjectStore.get id key (pendingTransactions d), d)) ;;
  match found with
  | Some tx =>
      let tx1 := setStatusField tx s in
      let tx2 := if incrementRetry then incrRetryCount tx1 else tx1 in
      idb (fun d => (tt, withPending d (ObjectStore.put id tx2 (pendingTransactions d))))
  | None => ret tt
  end.

Definition deleteTransaction (key : string) : M unit :=
  getDB ;;;
  idb (fun d => (tt, withPending d (ObjectStore.delete id key (pendingTransactions d)))).

(** The loop of [clearSyncedTransactions], inside its read-write
    transaction. *)
Fixpoint clearLoop (all : list PendingTransaction)
    (store : list PendingTransaction) : list PendingTransaction :=
  match all with
  | [] => store
  | item :: rest =>
      if negb (Status_eqb (status item) pending)
         && negb (Status_eqb (status item) syncing)
      then clearLoop rest (ObjectStore.delete id (id item) store)
      else clearLoop rest store
  end.

(** The deletes run in one transaction, which commits them together or,
    when a request fails, aborts and keeps none of them. *)
Definition clearSyncedTransactions : M unit :=
  getDB ;;;
  all <- idb (fun d => (ObjectStore.getAll (pendingTransactions d), d)) ;;
  idb (fun d => (tt, withPending d (clearLoop all (pendingTransactions d)))).

Definition getTodayOfflineTotal (userId : string) : M Amount :=
  getDB ;;;
  transactions <- idb (fun d => (ObjectStore.getAllFromIndex senderId userId
                                   (pendingTransactions d), d)) ;;
  today <- now ;;
  fun w =>
    let todayStart := localMidnight (host w) today in
    ret (fold_left (fun sum tx => num_add sum (amount tx))
           (filter (fun tx => (todayStart <=? timestamp tx)
                              && negb (Status_eqb (status tx) failed))
              transactions)
           num_zero) w.

Definition cacheRecipient (recipient : RecipientProfile) : M unit :=
  getDB ;;;
  stamp <- now ;;
  idb (fun d => (tt, withRecipients d
                       (ObjectStore.put rc_id
                          {| rc_id := rp_id recipient; user_id := rp_user_id recipient;
                             display_name := rp_display_name recipient;
                             payment_id := rp_payment_id recipient;
                             cached_at := stamp |}
                          (cachedRecipients d)))).

Definition getCachedRecipientByPaymentId (paymentId : string)
    : M (option CachedRecipient) :=
  getDB ;;;
  results <- idb (fun d => (ObjectStore.getAllFromIndex payment_id paymentId
                              (cachedRecipients d), d)) ;;
  ret (match results with
       | first :: _ => Some first
       | [] => None
       end).

Definition getAllCachedRecipients : M (list CachedRecipient) :=
  getDB ;;;
  idb (fun d => (ObjectStore.getAll (cachedRecipients d), d)).

(** *** [syncEngine.ts] *)

Definition setSyncCallback (callback : option SyncCallback) : M unit :=
  fun w => (Ok tt, withSyncCallback w callback).

(** [syncCallback?.(phase, message, count)] *)
Definition notify (phase : Phase) (message : string) (count : nat) : M unit :=
  fun w =>
    match syncCallback w with
    | None => (Ok tt, w)
    | Some callback =>
        let w' := logged w (EvNotify phase message count) in
        match callback phase message count with
        | None => (Ok tt, w')
        | Some reason => (Throw (CallbackFailure reason), w')
        end
    end.

(** Awaiting the duplicate look-up. *)
Definition awaitSelectByHash (h : string) : M Response :=
  fun w =>
    let (answer, r') := selectByHash (remote w) h in
    match answer with
    | Resolved resp =>
        (Ok resp, withRemote w r' (EvSelectByHash h
                                     (match data resp with Some _ => true | None => false end)))
    | Rejected reason =>
        (Throw (RemoteFailure reason), withRemote w r' (EvSelectByHash h false))
    end.

(** Awaiting [rpc("process_transaction", args)]. *)
Definition awaitProcessTransaction (args : ProcessArgs Amount) : M Response :=
  fun w =>
    let (answer, r') := rpcProcessTransaction (remote w) args in
    let w' := withRemote w r' (EvProcessTransaction args) in
    match answer with
    | Resolved resp => (Ok resp, w')
    | Rejected reason => (Throw (RemoteFailure reason), w')
    end.

(** [d || null] for an optional string. *)
Definition orNull (d : option string) : option string :=
  match d with
  | Some s => if String.eqb s "" then None else Some s
  | None => None
  end.

Definition processArgs (tx : PendingTransaction) : ProcessArgs Amount :=
  {| _sender_id := senderId tx; _receiver_id := receiverId tx;
     _amount := amount tx; _description := orNull (description tx);
     _is_offline := true; _transaction_hash := hash tx;
     _device_id := deviceId tx |}.

Definition incSynced (c : SyncResult) : SyncResult :=
  {| synced := S (synced c); failedCount := failedCount c |}.

Definition incFailed (c : SyncResult) : SyncResult :=
  {| synced := synced c; failedCount := S (failedCount c) |}.

(** The body of the [for] loop, for the record [tx] and the counters [c]. *)
Definition syncOne (tx : PendingTransaction) (c : SyncResult) : M SyncResult :=
  tryCatch
    (updateTransactionStatus (id tx) syncing false ;;;
     existing <- awaitSelectByHash (hash tx) ;;
     match data existing with
     | Some _ =>
         deleteTransaction (id tx) ;;;
         ret (incSynced c)
     | None =>
         answer <- awaitProcessTransaction (processArgs tx) ;;
         match error answer with
         | Some reason => throw (RemoteFailure reason)
         | None =>
             deleteTransaction (id tx) ;;;
             ret (incSynced c)
         end
     end)
    (fun _ =>
       updateTransactionStatus (id tx)
         (if (2 <=? retryCount tx)%nat then failed else pending) true ;;;
       ret (incFailed c)).

Fixpoint syncLoop (txs : list PendingTransaction) (c : SyncResult) : M SyncResult :=
  match txs with
  | [] => ret c
  | tx :: rest => c' <- syncOne tx c ;; syncLoop rest c'
  end.

Definition countText (n : nat) : string := Js.intToString (Z.of_nat n).

Definition plural (n : nat) : string := if (1 <? n)%nat then "s" else "".

Definition zeroResult : SyncResult := {| synced := 0; failedCount := 0 |}.

Definition syncPendingTransactions : M SyncResult :=
  fun w =>
    if isSyncing w then (Ok zeroResult, w)
    else
      tryFinally
        (txs <- getPendingTransactions ;;
         if (List.length txs =? 0)%nat then
           fun w1 => (Ok zeroResult, withIsSyncing w1 false)
         else
           notify PhSyncing
             ("Syncing " ++ countText (List.length txs) ++ " transactions...")
             (List.length txs) ;;;
           c <- syncLoop txs zeroResult ;;
           (if (0 <? synced c)%nat then
              notify PhSuccess
                (countText (synced c) ++ " transaction" ++ plural (synced c) ++ " synced!")
                (synced c)
            else ret tt) ;;;
           (if (0 <? failedCount c)%nat then
              notify PhError
                (countText (failedCount c) ++ " transaction" ++ plural (failedCount c)
                   ++ " failed to sync")
                (failedCount c)
            else ret tt) ;;;
           ret c)
        (fun w1 => withIsSyncing w1 false)
        (withIsSyncing w true).

End Model.

Arguments PendingTransaction : clear implicits.
Arguments UnhashedTransaction : clear implicits.
Arguments NewTransaction : clear implicits.
Arguments Event : clear implicits.
Arguments Db : clear implicits.
Arguments World : clear implicits.
Arguments M : clear implicits.

(** ** A concrete platform and ledger, for running the model *)

Module Mock.

(** Whole-number amounts. *)
#[export] Instance intAmount : JsNumber Z :=
  {| num_zero := 0; num_add := Z.add; num_toString := Js.intToString |}.

(** A ledger that holds the hashes it has accepted, refuses the hashes
    listed in [refused], and whose calls reject while [unreachable]. *)
Record Ledger : Type := {
  accepted : list string;
  refused : list string;
  unreachable : bool
}.

Definition knows (l : list string) (h : string) : bool :=
  existsb (String.eqb h) l.

Definition ledgerSelect (r : Ledger) (h : string) : Awaited Response * Ledger :=
  if unreachable r then (Rejected "Failed to fetch", r)
  else if knows (accepted r) h
       then (Resolved {| data := Some "row"; error := None |}, r)
       else (Resolved {| data := None; error := None |}, r).

Definition ledgerProcess (r : Ledger) (args : ProcessArgs Z)
    : Awaited Response * Ledger :=
  if unreachable r then (Rejected "Failed to fetch", r)
  else if knows (refused r) (_transaction_hash args)
       then (Resolved {| data := None; error := Some "Insufficient balance" |}, r)
       else (Resolved {| data := Some "ledger-id"; error := None |},
             {| accepted := _transaction_hash args :: accepted r;
                refused := refused r; unreachable := unreachable r |}).

#[export] Instance ledger : RemoteLedger Ledger Z :=
  {| selectByHash := ledgerSelect; rpcProcessTransaction := ledgerProcess |}.

(** A platform whose storage never fails and whose clock advances by one
    millisecond per reading. *)
Definition steadyHost : Host :=
  {| storageFails := fun _ => false;
     dateNow := fun n => 1700000000000 + Z.of_nat n;
     localMidnight := fun t => t - t mod 86400000;
     randomUUID := fun _ => "device-1" |}.

(** A platform whose clock stands still. *)
Definition frozenHost : Host :=
  {| storageFails := fun _ => false;
     dateNow := fun _ => 1700000000000;
     localMidnight := fun t => t - t mod 86400000;
     randomUUID := fun _ => "device-1" |}.

Definition emptyDb : Db Z :=
  {| pendingTransactions := []; cachedRecipients := [] |}.

Definition start (h : Host) (r : Ledger) : World Z Ledger :=
  {| db := emptyDb; deviceIdItem := None; isSyncing := false;
     syncCallback := Some (fun _ _ _ => None); remote := r; trace := [];
     tick := 0; host := h |}.

Definition openLedger : Ledger :=
  {| accepted := []; refused := []; unreachable := false |}.

Definition downLedger : Ledger :=
  {| accepted := []; refused := []; unreachable := true |}.

Definition transferA : NewTransaction Z :=
  {| n_senderId := "S"; n_receiverId := "R"; n_receiverPhone := Some "r@pay";
     n_amount := 100; n_description := Some "lunch" |}.

Definition transferB : NewTransaction Z :=
  {| n_senderId := "S"; n_receiverId := "R"; n_receiverPhone := Some "r@pay";
     n_amount := 100; n_description := Some "dinner" |}.

(** A platform whose storage fails every request. *)
Definition brokenHost : Host :=
  {| storageFails := fun _ => true;
     dateNow := fun n => 1700000000000 + Z.of_nat n;
     localMidnight := fun t => t - t mod 86400000;
     randomUUID := fun _ => "device-1" |}.

(** The record that enqueueing [transferA] first on [steadyHost] creates. *)
Definition recordA : PendingTransaction Z :=
  {| id := "tx-1700000000002-7755a780"; senderId := "S"; receiverId := "R";
     receiverPhone := Some "r@pay"; amount := 100; timestamp := 1700000000002;
     status := pending; hash := "7755a780"; retryCount := 0;
     deviceId := "device-1"; description := Some "lunch" |}.

(** A failed record queued beside it. *)
Definition recordF : PendingTransaction Z :=
  {| id := "tx-1690000000000-0000beef"; senderId := "S"; receiverId := "Q";
     receiverPhone := None; amount := 40; timestamp := 1690000000000;
     status := failed; hash := "0000beef"; retryCount := 3;
     deviceId := "device-1"; description := None |}.

Definition withQueue {R} (w : World Z R) (q : list (PendingTransaction Z))
    : World Z R :=
  withDb w {| pendingTransactions := q; cachedRecipients := cachedRecipients (db w) |}.

(** A ledger that already holds the hash of [recordA]. *)
Definition ledgerWithA : Ledger :=
  {| accepted := ["7755a780"]; refused := []; unreachable := false |}.

(** Two profiles, cached one after the other, with one payment identifier. *)
Definition profileOld : RecipientProfile :=
  {| rp_id := "profile-1"; rp_user_id := "user-1";
     rp_display_name := Some "Asha"; rp_payment_id := "OP-ASHA" |}.

Definition profileNew : RecipientProfile :=
  {| rp_id := "profile-2"; rp_user_id := "user-2";
     rp_display_name := Some "Asha K"; rp_payment_id := "OP-ASHA" |}.

End Mock.

(** ** Vocabulary of the specification *)

Section Vocabulary.
Context {Amount R : Type} {numOps : JsNumber Amount}
        {ledger : RemoteLedger R Amount}.

(** The platform never fails a storage request. *)
Definition healthy (w : World Amount R) : Prop :=
  forall n, storageFails (host w) n = false.

(** The registered observer, if any, never throws. *)
Definition quiet (w : World Amount R) : Prop :=
  forall callback, syncCallback w = Some callback ->
  forall phase message count, callback phase message count = None.

(** The world [n] platform readings later, nothing else changed. *)
Definition advance (n : nat) (w : World Amount R) : World Amount R :=
  {| db := db w; deviceIdItem := deviceIdItem w; isSyncing := isSyncing w;
     syncCallback := syncCallback w; remote := remote w; trace := trace w;
     tick := n + tick w; host := host w |}.

(** The two ways a request on the database ends: it throws
    [StorageUnavailable] and leaves the database as it was, or it
    resolves with [a] and leaves the database [d]. Only the platform's
    readings advance besides. *)
Inductive stored {A} (w : World Amount R) (a : A) (d : Db Amount)
    : Outcome A * World Amount R -> Prop :=
| stored_fail (n : nat) : stored w a d (Throw StorageUnavailable, advance n w)
| stored_done (n : nat) : stored w a d (Ok a, withDb (advance n w) d).

(** A record whose status is set to [s] and whose retry count is one
    more when [inc]; every other field is the record's own. *)
Definition updated (s : Status) (inc : bool)
    (tx : PendingTransaction Amount) : PendingTransaction Amount :=
  {| id := id tx; senderId := senderId tx; receiverId := receiverId tx;
     receiverPhone := receiverPhone tx; amount := amount tx;
     timestamp := timestamp tx; status := s; hash := hash tx;
     retryCount := if inc then S (retryCount tx) else retryCount tx;
     deviceId := deviceId tx; description := description tx |}.

(** The store in which the record under [key], and no other, is [updated]. *)
Definition setStatusIn (key : string) (s : Status) (inc : bool)
    (store : list (PendingTransaction Amount)) : list (PendingTransaction Amount) :=
  map (fun x => if String.eqb (id x) key then updated s inc x else x) store.

(** What [updateTransactionStatus] leaves in the store when it resolves:
    the record under [key], if there is one, written back [updated]. *)
Definition statusWritten (key : string) (s : Status) (inc : bool)
    (store : list (PendingTransaction Amount)) : list (PendingTransaction Amount) :=
  match ObjectStore.get id key store with
  | Some tx => ObjectStore.put id (updated s inc tx) store
  | None => store
  end.

(** Two states of one transfer: all fields but status and retry count agree. *)
Definition sameTransfer (a b : PendingTransaction Amount) : Prop :=
  id b = id a /\ senderId b = senderId a /\ receiverId b = receiverId a /\
  receiverPhone b = receiverPhone a /\ amount b = amount a /\
  timestamp b = timestamp a /\ hash b = hash a /\ deviceId b = deviceId a /\
  description b = description a.

(** Every record of [s'] is a later state of the record [s] holds under
    the same identifier. *)
Definition descends (s s' : list (PendingTransaction Amount)) : Prop :=
  forall k b, ObjectStore.get id k s' = Some b ->
  exists a, ObjectStore.get id k s = Some a /\ sameTransfer a b.

(** No identifier changes its hash from [s] to [s']. *)
Definition hashKept (s s' : list (PendingTransaction Amount)) : Prop :=
  forall k a b, ObjectStore.get id k s = Some a ->
  ObjectStore.get id k s' = Some b -> hash b = hash a.

(** The integrity hash as a function of the five defining fields. *)
Definition integrityHash (sender receiver : string) (amt : Amount)
    (time : Z) (device : string) : string :=
  Js.padStart0 8
    (Js.toString16
       (Z.abs (hashLoop (sender ++ ":" ++ receiver ++ ":" ++ num_toString amt
                           ++ ":" ++ Js.intToString time ++ ":" ++ device) 0))).

(** The record an enqueue creates for [tx] on the device [device] at the
    instant [time]. *)
Definition enqueued (tx : NewTransaction Amount) (device : string) (time : Z)
    : PendingTransaction Amount :=
  let h := integrityHash (n_senderId tx) (n_receiverId tx) (n_amount tx) time device in
  {| id := "tx-" ++ Js.intToString time ++ "-" ++ h;
     senderId := n_senderId tx; receiverId := n_receiverId tx;
     receiverPhone := n_receiverPhone tx; amount := n_amount tx;
     timestamp := time; status := pending; hash := h; retryCount := 0;
     deviceId := device; description := n_description tx |}.

(** The shape of the identifier of a queued record: its timestamp and its
    eight-character hash. *)
Definition identified (a : PendingTransaction Amount) : Prop :=
  id a = ("tx-" ++ Js.intToString (timestamp a) ++ "-" ++ hash a)%string /\
  String.length (hash a) = 8%nat.

(** From [s] to [s'] only the record under [key] may have changed: it
    may be gone or be a later state of itself; the store invariant is kept. *)
Definition touches (key : string) (s s' : list (PendingTransaction Amount)) : Prop :=
  (forall k, k <> key -> ObjectStore.get id k s' = ObjectStore.get id k s) /\
  (forall b, ObjectStore.get id key s' = Some b ->
     exists a, ObjectStore.get id key s = Some a /\ sameTransfer a b) /\
  (ObjectStore.wf id s -> ObjectStore.wf id s').

(** The remote calls made for one record: none, the look-up alone, or the
    look-up that found nothing followed by the submission. *)
Definition recordEvents (tx : PendingTransaction Amount)
    (events : list (Event Amount)) : Prop :=
  events = [] \/
  (exists found, events = [EvSelectByHash (hash tx) found]) \/
  events = [EvSelectByHash (hash tx) false; EvProcessTransaction (processArgs tx)].

(** The record [tx] with status [s] after [n] failed attempts. *)
Definition retried (tx : PendingTransaction Amount) (s : Status) (n : nat)
    : PendingTransaction Amount :=
  {| id := id tx; senderId := senderId tx; receiverId := receiverId tx;
     receiverPhone := receiverPhone tx; amount := amount tx;
     timestamp := timestamp tx; status := s; hash := hash tx;
     retryCount := n; deviceId := deviceId tx; description := description tx |}.

(** The world after one more call of [syncPendingTransactions]. *)
Definition drained (w : World Amount R) : World Amount R :=
  snd (syncPendingTransactions w).

(** A record that a purge keeps: pending or syncing. *)
Definition active (tx : PendingTransaction Amount) : bool :=
  match status tx with
  | pending | syncing => true
  | failed => false
  end.

(** The daily total as the specification words it: the amounts of the
    queued transfers sent by [userId], created at or after [dayStart] and
    not failed, added up in store order. *)
Definition dailyOfflineTotal (userId : string) (dayStart : Z)
    (store : list (PendingTransaction Amount)) : Amount :=
  fold_left num_add
    (map amount
       (filter (fun tx => String.eqb (senderId tx) userId
                          && (dayStart <=? timestamp tx)
                          && negb (Status_eqb (status tx) failed))
          store))
    num_zero.

(** The record [cacheRecipient] stores for a profile looked up at [stamp]. *)
Definition stamped (recipient : RecipientProfile) (stamp : Z) : CachedRecipient :=
  {| rc_id := rp_id recipient; user_id := rp_user_id recipient;
     display_name := rp_display_name recipient;
     payment_id := rp_payment_id recipient; cached_at := stamp |}.

(** The first record, in record-id order, that carries a payment identifier. *)
Definition firstWithPaymentId (paymentId : string)
    (store : list CachedRecipient) : option CachedRecipient :=
  find (fun x => String.eqb (payment_id x) paymentId) store.

(** Every submission in a run of events directly follows the duplicate
    look-up of its own hash, which found nothing. *)
Definition checkedBeforeSubmit (events : list (Event Amount)) : Prop :=
  forall before args after,
    events = (before ++ EvProcessTransaction args :: after)%list ->
    exists before',
      before = (before' ++ [EvSelectByHash (_transaction_hash args) false])%list.

(** What [listPending] returns for a store. *)
Definition listPending (store : list (PendingTransaction Amount))
    : list (PendingTransaction Amount) :=
  ObjectStore.getAllFromIndex (fun t => statusName (status t)) "pending" store.

End Vocabulary.

(** ** The rest of [offlineDb.ts] and [syncEngine.ts], and [auth.ts] *)

Module JsArray.

(** [Array.prototype.sort(compare)]: the sort is stable, so for a consistent
    [compare] its result is the one a stable insertion sort gives. An
    element goes before the first element already placed that [compare]
    puts after it. *)
Fixpoint insertBy {A} (compare : A -> A -> Z) (x : A) (placed : list A) : list A :=
  match placed with
  | [] => [x]
  | y :: rest =>
      if 0 <? compare y x then x :: y :: rest
      else y :: insertBy compare x rest
  end.

Definition sort {A} (compare : A -> A -> Z) (l : list A) : list A :=
  fold_left (fun placed x => insertBy compare x placed) l [].

End JsArray.

Module JsMap.

(** A [Map] with string keys, as the list of its entries in insertion
    order: [get], [set] (in place for a key the map holds, at the end
    otherwise) and [delete]. *)
Section Entries.
Context {V : Type}.

Definition get (k : string) (m : list (string * V)) : option V :=
  match find (fun e => String.eqb (fst e) k) m with
  | Some e => Some (snd e)
  | None => None
  end.

Fixpoint set (k : string) (v : V) (m : list (string * V)) : list (string * V) :=
  match m with
  | [] => [(k, v)]
  | e :: rest =>
      if String.eqb (fst e) k then (k, v) :: rest
      else e :: set k v rest
  end.

Definition delete (k : string) (m : list (string * V)) : list (string * V) :=
  filter (fun e => negb (String.eqb (fst e) k)) m.

End Entries.
End JsMap.

Section ModelMore.
Context {Amount R : Type} {numOps : JsNumber Amount}
        {ledger : RemoteLedger R Amount}.

Notation "x <- m ;; k" := (bind m (fun x => k))
  (at level 61, m at next level, right associativity).
Notation "m ;;; k" := (bind m (fun _ => k))
  (at level 61, right associativity).

(** *** [getAllOfflineTransactions] *)

(** [(a, b) => b.timestamp - a.timestamp] *)
Definition byTimestampDescending (a b : PendingTransaction Amount) : Z :=
  timestamp b - timestamp a.

Definition getAllOfflineTransactions : M Amount R (list (PendingTransaction Amount)) :=
  getDB ;;;
  all <- idb (fun d => (ObjectStore.getAll (pendingTransactions d), d)) ;;
  ret (JsArray.sort byTimestampDescending all).

End ModelMore.

(** *** The offline settings

    The third object store of the database, keyed by the field [key]
    (here [setting_key]). A value is
    [None] when it is [null] or [undefined], which is all the code
    distinguishes of it. *)

Record OfflineSetting (V : Type) : Type := {
  setting_key : string;
  setting_value : option V
}.
Arguments setting_key {V} o.
Arguments setting_value {V} o.

(** The part of the world the two setting helpers run in: the store and
    the platform. *)
Record SettingsWorld (V : Type) : Type := {
  offlineSettings : list (OfflineSetting V);
  settingsTick : nat;
  settingsHost : Host
}.
Arguments offlineSettings {V} s.
Arguments settingsTick {V} s.
Arguments settingsHost {V} s.

Section Settings.
Context {V : Type}.

(** One storage request on the settings store. *)
Definition idbSettings {A}
    (request : list (OfflineSetting V) -> A * list (OfflineSetting V))
    (w : SettingsWorld V) : Outcome A * SettingsWorld V :=
  if storageFails (settingsHost w) (settingsTick w)
  then (Throw StorageUnavailable,
        {| offlineSettings := offlineSettings w;
           settingsTick := S (settingsTick w); settingsHost := settingsHost w |})
  else let (a, store) := request (offlineSettings w) in
       (Ok a, {| offlineSettings := store;
                 settingsTick := S (settingsTick w); settingsHost := settingsHost w |}).

Definition setOfflineSetting (k : string) (v : option V) (w : SettingsWorld V)
    : Outcome unit * SettingsWorld V :=
  match idbSettings (fun store => (tt, store)) w with
  | (Ok _, w1) =>
      idbSettings
        (fun store =>
           (tt, ObjectStore.put setting_key
                  {| setting_key := k; setting_value := v |} store)) w1
  | (Throw e, w1) => (Throw e, w1)
  end.

(** [(setting?.value as T | undefined) ?? null] *)
Definition getOfflineSetting (k : string) (w : SettingsWorld V)
    : Outcome (option V) * SettingsWorld V :=
  match idbSettings (fun store => (tt, store)) w with
  | (Ok _, w1) =>
      match idbSettings
              (fun store => (ObjectStore.get setting_key k store, store)) w1 with
      | (Ok setting, w2) =>
          (Ok (match setting with
               | Some found => setting_value found
               | None => None
               end), w2)
      | (Throw e, w2) => (Throw e, w2)
      end
  | (Throw e, w1) => (Throw e, w1)
  end.

End Settings.

(** *** [startAutoSync] and [stopAutoSync]

    The listeners registered on [window] for the "online" event are kept in
    registration order; a listener of this module is the closure one call of
    [startAutoSync] made. The timers are the delays, in milliseconds, after
    which [syncPendingTransactions] has been asked to run. *)

Inductive Listener : Type :=
| SyncListener (made : nat)
| OtherListener (name : string).

Definition Listener_eqb (a b : Listener) : bool :=
  match a, b with
  | SyncListener m, SyncListener n => Nat.eqb m n
  | OtherListener x, OtherListener y => String.eqb x y
  | _, _ => false
  end.

Record AutoSync : Type := {
  onlineListener : option Listener;
  windowOnline : list Listener;
  navigatorOnLine : bool;
  syncTimers : list Z;
  closures : nat
}.

(** [window.addEventListener("online", l)]: a listener already registered
    is not registered again. *)
Definition addEventListener (l : Listener) (ls : list Listener) : list Listener :=
  if existsb (Listener_eqb l) ls then ls else (ls ++ [l])%list.

(** [window.removeEventListener("online", l)] *)
Definition removeEventListener (l : Listener) (ls : list Listener) : list Listener :=
  filter (fun x => negb (Listener_eqb l x)) ls.

Definition startAutoSync (a : AutoSync) : AutoSync :=
  match onlineListener a with
  | Some _ => a
  | None =>
      let l := SyncListener (closures a) in
      {| onlineListener := Some l;
         windowOnline := addEventListener l (windowOnline a);
         navigatorOnLine := navigatorOnLine a;
         syncTimers := if navigatorOnLine a then (syncTimers a ++ [2000])%list
                       else syncTimers a;
         closures := S (closures a) |}
  end.

Definition stopAutoSync (a : AutoSync) : AutoSync :=
  match onlineListener a with
  | Some l =>
      {| onlineListener := None;
         windowOnline := removeEventListener l (windowOnline a);
         navigatorOnLine := navigatorOnLine a;
         syncTimers := syncTimers a;
         closures := closures a |}
  | None => a
  end.

(** The browser going online: it sets [navigator.onLine] and calls the
    registered listeners in order; each listener of this module asks for a
    sync in 1000 ms. *)
Definition dispatchOnline (a : AutoSync) : AutoSync :=
  {| onlineListener := onlineListener a;
     windowOnline := windowOnline a;
     navigatorOnLine := true;
     syncTimers :=
       (syncTimers a
        ++ flat_map (fun l => match l with
                              | SyncListener _ => [1000]
                              | OtherListener _ => []
                              end) (windowOnline a))%list;
     closures := closures a |}.

(** The listeners of this module among the registered ones. *)
Definition syncListeners (a : AutoSync) : list Listener :=
  filter (fun l => match l with
                   | SyncListener _ => true
                   | OtherListener _ => false
                   end) (windowOnline a).

(** What holds of the state when the module is loaded and is kept: the
    registered listeners of this module are the one in [onlineListener],
    if any. *)
Definition autoSyncInvariant (a : AutoSync) : Prop :=
  syncListeners a = match onlineListener a with
                    | Some l => [l]
                    | None => []
                    end.

(** *** [auth.ts]: the PIN hash and the one-time passwords *)

Definition hashPin (pin : string) : string :=
  let h := hashLoop (pin ++ "offlinepay-salt-v1") 0 in
  Js.padStart0 16 (Js.toString16 (Z.abs h)).

Definition verifyPin (pin : string) (h : string) : bool :=
  String.eqb (hashPin pin) h.

Record StoredOtp : Type := {
  otp : string;
  expires : Z
}.

(** [storeOTP], at the instant [now] that [Date.now()] gives. *)
Definition storeOTP (now : Z) (phone code : string)
    (otpStore : list (string * StoredOtp)) : list (string * StoredOtp) :=
  JsMap.set phone {| otp := code; expires := now + 5 * 60 * 1000 |} otpStore.

(** [verifyOTP], at the instant [now] that [Date.now()] gives. *)
Definition verifyOTP (now : Z) (phone code : string)
    (otpStore : list (string * StoredOtp)) : bool * list (string * StoredOtp) :=
  match JsMap.get phone otpStore with
  | None => (false, otpStore)
  | Some stored =>
      if expires stored <? now then (false, JsMap.delete phone otpStore)
      else
        let isValid := String.eqb (otp stored) code in
        if isValid then (true, JsMap.delete phone otpStore)
        else (isValid, otpStore)
  end.

(** *** Vocabulary for the statements about them *)

Section VocabularyMore.
Context {Amount R : Type} {numOps : JsNumber Amount}
        {ledger : RemoteLedger R Amount}.

(** [a] may stand before [b] in a list that is newest first. *)
Definition newerFirst (a b : PendingTransaction Amount) : Prop :=
  timestamp b <= timestamp a.

(** The records of a list created at the instant [t], in the list's order. *)
Definition createdAt (t : Z) (l : list (PendingTransaction Amount))
    : list (PendingTransaction Amount) :=
  filter (fun x => timestamp x =? t) l.

(** A remote call made for one of the records [txs], with that record's
    own hash or arguments; a notification is none. *)
Definition callFor (txs : list (PendingTransaction Amount)) (e : Event Amount)
    : Prop :=
  match e with
  | EvSelectByHash h _ => exists tx, In tx txs /\ h = hash tx
  | EvProcessTransaction args => exists tx, In tx txs /\ args = processArgs tx
  | EvNotify _ _ _ => False
  end.

(** The ledger answers every look-up and accepts every submission,
    whatever its state. *)
Definition alwaysAccepts : Prop :=
  (forall r h, match fst (selectByHash r h) with
               | Resolved _ => True
               | Rejected _ => False
               end) /\
  (forall r (args : ProcessArgs Amount),
               match fst (rpcProcessTransaction r args) with
               | Resolved resp => error resp = None
               | Rejected _ => False
               end).

(** What a drain may add to the trace: a call for a record that was
    pending when it started, or a notification of the registered observer. *)
Definition drainEvent (w : World Amount R) (e : Event Amount) : Prop :=
  match e with
  | EvNotify _ _ _ => syncCallback w <> None
  | _ => callFor (listPending (pendingTransactions (db w))) e
  end.

(** The store without the records of [txs]. *)
Definition deleteAll (txs store : list (PendingTransaction Amount))
    : list (PendingTransaction Amount) :=
  fold_left (fun s tx => ObjectStore.delete id (id tx) s) txs store.

(** From [a] to [b] at most one attempt was counted. *)
Definition attempted (a b : PendingTransaction Amount) : Prop :=
  retryCount b = retryCount a \/ retryCount b = S (retryCount a).


(** The hashes looked up in a run of events, in the order asked. *)
Definition lookups (events : list (Event Amount)) : list string :=
  flat_map (fun e => match e with
                     | EvSelectByHash h _ => [h]
                     | _ => []
                     end) events.

End VocabularyMore.

(** The value a settings store holds for a key, [None] for none, [null]
    or [undefined]. *)
Definition settingOf {V} (k : string) (store : list (OfflineSetting V)) : option V :=
  match ObjectStore.get setting_key k store with
  | Some found => setting_value found
  | None => None
  end.

(** A digit of [toString(16)]. *)
Definition isLowerHex (c : ascii) : bool :=
  let n := nat_of_ascii c in
  ((48 <=? n) && (n <=? 57) || (97 <=? n) && (n <=? 102))%nat.

Fixpoint allLowerHex (s : string) : bool :=
  match s with
  | EmptyString => true
  | String c s' => isLowerHex c && allLowerHex s'
  end.

(** *** The turns of a drain, as the specification words them

    For one record the ledger is asked whether it holds the record's hash
    and, only when it holds none, to process the transfer. The ledger
    answers in the state the turns before have left it in. *)

(** How the turn of a record ends: the ledger holds the hash already, it
    has accepted the submission, or the look-up or the submission failed. *)
Inductive Verdict : Type := Duplicate | Submitted | Unsuccessful.

Section LedgerTurns.
Context {Amount R : Type} {numOps : JsNumber Amount}
        {ledger : RemoteLedger R Amount}.

(** The turn of [tx] with the ledger in state [r]: its verdict, the state
    of the ledger after it and the calls made, in order. *)
Definition ledgerTurn (r : R) (tx : PendingTransaction Amount)
    : Verdict * R * list (Event Amount) :=
  match selectByHash r (hash tx) with
  | (Rejected _, r1) => (Unsuccessful, r1, [EvSelectByHash (hash tx) false])
  | (Resolved found, r1) =>
      match data found with
      | Some _ => (Duplicate, r1, [EvSelectByHash (hash tx) true])
      | None =>
          let calls := [EvSelectByHash (hash tx) false;
                        EvProcessTransaction (processArgs tx)] in
          match rpcProcessTransaction r1 (processArgs tx) with
          | (Rejected _, r2) => (Unsuccessful, r2, calls)
          | (Resolved answer, r2) =>
              match error answer with
              | Some _ => (Unsuccessful, r2, calls)
              | None => (Submitted, r2, calls)
              end
          end
      end
  end.

(** The counters after a turn that ended with [v]. *)
Definition tally (v : Verdict) (c : SyncResult) : SyncResult :=
  match v with
  | Unsuccessful => incFailed c
  | Duplicate | Submitted => incSynced c
  end.

(** What a turn that ended with [v] leaves in the queue under the
    identifier of [tx], which held [was]: nothing, or after a failure the
    record with one more retry, failed when [tx] had two retries already
    and pending otherwise. *)
Definition leftQueued (v : Verdict) (tx : PendingTransaction Amount)
    (was : option (PendingTransaction Amount))
    : option (PendingTransaction Amount) :=
  match v with
  | Unsuccessful =>
      option_map
        (updated (if (2 <=? retryCount tx)%nat then failed else pending) true) was
  | Duplicate | Submitted => None
  end.

(** The turns of the records [txs], one after the other, from the ledger
    state [r] and the counters [c]: the counters and the ledger state at
    the end, and all the calls made. *)
Fixpoint ledgerRun (r : R) (txs : list (PendingTransaction Amount))
    (c : SyncResult) : SyncResult * R * list (Event Amount) :=
  match txs with
  | [] => (c, r, [])
  | tx :: rest =>
      let '(v, r1, calls) := ledgerTurn r tx in
      let '(c', r', more) := ledgerRun r1 rest (tally v c) in
      (c', r', (calls ++ more)%list)
  end.

(** The verdict of the turn of the record listed under [key]. *)
Fixpoint verdictOf (r : R) (txs : list (PendingTransaction Amount))
    (key : string) : option Verdict :=
  match txs with
  | [] => None
  | tx :: rest =>
      let '(v, r1, _) := ledgerTurn r tx in
      if String.eqb (id tx) key then Some v else verdictOf r1 rest key
  end.

(** How the attempt for the record under [key] ends in the drain that
    starts in [w]; [None] when the record is not pending then. *)
Definition drainVerdict (w : World Amount R) (key : string) : option Verdict :=
  verdictOf (remote w) (listPending (pendingTransactions (db w))) key.

Definition notification (e : Event Amount) : Prop :=
  match e with
  | EvNotify _ _ _ => True
  | _ => False
  end.

End LedgerTurns.

(** ** The drain, as the event loop runs it

    [syncPendingTransactions] is an [async] function: it runs until it
    awaits a request or calls the observer, other code runs meanwhile, and
    it goes on when the answer is there. [isSyncing] is written for what
    runs meanwhile, so the function is given here once more, in these
    steps; run without anything in between, it is the function of the
    world given above. *)

Section Tasks.
Context {Amount R : Type} {numOps : JsNumber Amount}
        {ledger : RemoteLedger R Amount}.

(** A call in progress: it has settled, or goes on with statements of its
    own ([Inside]), or has given control away until [op] answers
    ([Outside]): at an [await], to the event loop; at a call of the
    observer, to the observer. *)
Inductive Task (A : Type) : Type :=
| Settled (o : Outcome A)
| Inside {X : Type} (step : M Amount R X) (rest : Outcome X -> Task A)
| Outside {X : Type} (op : M Amount R X) (rest : Outcome X -> Task A).
Arguments Settled {A} o.
Arguments Inside {A X} step rest.
Arguments Outside {A X} op rest.

(** [return a] and [throw e] *)
Definition settle {A} (a : A) : Task A := Settled (Ok a).

Definition raise {A} (e : Exn) : Task A := Settled (Throw e).

(** Reading and writing a variable of the module. *)
Definition reading {A} (f : World Amount R -> A) : Task A :=
  Inside (fun w => (Ok (f w), w)) Settled.

Definition writing (f : World Amount R -> World Amount R) : Task unit :=
  Inside (fun w => (Ok tt, f w)) Settled.

(** [await m] *)
Definition await {A} (m : M Amount R A) : Task A := Outside m Settled.

(** [syncCallback?.(...)]: the observer runs, then the call goes on. *)
Definition observed {A} (m : M Amount R A) : Task A := Outside m Settled.

Fixpoint bindT {A B} (t : Task A) (k : A -> Task B) : Task B :=
  match t with
  | Settled (Ok a) => k a
  | Settled (Throw e) => Settled (Throw e)
  | Inside step rest => Inside step (fun o => bindT (rest o) k)
  | Outside op rest => Outside op (fun o => bindT (rest o) k)
  end.

(** [try { t } catch (e) { handler e }] *)
Fixpoint tryCatchT {A} (t : Task A) (handler : Exn -> Task A) : Task A :=
  match t with
  | Settled (Ok a) => Settled (Ok a)
  | Settled (Throw e) => handler e
  | Inside step rest => Inside step (fun o => tryCatchT (rest o) handler)
  | Outside op rest => Outside op (fun o => tryCatchT (rest o) handler)
  end.

(** [try { t } finally { cleanup }], for a [cleanup] that cannot throw. *)
Fixpoint tryFinallyT {A} (t : Task A)
    (cleanup : World Amount R -> World Amount R) : Task A :=
  match t with
  | Settled o => Inside (fun w => (Ok tt, cleanup w)) (fun _ => Settled o)
  | Inside step rest => Inside step (fun o => tryFinallyT (rest o) cleanup)
  | Outside op rest => Outside op (fun o => tryFinallyT (rest o) cleanup)
  end.

Notation "x <- t ;; k" := (bindT t (fun x => k))
  (at level 61, t at next level, right associativity).
Notation "t ;;; k" := (bindT t (fun _ => k))
  (at level 61, right associativity).

(** The body of the [for] loop, with its awaits. *)
Definition syncOneTask (tx : PendingTransaction Amount) (c : SyncResult)
    : Task SyncResult :=
  tryCatchT
    (await (updateTransactionStatus (id tx) syncing false) ;;;
     existing <- await (awaitSelectByHash (hash tx)) ;;
     match data existing with
     | Some _ =>
         await (deleteTransaction (id tx)) ;;;
         settle (incSynced c)
     | None =>
         answer <- await (awaitProcessTransaction (processArgs tx)) ;;
         match error answer with
         | Some reason => raise (RemoteFailure reason)
         | None =>
             await (deleteTransaction (id tx)) ;;;
             settle (incSynced c)
         end
     end)
    (fun _ =>
       await (updateTransactionStatus (id tx)
                (if (2 <=? retryCount tx)%nat then failed else pending) true) ;;;
       settle (incFailed c)).

Fixpoint syncLoopTask (txs : list (PendingTransaction Amount)) (c : SyncResult)
    : Task SyncResult :=
  match txs with
  | [] => settle c
  | tx :: rest => c' <- syncOneTask tx c ;; syncLoopTask rest c'
  end.

Definition syncPendingTransactionsTask : Task SyncResult :=
  busy <- reading isSyncing ;;
  if busy then settle zeroResult
  else
    writing (fun w => withIsSyncing w true) ;;;
    tryFinallyT
      (txs <- await getPendingTransactions ;;
       if (List.length txs =? 0)%nat then
         writing (fun w => withIsSyncing w false) ;;;
         settle zeroResult
       else
         observed
           (notify PhSyncing
              ("Syncing " ++ countText (List.length txs) ++ " transactions...")
              (List.length txs)) ;;;
         c <- syncLoopTask txs zeroResult ;;
         (if (0 <? synced c)%nat then
            observed
              (notify PhSuccess
                 (countText (synced c) ++ " transaction" ++ plural (synced c)
                    ++ " synced!")
                 (synced c))
          else settle tt) ;;;
         (if (0 <? failedCount c)%nat then
            observed
              (notify PhError
                 (countText (failedCount c) ++ " transaction"
                    ++ plural (failedCount c) ++ " failed to sync")
                 (failedCount c))
          else settle tt) ;;;
         settle c)
      (fun w => withIsSyncing w false).

(** *** What runs meanwhile *)

(** While a call is outside, other code runs: calls of
    [syncPendingTransactions], and code that is not of this module. *)
Inductive Visit : Type :=
| Call
| Other (act : World Amount R -> World Amount R).

(** A call runs its own statements until it settles or is outside. *)
Fixpoint enter {A} (t : Task A) (w : World Amount R) : Task A * World Amount R :=
  match t with
  | Inside step rest => let (o, w') := step w in enter (rest o) w'
  | _ => (t, w)
  end.

(** A call that arrived meanwhile: the world it met, where it stood when
    it gave control back, and the world it left. *)
Record Arrival : Type := {
  worldMet : World Amount R;
  standing : Task SyncResult;
  worldLeft : World Amount R
}.

(** The world, the visits still to come (one list for each time the
    call in progress is outside), and the calls that have arrived. *)
Record Amid : Type := {
  world : World Amount R;
  ahead : list (list Visit);
  arrivals : list Arrival
}.

Definition withWorld (s : Amid) (w : World Amount R) : Amid :=
  {| world := w; ahead := ahead s; arrivals := arrivals s |}.

Definition visit (s : Amid) (v : Visit) : Amid :=
  match v with
  | Call =>
      let (t, w') := enter syncPendingTransactionsTask (world s) in
      {| world := w'; ahead := ahead s;
         arrivals := (arrivals s ++ [{| worldMet := world s; standing := t;
                                        worldLeft := w' |}])%list |}
  | Other act => withWorld s (act (world s))
  end.

Definition meanwhile (s : Amid) : Amid :=
  match ahead s with
  | [] => s
  | visits :: later =>
      fold_left visit visits
        {| world := world s; ahead := later; arrivals := arrivals s |}
  end.

(** The call in progress runs to its end: each time it is outside, the
    visits of that time run first, then the answer comes. *)
Fixpoint perform {A} (t : Task A) (s : Amid) : Outcome A * Amid :=
  match t with
  | Settled o => (o, s)
  | Inside step rest =>
      let (o, w') := step (world s) in perform (rest o) (withWorld s w')
  | Outside op rest =>
      let s1 := meanwhile s in
      let (o, w') := op (world s1) in perform (rest o) (withWorld s1 w')
  end.

Definition opening (w : World Amount R) (visits : list (list Visit)) : Amid :=
  {| world := w; ahead := visits; arrivals := [] |}.

(** Code other than [syncPendingTransactions] does not write
    [isSyncing]: the module does not export the variable, and its other
    functions do not assign it. *)
Definition foreign (v : Visit) : Prop :=
  match v with
  | Call => True
  | Other act => forall w, isSyncing (act w) = isSyncing w
  end.

Definition isCall (v : Visit) : bool :=
  match v with Call => true | Other _ => false end.

(** The arriving call found a drain in progress and returned the zero
    result at once, leaving the world as it was. *)
Definition turnedAway (a : Arrival) : Prop :=
  isSyncing (worldMet a) = true /\
  standing a = Settled (Ok zeroResult) /\
  worldLeft a = worldMet a.

(** The calls among the visits. *)
Definition callsAmong (visits : list Visit) : nat :=
  List.length (filter isCall visits).

(** The flag is set, the visits to come are foreign to the flag, and the
    calls that have arrived were turned away. *)
Definition orderly (s : Amid) : Prop :=
  isSyncing (world s) = true /\
  Forall (Forall foreign) (ahead s) /\
  Forall turnedAway (arrivals s).

(** From [s] to [s'], the visits [used] have run, and each call among
    them has arrived. *)
Definition passed (used : list (list Visit)) (s s' : Amid) : Prop :=
  ahead s = (used ++ ahead s')%list /\
  List.length (arrivals s')
  = (List.length (arrivals s) + callsAmong (List.concat used))%nat.

(** A task that leaves the flag set wherever it is outside and when it
    settles, and that runs, when only calls visit, as [m] does alone. *)
Definition holding {A} (t : Task A) (m : M Amount R A) : Prop :=
  forall s, orderly s ->
    orderly (snd (perform t s)) /\
    (exists used, passed used s (snd (perform t s))) /\
    (forallb (forallb isCall) (ahead s) = true ->
       fst (perform t s) = fst (m (world s)) /\
       world (snd (perform t s)) = snd (m (world s))).

End Tasks.

Arguments Task : clear implicits.
Arguments Visit : clear implicits.
Arguments Arrival : clear implicits.
Arguments Amid : clear implicits.
Arguments Settled {Amount R A} o.
Arguments Inside {Amount R A X} step rest.
Arguments Outside {Amount R A X} op rest.
Arguments Call {Amount R}.
Arguments Other {Amount R} act.

(** *** More of the concrete platform *)

Module Fixtures.

(** A ledger that holds nothing and accepts every submission; its state
    counts them. *)
#[export] Instance accepting : RemoteLedger nat Z :=
  {| selectByHash := fun r _ => (Resolved {| data := None; error := None |}, r);
     rpcProcessTransaction :=
       fun r _ => (Resolved {| data := Some "ledger-id"; error := None |}, S r) |}.

Definition startAccepting (h : Host) : World Z nat :=
  {| db := Mock.emptyDb; deviceIdItem := None; isSyncing := false;
     syncCallback := Some (fun _ _ _ => None); remote := 0%nat; trace := [];
     tick := 0; host := h |}.

(** A ledger whose look-up resolves with an error and no row, and which
    accepts every submission; its state tells whether one was made. *)
#[export] Instance erring : RemoteLedger bool Z :=
  {| selectByHash :=
       fun r _ =>
         (Resolved {| data := None; error := Some "multiple rows returned" |}, r);
     rpcProcessTransaction :=
       fun _ _ => (Resolved {| data := Some "ledger-id"; error := None |}, true) |}.

Definition startErring (h : Host) : World Z bool :=
  {| db := Mock.emptyDb; deviceIdItem := None; isSyncing := false;
     syncCallback := None; remote := false; trace := [];
     tick := 0; host := h |}.

(** A ledger that declines the transfer of [Mock.recordA] for lack of
    funds, and would accept any other. *)
Definition decliningLedger : Mock.Ledger :=
  {| Mock.accepted := []; Mock.refused := ["7755a780"]; Mock.unreachable := false |}.

(** An observer that throws whatever it is told. *)
Definition throwingObserver : SyncCallback :=
  fun _ _ _ => Some "render failed".

(** [Mock.recordA] as a drain that did not finish has left it. *)
Definition recordS : PendingTransaction Z :=
  {| id := "tx-1700000000002-7755a780"; senderId := "S"; receiverId := "R";
     receiverPhone := Some "r@pay"; amount := 100; timestamp := 1700000000002;
     status := syncing; hash := "7755a780"; retryCount := 0;
     deviceId := "device-1"; description := Some "lunch" |}.

(** The page as loaded: online, another listener registered, no sync
    asked for. *)
Definition pageLoaded : AutoSync :=
  {| onlineListener := None; windowOnline := [OtherListener "network-status"];
     navigatorOnLine := true; syncTimers := []; closures := 0 |}.

End Fixtures.

(** * Properties *)

(** ** The model at work *)

Example toInt32_wraps : Js.toInt32 (2 ^ 31) = - 2 ^ 31.
Proof. reflexivity. Qed.

Example toString16_ff : Js.toString16 255 = "ff".
Proof. reflexivity. Qed.

Example toString16_zero : Js.toString16 0 = "0".
Proof. reflexivity. Qed.

Example toString16_min : Js.toString16 (2 ^ 31) = "80000000".
Proof. reflexivity. Qed.

(** [toString16] agrees with the hexadecimal printer of the standard library. *)
Example toString16_stdlib :
  map Js.toString16 [1; 15; 16; 4096; 2002102144; 2147483647]
  = map (fun n => HexadecimalString.NilZero.string_of_uint (N.to_hex_uint (Z.to_N n)))
      [1; 15; 16; 4096; 2002102144; 2147483647].
Proof. vm_compute. reflexivity. Qed.

Example intToString_ex : Js.intToString 1700000000123 = "1700000000123".
Proof. reflexivity. Qed.

Example intToString_zero : Js.intToString 0 = "0".
Proof. reflexivity. Qed.

(** The loop of [generateHash] is the 32-bit polynomial hash with factor 31. *)
Example hashLoop_abc : hashLoop "abc" 0 = 96354.
Proof. vm_compute. reflexivity. Qed.

Example hashLoop_wraps : hashLoop "zzzzzzzz" 0 = -1910022912.
Proof. vm_compute. reflexivity. Qed.

(** ** Facts about object stores *)

Module ObjectStoreFacts.
Section Facts.
Context {V : Type} (keyOf : V -> string).

Notation put := (ObjectStore.put keyOf).
Notation get := (ObjectStore.get keyOf).
Notation delete := (ObjectStore.delete keyOf).
Notation wf := (ObjectStore.wf keyOf).

Lemma compare_Eq (a b : string) : String_as_OT.compare a b = Eq <-> a = b.
Proof.
  destruct (String_as_OT.compare_spec a b) as [E | L | L]; split; intro H;
    try discriminate; try assumption; try reflexivity; subst;
    exfalso; apply (StrictOrder_Irreflexive _ L).
Qed.

Lemma lt_neq (a b : string) : String_as_OT.lt a b -> a <> b.
Proof.
  intros L E. subst. apply (StrictOrder_Irreflexive _ L).
Qed.

Lemma get_put_same (v : V) (s : list V) : get (keyOf v) (put v s) = Some v.
Proof.
  unfold ObjectStore.get.
  induction s as [| x s IH]; simpl.
  - now rewrite String.eqb_refl.
  - destruct (String_as_OT.compare (keyOf v) (keyOf x)) eqn:C; simpl.
    + now rewrite String.eqb_refl.
    + now rewrite String.eqb_refl.
    + destruct (String.eqb_spec (keyOf x) (keyOf v)) as [E | N]; [| exact IH].
      rewrite E in C. assert (Eq = Gt) by (rewrite <- C; symmetry; now apply compare_Eq).
      discriminate.
Qed.

Lemma get_put_other (v : V) (k : string) (s : list V) :
  keyOf v <> k -> get k (put v s) = get k s.
Proof.
  intros N. unfold ObjectStore.get.
  induction s as [| x s IH]; simpl.
  - destruct (String.eqb_spec (keyOf v) k); [contradiction | reflexivity].
  - destruct (String_as_OT.compare (keyOf v) (keyOf x)) eqn:C; simpl.
    + apply compare_Eq in C.
      destruct (String.eqb_spec (keyOf v) k); [contradiction |].
      destruct (String.eqb_spec (keyOf x) k); [congruence | reflexivity].
    + destruct (String.eqb_spec (keyOf v) k); [contradiction | reflexivity].
    + destruct (String.eqb_spec (keyOf x) k); [reflexivity | exact IH].
Qed.

Lemma get_delete_same (k : string) (s : list V) : get k (delete k s) = None.
Proof.
  unfold ObjectStore.get, ObjectStore.delete.
  induction s as [| x s IH]; simpl; [reflexivity |].
  destruct (String.eqb (keyOf x) k) eqn:E; simpl; [exact IH |].
  now rewrite E.
Qed.

Lemma get_delete_other (k k' : string) (s : list V) :
  k <> k' -> get k (delete k' s) = get k s.
Proof.
  intros N. unfold ObjectStore.get, ObjectStore.delete.
  induction s as [| x s IH]; simpl; [reflexivity |].
  destruct (String.eqb_spec (keyOf x) k') as [E | E]; simpl.
  - destruct (String.eqb_spec (keyOf x) k); [congruence | exact IH].
  - destruct (String.eqb_spec (keyOf x) k); [reflexivity | exact IH].
Qed.

Lemma get_Some (k : string) (s : list V) (v : V) :
  get k s = Some v -> In v s /\ keyOf v = k.
Proof.
  unfold ObjectStore.get. intros H.
  apply find_some in H. destruct H as [I E].
  apply String.eqb_eq in E. now split.
Qed.

Lemma get_None (k : string) (s : list V) :
  get k s = None -> forall v, In v s -> keyOf v <> k.
Proof.
  unfold ObjectStore.get. intros H v I E.
  apply (find_none _ _ H) in I. apply String.eqb_neq in I. contradiction.
Qed.

Lemma wf_tail (x : V) (s : list V) : wf (x :: s) -> wf s.
Proof. intros H. now inversion H. Qed.

Lemma wf_head (x : V) (s : list V) :
  wf (x :: s) -> forall y, In y s -> String_as_OT.lt (keyOf x) (keyOf y).
Proof.
  intros H y I. inversion H as [| ? ? _ F]; subst.
  rewrite Forall_forall in F. now apply F.
Qed.

Lemma wf_In_get (s : list V) (v : V) : wf s -> In v s -> get (keyOf v) s = Some v.
Proof.
  unfold ObjectStore.get.
  induction s as [| x s IH]; intros W I; [contradiction |].
  simpl. destruct I as [E | I].
  - subst. now rewrite String.eqb_refl.
  - destruct (String.eqb_spec (keyOf x) (keyOf v)) as [E | N].
    + exfalso. apply (lt_neq _ _ (wf_head _ _ W _ I)). exact E.
    + apply IH; [eapply wf_tail; eassumption | assumption].
Qed.

Lemma wf_key_inj (s : list V) (a b : V) :
  wf s -> In a s -> In b s -> keyOf a = keyOf b -> a = b.
Proof.
  intros W Ia Ib E.
  pose proof (wf_In_get s a W Ia) as Ga.
  pose proof (wf_In_get s b W Ib) as Gb.
  rewrite E in Ga. congruence.
Qed.

Lemma In_put (v y : V) (s : list V) : In y (put v s) -> y = v \/ In y s.
Proof.
  induction s as [| x s IH]; simpl.
  - intros [E | []]; auto.
  - destruct (String_as_OT.compare (keyOf v) (keyOf x)); simpl.
    + intros [E | I]; auto.
    + intros [E | [E | I]]; auto.
    + intros [E | I]; auto. destruct (IH I); auto.
Qed.

Lemma wf_put (v : V) (s : list V) : wf s -> wf (put v s).
Proof.
  unfold ObjectStore.wf.
  induction s as [| x s IH]; intros W; simpl.
  - constructor; constructor.
  - destruct (String_as_OT.compare_spec (keyOf v) (keyOf x)) as [E | L | L].
    + inversion W as [| ? ? W' F]; subst.
      constructor; [assumption |]. now rewrite E.
    + constructor; [assumption |].
      constructor; [assumption |].
      rewrite Forall_forall. intros y I.
      etransitivity; [exact L |]. now apply (wf_head _ _ W).
    + inversion W as [| ? ? W' F]; subst.
      constructor; [now apply IH |].
      rewrite Forall_forall. intros y I.
      destruct (In_put _ _ _ I) as [E | I'].
      * now subst.
      * rewrite Forall_forall in F. now apply F.
Qed.

Lemma wf_filter (f : V -> bool) (s : list V) : wf s -> wf (filter f s).
Proof.
  unfold ObjectStore.wf.
  induction s as [| x s IH]; intros W; simpl; [constructor |].
  inversion W as [| ? ? W' F]; subst.
  destruct (f x); [| now apply IH].
  constructor; [now apply IH |].
  rewrite Forall_forall in *. intros y I.
  apply filter_In in I. now apply F.
Qed.

Lemma wf_delete (k : string) (s : list V) : wf s -> wf (delete k s).
Proof. apply wf_filter. Qed.

(** Writing back a record under a key the store holds replaces that
    record in place. *)
Lemma put_replace (v : V) (s : list V) :
  wf s -> get (keyOf v) s <> None ->
  put v s = map (fun x => if String.eqb (keyOf x) (keyOf v) then v else x) s.
Proof.
  unfold ObjectStore.get.
  induction s as [| x s IH]; intros W G; simpl in *; [congruence |].
  destruct (String_as_OT.compare_spec (keyOf v) (keyOf x)) as [E | L | L].
  - change (keyOf v = keyOf x) in E.
    rewrite E, String.eqb_refl. f_equal.
    rewrite <- E. clear IH G.
    induction s as [| y s IH]; simpl; [reflexivity |].
    assert (String_as_OT.lt (keyOf x) (keyOf y)) as Lxy
        by (apply (wf_head _ _ W); now left).
    destruct (String.eqb_spec (keyOf y) (keyOf v)) as [Ey | Ny].
    + exfalso. apply (lt_neq _ _ Lxy). congruence.
    + f_equal. apply IH.
      inversion W as [| ? ? W' F]; subst. inversion W'; subst.
      inversion F; subst. constructor; assumption.
  - exfalso.
    destruct (String.eqb_spec (keyOf x) (keyOf v)) as [Ex | Nx].
    + apply (lt_neq _ _ L). congruence.
    + destruct (find (fun x0 => String.eqb (keyOf x0) (keyOf v)) s) eqn:Fd; [| congruence].
      apply find_some in Fd. destruct Fd as [I Ev]. apply String.eqb_eq in Ev.
      pose proof (wf_head _ _ W _ I) as Lx.
      apply (StrictOrder_Irreflexive (keyOf v)).
      etransitivity; [exact L |]. now rewrite <- Ev.
  - destruct (String.eqb_spec (keyOf x) (keyOf v)) as [Ex | Nx].
    + exfalso. apply (lt_neq _ _ L). congruence.
    + f_equal. apply IH; [eapply wf_tail; eassumption | assumption].
Qed.

Lemma wf_NoDup (s : list V) : wf s -> NoDup (map keyOf s).
Proof.
  induction s as [| x s IH]; intros W; simpl; constructor.
  - intros I. apply in_map_iff in I. destruct I as [y [E I]].
    apply (lt_neq _ _ (wf_head _ _ W _ I)). now symmetry.
  - apply IH. eapply wf_tail; eassumption.
Qed.

Lemma map_absent (k : string) (f : V -> V) (s : list V) :
  get k s = None ->
  map (fun x => if String.eqb (keyOf x) k then f x else x) s = s.
Proof.
  unfold ObjectStore.get.
  induction s as [| x s IH]; simpl; [reflexivity |].
  destruct (String.eqb (keyOf x) k); [discriminate |].
  intros H. f_equal. now apply IH.
Qed.

End Facts.
End ObjectStoreFacts.

(** ** Facts about the primitives of JavaScript *)

Module JsFacts.

Lemma toInt32_range (z : Z) : - 2 ^ 31 <= Js.toInt32 z < 2 ^ 31.
Proof.
  unfold Js.toInt32.
  pose proof (Z.mod_pos_bound (z + 2 ^ 31) (2 ^ 32) eq_refl). lia.
Qed.

Lemma length_hexDigits (fuel : nat) (n : Z) (acc : string) :
  (String.length (Js.hexDigits fuel n acc) <= fuel + String.length acc)%nat.
Proof.
  revert n acc. induction fuel as [| fuel IH]; intros n acc; simpl; [lia |].
  destruct (n / 16 =? 0); simpl; [lia |].
  specialize (IH (n / 16) (String (Js.hexDigit (n mod 16)) acc)).
  simpl in IH. lia.
Qed.

(** A number of at most 32 bits prints as at most eight hexadecimal digits. *)
Lemma length_toString16 (n : Z) :
  0 <= n <= 2 ^ 31 -> (String.length (Js.toString16 n) <= 8)%nat.
Proof.
  intros H. unfold Js.toString16.
  pose proof (length_hexDigits (S (Z.to_nat (Z.log2 n / 4))) n EmptyString) as L.
  change (String.length EmptyString) with 0%nat in L.
  assert (Z.log2 n <= 31) as B.
  { change 31 with (Z.log2 (2 ^ 31)). apply Z.log2_le_mono. lia. }
  pose proof (Z.log2_nonneg n) as P.
  assert (Z.log2 n / 4 <= 7)
    by (change 7 with (31 / 4); apply Z.div_le_mono; lia).
  assert (0 <= Z.log2 n / 4) by (apply Z.div_pos; lia).
  lia.
Qed.

Lemma length_append (a b : string) :
  String.length (a ++ b) = (String.length a + String.length b)%nat.
Proof. induction a as [| c a IH]; simpl; [reflexivity | now rewrite IH]. Qed.

Lemma length_repeat0 (k : nat) : String.length (Js.repeat0 k) = k.
Proof. induction k; simpl; congruence. Qed.

Lemma length_padStart0 (n : nat) (s : string) :
  String.length (Js.padStart0 n s) = Nat.max n (String.length s).
Proof.
  unfold Js.padStart0. rewrite length_append, length_repeat0. lia.
Qed.

Lemma slice0_all (s : string) : Js.slice0 (String.length s) s = s.
Proof.
  unfold Js.slice0. induction s as [| c s IH]; simpl; [reflexivity |].
  now rewrite IH.
Qed.

Lemma to_int_proper (z : Z) :
  Z.to_int z <> Decimal.Pos Decimal.Nil /\ Z.to_int z <> Decimal.Neg Decimal.Nil.
Proof.
  destruct z as [| p | p]; simpl; split; try discriminate;
    intros E; injection E as E; exact (DecimalPos.Unsigned.to_uint_nonnil p E).
Qed.

Lemma intToString_inj (a b : Z) : Js.intToString a = Js.intToString b -> a = b.
Proof.
  unfold Js.intToString. intros H.
  apply (f_equal NilZero.int_of_string) in H.
  destruct (to_int_proper a) as [Pa Na], (to_int_proper b) as [Pb Nb].
  rewrite !NilZero.isi in H by assumption.
  injection H as H.
  now apply DecimalZ.to_int_inj.
Qed.

(** Two texts that end in suffixes of one length agree piecewise. *)
Lemma append_inj_suffix (a a' b b' : string) :
  String.length b = String.length b' ->
  (a ++ b)%string = (a' ++ b')%string -> a = a' /\ b = b'.
Proof.
  intros L. revert a'.
  induction a as [| c a IH]; intros [| c' a'] E; simpl in E.
  - now split.
  - exfalso. apply (f_equal String.length) in E. simpl in E.
    rewrite length_append in E. lia.
  - exfalso. apply (f_equal String.length) in E. simpl in E.
    rewrite length_append in E. lia.
  - injection E as Ec Ea. destruct (IH _ Ea) as [Ha Hb]. now subst.
Qed.

End JsFacts.

(** ** Facts about [offlineDb.ts] *)

Section OfflineDbFacts.
Context {Amount R : Type} {numOps : JsNumber Amount}
        {ledger : RemoteLedger R Amount}.

Notation World := (World Amount R).
Notation Tx := (PendingTransaction Amount).
Notation get := (ObjectStore.get id).

Lemma stored_healthy {A} (w : World) (a : A) (d : Db Amount) result :
  stored w a d result -> fst result <> Throw StorageUnavailable ->
  exists n, result = (Ok a, withDb (advance n w) d).
Proof.
  intros [n | n] H; simpl in H; [congruence | eauto].
Qed.

Lemma withPending_same (d : Db Amount) : withPending d (pendingTransactions d) = d.
Proof. now destruct d. Qed.

Lemma withDb_same (w : World) : withDb w (db w) = w.
Proof. now destruct w. Qed.

Lemma advance_0 (w : World) : advance 0 w = w.
Proof. now destruct w. Qed.

Lemma updateTransactionStatus_stored key s inc (w : World) :
  stored w tt
    (withPending (db w) (statusWritten key s inc (pendingTransactions (db w))))
    (updateTransactionStatus key s inc w).
Proof.
  unfold updateTransactionStatus, statusWritten, getDB, bind, idb, ret. simpl.
  destruct (storageFails (host w) (tick w)) eqn:F1; simpl;
    [exact (stored_fail _ _ _ 1) |].
  destruct (storageFails (host w) (S (tick w))) eqn:F2; simpl;
    [exact (stored_fail _ _ _ 2) |].
  destruct (get key (pendingTransactions (db w))) as [tx |] eqn:G; simpl.
  - destruct (storageFails (host w) (S (S (tick w)))) eqn:F3; simpl;
      [exact (stored_fail _ _ _ 3) |].
    destruct inc; exact (stored_done _ _ _ 3).
  - rewrite withPending_same. exact (stored_done _ _ _ 2).
Qed.

Lemma updateTransactionStatus_healthy key s inc (w : World) :
  healthy w -> fst (updateTransactionStatus key s inc w) = Ok tt.
Proof.
  intros H.
  unfold updateTransactionStatus, getDB, bind, idb, ret. simpl.
  rewrite !H. simpl.
  destruct (get key (pendingTransactions (db w))); simpl; [| reflexivity].
  now rewrite H.
Qed.

Lemma deleteTransaction_stored key (w : World) :
  stored w tt
    (withPending (db w) (ObjectStore.delete id key (pendingTransactions (db w))))
    (deleteTransaction key w).
Proof.
  unfold deleteTransaction, getDB, bind, idb. simpl.
  destruct (storageFails (host w) (tick w)) eqn:F1; simpl;
    [exact (stored_fail _ _ _ 1) |].
  destruct (storageFails (host w) (S (tick w))) eqn:F2; simpl;
    [exact (stored_fail _ _ _ 2) | exact (stored_done _ _ _ 2)].
Qed.

Lemma deleteTransaction_healthy key (w : World) :
  healthy w -> fst (deleteTransaction key w) = Ok tt.
Proof.
  intros H. unfold deleteTransaction, getDB, bind, idb. simpl.
  now rewrite !H.
Qed.

Lemma getPendingTransactions_stored (w : World) :
  stored w (listPending (pendingTransactions (db w))) (db w)
    (getPendingTransactions w).
Proof.
  unfold getPendingTransactions, listPending, getDB, bind, idb. simpl.
  destruct (storageFails (host w) (tick w)) eqn:F1; simpl;
    [exact (stored_fail _ _ _ 1) |].
  destruct (storageFails (host w) (S (tick w))) eqn:F2; simpl;
    [exact (stored_fail _ _ _ 2) | exact (stored_done _ _ _ 2)].
Qed.

Lemma getPendingTransactions_healthy (w : World) :
  healthy w ->
  fst (getPendingTransactions w) = Ok (listPending (pendingTransactions (db w))).
Proof.
  intros H. unfold getPendingTransactions, getDB, bind, idb. simpl.
  now rewrite !H.
Qed.

Lemma statusWritten_map key s inc (store : list Tx) :
  ObjectStore.wf id store ->
  statusWritten key s inc store = setStatusIn key s inc store.
Proof.
  intros W. unfold statusWritten, setStatusIn.
  destruct (get key store) as [tx |] eqn:G.
  - destruct (ObjectStoreFacts.get_Some id _ _ _ G) as [I E].
    rewrite (ObjectStoreFacts.put_replace id (updated s inc tx) store W)
      by (simpl; rewrite E, G; discriminate).
    apply map_ext_in. intros x Ix. simpl. rewrite E.
    destruct (String.eqb_spec (id x) key) as [Ex | Nx]; [| reflexivity].
    f_equal. symmetry. eapply ObjectStoreFacts.wf_key_inj; eauto. congruence.
  - symmetry. now apply ObjectStoreFacts.map_absent.
Qed.

Lemma get_statusWritten_other key s inc (store : list Tx) k :
  k <> key -> get k (statusWritten key s inc store) = get k store.
Proof.
  intros N. unfold statusWritten.
  destruct (get key store) as [tx |] eqn:G; [| reflexivity].
  destruct (ObjectStoreFacts.get_Some id _ _ _ G) as [_ E].
  apply ObjectStoreFacts.get_put_other. simpl. congruence.
Qed.

Lemma get_statusWritten_same key s inc (store : list Tx) :
  get key (statusWritten key s inc store) = option_map (updated s inc) (get key store).
Proof.
  unfold statusWritten.
  destruct (get key store) as [tx |] eqn:G; simpl; [| exact G].
  destruct (ObjectStoreFacts.get_Some id _ _ _ G) as [_ E].
  rewrite <- E at 1.
  exact (ObjectStoreFacts.get_put_same id (updated s inc tx) store).
Qed.

Lemma wf_statusWritten key s inc (store : list Tx) :
  ObjectStore.wf id store -> ObjectStore.wf id (statusWritten key s inc store).
Proof.
  intros W. unfold statusWritten.
  destruct (get key store); [now apply ObjectStoreFacts.wf_put | assumption].
Qed.

(** C8. [updateTransactionStatus] changes nothing when the store holds no
    record under the identifier; when it holds one and the call resolves,
    that record has the new status and, if asked, a retry count one
    higher, its other fields are as they were, and so is every other
    record; a call that does not resolve throws [StorageUnavailable] and
    changes no record; under a healthy platform the call resolves. *)
Theorem updateTransactionStatus_frame key s inc (w : World) :
  let store := pendingTransactions (db w) in
  let result := updateTransactionStatus key s inc w in
  let store' := pendingTransactions (db (snd result)) in
  ObjectStore.wf id store ->
  (get key store = None -> store' = store) /\
  (fst result = Ok tt -> store' = setStatusIn key s inc store) /\
  (forall tx, get key store = Some tx -> fst result = Ok tt ->
     get key store' = Some (updated s inc tx)) /\
  (forall k, k <> key -> get k store' = get k store) /\
  (fst result <> Ok tt ->
     fst result = Throw StorageUnavailable /\ store' = store) /\
  (healthy w -> fst result = Ok tt) /\
  cachedRecipients (db (snd result)) = cachedRecipients (db w).
Proof.
  intros store result store' W. subst store' result.
  pose proof (updateTransactionStatus_healthy key s inc w) as Hh.
  destruct (updateTransactionStatus_stored key s inc w) as [n | n]; simpl in *;
    fold store.
  - repeat split; try reflexivity; try discriminate; try assumption.
  - repeat split; try reflexivity; try assumption; try congruence.
    + intros G. unfold statusWritten. now rewrite G.
    + intros _. now apply statusWritten_map.
    + intros tx G _. rewrite get_statusWritten_same. now rewrite G.
    + intros k N. now apply get_statusWritten_other.
Qed.

(** Under a healthy platform the three requests of the drain loop resolve. *)
Lemma updateTransactionStatus_run_healthy key s inc (w w1 : World) :
  healthy w -> host w1 = host w ->
  exists n, updateTransactionStatus key s inc w1
            = (Ok tt,
               withDb (advance n w1)
                 (withPending (db w1)
                    (statusWritten key s inc (pendingTransactions (db w1))))).
Proof.
  intros H E. apply stored_healthy; [apply updateTransactionStatus_stored |].
  rewrite updateTransactionStatus_healthy; [discriminate |].
  intros k. rewrite E. apply H.
Qed.

Lemma deleteTransaction_run_healthy key (w w1 : World) :
  healthy w -> host w1 = host w ->
  exists n, deleteTransaction key w1
            = (Ok tt,
               withDb (advance n w1)
                 (withPending (db w1)
                    (ObjectStore.delete id key (pendingTransactions (db w1))))).
Proof.
  intros H E. apply stored_healthy; [apply deleteTransaction_stored |].
  rewrite deleteTransaction_healthy; [discriminate |].
  intros k. rewrite E. apply H.
Qed.

Lemma getPendingTransactions_run_healthy (w : World) :
  healthy w ->
  exists n, getPendingTransactions w
            = (Ok (listPending (pendingTransactions (db w))),
               withDb (advance n w) (db w)).
Proof.
  intros H. apply stored_healthy; [apply getPendingTransactions_stored |].
  rewrite getPendingTransactions_healthy by assumption. discriminate.
Qed.

(** *** [clearSyncedTransactions] *)

Lemma purgeable_active (item : Tx) :
  negb (Status_eqb (status item) pending)
    && negb (Status_eqb (status item) syncing) = negb (active item).
Proof. unfold active. now destruct (status item). Qed.

Lemma filter_filter {A} (f g : A -> bool) (l : list A) :
  filter f (filter g l) = filter (fun x => g x && f x) l.
Proof.
  induction l as [| x l IH]; simpl; [reflexivity |].
  destruct (g x); simpl; [destruct (f x) |]; now rewrite IH.
Qed.

Lemma filter_all {A} (f : A -> bool) (l : list A) :
  (forall x, In x l -> f x = true) -> filter f l = l.
Proof.
  induction l as [| x l IH]; simpl; intros H; [reflexivity |].
  rewrite (H x) by now left. f_equal. apply IH. intros y I. apply H. now right.
Qed.

Lemma clearLoop_filter (all store : list Tx) :
  clearLoop all store =
  filter (fun x => negb (existsb (fun item => negb (active item)
                                               && String.eqb (id item) (id x)) all))
    store.
Proof.
  revert store. induction all as [| item rest IH]; intros store; simpl.
  - symmetry. now apply filter_all.
  - rewrite purgeable_active.
    destruct (active item); simpl; [apply IH |].
    rewrite IH. unfold ObjectStore.delete. rewrite filter_filter.
    apply filter_ext. intros x.
    rewrite (String.eqb_sym (id item) (id x)).
    now destruct (String.eqb (id x) (id item)).
Qed.

Lemma clearLoop_self (store : list Tx) :
  ObjectStore.wf id store -> clearLoop store store = filter active store.
Proof.
  intros W. rewrite clearLoop_filter.
  apply filter_ext_in. intros x I.
  destruct (active x) eqn:A.
  - apply negb_true_iff. apply not_true_iff_false. intros E.
    apply existsb_exists in E. destruct E as [item [Ii E]].
    apply andb_true_iff in E. destruct E as [Na Ei].
    apply String.eqb_eq in Ei.
    assert (item = x) by (eapply ObjectStoreFacts.wf_key_inj; eauto).
    subst. rewrite A in Na. discriminate.
  - apply negb_false_iff. apply existsb_exists. exists x. split; [assumption |].
    now rewrite A, String.eqb_refl.
Qed.

Lemma clearSyncedTransactions_stored (w : World) :
  stored w tt
    (withPending (db w)
       (clearLoop (pendingTransactions (db w)) (pendingTransactions (db w))))
    (clearSyncedTransactions w).
Proof.
  unfold clearSyncedTransactions, getDB, bind, idb. simpl.
  destruct (storageFails (host w) (tick w)) eqn:F1; simpl;
    [exact (stored_fail _ _ _ 1) |].
  destruct (storageFails (host w) (S (tick w))) eqn:F2; simpl;
    [exact (stored_fail _ _ _ 2) |].
  destruct (storageFails (host w) (S (S (tick w)))) eqn:F3; simpl;
    [exact (stored_fail _ _ _ 3) | exact (stored_done _ _ _ 3)].
Qed.

Lemma clearSyncedTransactions_healthy (w : World) :
  healthy w -> fst (clearSyncedTransactions w) = Ok tt.
Proof.
  intros H. unfold clearSyncedTransactions, getDB, bind, idb. simpl.
  now rewrite !H.
Qed.

(** C4. [clearSyncedTransactions] (the purge) that resolves leaves exactly
    the records whose status is pending or syncing: every failed record is
    gone, and no pending or syncing record is ever removed, whether the
    purge resolves or throws; it adds no record; under a healthy platform
    it resolves. *)
Theorem clearSyncedTransactions_purges (w : World) :
  let store := pendingTransactions (db w) in
  let result := clearSyncedTransactions w in
  let store' := pendingTransactions (db (snd result)) in
  ObjectStore.wf id store ->
  (fst result = Ok tt -> store' = filter active store) /\
  (fst result = Ok tt ->
     forall tx, In tx store -> status tx = failed -> ~ In tx store') /\
  (forall tx, In tx store -> status tx = pending \/ status tx = syncing ->
     In tx store') /\
  (forall tx, In tx store' -> In tx store) /\
  (fst result <> Ok tt ->
     fst result = Throw StorageUnavailable /\ store' = store) /\
  (healthy w -> fst result = Ok tt).
Proof.
  intros store result store' W. subst store' result.
  pose proof (clearSyncedTransactions_healthy w) as Hh.
  destruct (clearSyncedTransactions_stored w) as [n | n]; simpl in *;
    fold store.
  - repeat split; try reflexivity; try discriminate; try assumption; auto.
  - rewrite (clearLoop_self store W).
    repeat split; try reflexivity; try assumption; try congruence.
    + intros _ tx I F Ix. apply filter_In in Ix. destruct Ix as [_ A].
      unfold active in A. rewrite F in A. discriminate.
    + intros tx I S. apply filter_In. split; [assumption |].
      unfold active. now destruct S as [-> | ->].
    + intros tx I. now apply filter_In in I.
Qed.

(** *** [getTodayOfflineTotal] *)

Lemma fold_left_map {A B C} (f : A -> B -> A) (g : C -> B) (l : list C) (a : A) :
  fold_left (fun acc x => f acc (g x)) l a = fold_left f (map g l) a.
Proof.
  revert a. induction l as [| x l IH]; intros a; simpl; [reflexivity | apply IH].
Qed.

Lemma codeTotal_spec userId dayStart (store : list Tx) :
  fold_left (fun sum tx => num_add sum (amount tx))
    (filter (fun tx => (dayStart <=? timestamp tx)
                       && negb (Status_eqb (status tx) failed))
       (ObjectStore.getAllFromIndex senderId userId store))
    num_zero
  = dailyOfflineTotal userId dayStart store.
Proof.
  unfold dailyOfflineTotal, ObjectStore.getAllFromIndex.
  rewrite fold_left_map, filter_filter. do 2 f_equal.
  apply filter_ext. intros x. now rewrite andb_assoc.
Qed.

(** C9. [getTodayOfflineTotal] that resolves returns the sum of the
    amounts of exactly the queued transfers whose sender is the user,
    whose timestamp is at or after the day boundary (the local midnight
    before the moment of the call) and whose status is not failed; it
    changes no record; otherwise it throws [StorageUnavailable]; under a
    healthy platform it resolves. *)
Theorem getTodayOfflineTotal_sum userId (w : World) :
  let store := pendingTransactions (db w) in
  let result := getTodayOfflineTotal userId w in
  let dayStart := localMidnight (host w) (dateNow (host w) (2 + tick w)) in
  (fst result = Ok (dailyOfflineTotal userId dayStart store)
   \/ fst result = Throw StorageUnavailable) /\
  (healthy w -> fst result = Ok (dailyOfflineTotal userId dayStart store)) /\
  db (snd result) = db w.
Proof.
  intros store result dayStart. subst result dayStart store.
  unfold getTodayOfflineTotal, getDB, now, bind, idb, ret, healthy. simpl.
  destruct (storageFails (host w) (tick w)) eqn:F1; simpl.
  { repeat split; auto. intros H. rewrite H in F1. discriminate. }
  destruct (storageFails (host w) (S (tick w))) eqn:F2; simpl.
  { repeat split; auto. intros H. rewrite H in F2. discriminate. }
  rewrite codeTotal_spec. repeat split; auto.
Qed.

(** *** The cache of recipients *)

Lemma cacheRecipient_stored recipient (w : World) :
  stored w tt
    (withRecipients (db w)
       (ObjectStore.put rc_id (stamped recipient (dateNow (host w) (1 + tick w)))
          (cachedRecipients (db w))))
    (cacheRecipient recipient w).
Proof.
  unfold cacheRecipient, getDB, now, bind, idb. simpl.
  destruct (storageFails (host w) (tick w)) eqn:F1; simpl;
    [exact (stored_fail _ _ _ 1) |].
  destruct (storageFails (host w) (S (S (tick w)))) eqn:F2; simpl;
    [exact (stored_fail _ _ _ 3) | exact (stored_done _ _ _ 3)].
Qed.

Lemma cacheRecipient_healthy recipient (w : World) :
  healthy w -> fst (cacheRecipient recipient w) = Ok tt.
Proof.
  intros H. unfold cacheRecipient, getDB, now, bind, idb. simpl.
  now rewrite !H.
Qed.

Lemma getCachedRecipientByPaymentId_stored paymentId (w : World) :
  stored w (firstWithPaymentId paymentId (cachedRecipients (db w))) (db w)
    (getCachedRecipientByPaymentId paymentId w).
Proof.
  assert (forall l : list CachedRecipient,
             match filter (fun x => String.eqb (payment_id x) paymentId) l with
             | first :: _ => Some first
             | [] => None
             end = firstWithPaymentId paymentId l) as E.
  { unfold firstWithPaymentId. induction l as [| x l IH]; simpl; [reflexivity |].
    destruct (String.eqb (payment_id x) paymentId); [reflexivity | exact IH]. }
  unfold getCachedRecipientByPaymentId, getDB, bind, idb, ret. simpl.
  destruct (storageFails (host w) (tick w)) eqn:F1; simpl;
    [exact (stored_fail _ _ _ 1) |].
  destruct (storageFails (host w) (S (tick w))) eqn:F2; simpl;
    [exact (stored_fail _ _ _ 2) |].
  unfold ObjectStore.getAllFromIndex. rewrite E.
  exact (stored_done _ _ _ 2).
Qed.

Lemma cacheRecipient_run_healthy recipient (w : World) :
  healthy w ->
  exists n, cacheRecipient recipient w
            = (Ok tt,
               withDb (advance n w)
                 (withRecipients (db w)
                    (ObjectStore.put rc_id
                       (stamped recipient (dateNow (host w) (1 + tick w)))
                       (cachedRecipients (db w))))).
Proof.
  intros H. apply stored_healthy; [apply cacheRecipient_stored |].
  rewrite cacheRecipient_healthy by assumption. discriminate.
Qed.

Lemma getCachedRecipientByPaymentId_healthy paymentId (w : World) :
  healthy w ->
  fst (getCachedRecipientByPaymentId paymentId w) <> Throw StorageUnavailable.
Proof.
  intros H. unfold getCachedRecipientByPaymentId, getDB, bind, idb, ret. simpl.
  rewrite !H. simpl. discriminate.
Qed.

Lemma getCachedRecipientByPaymentId_run_healthy paymentId (w w1 : World) :
  healthy w -> host w1 = host w ->
  exists n, getCachedRecipientByPaymentId paymentId w1
            = (Ok (firstWithPaymentId paymentId (cachedRecipients (db w1))),
               withDb (advance n w1) (db w1)).
Proof.
  intros H E. apply stored_healthy; [apply getCachedRecipientByPaymentId_stored |].
  apply getCachedRecipientByPaymentId_healthy. intros k. rewrite E. apply H.
Qed.

Lemma find_first {V} (keyOf : V -> string) (f : V -> bool) (s : list V) (x : V) :
  ObjectStore.wf keyOf s -> find f s = Some x ->
  forall y, In y s -> f y = true ->
  y = x \/ String_as_OT.lt (keyOf x) (keyOf y).
Proof.
  induction s as [| z s IH]; intros W F y I Fy; simpl in *; [contradiction |].
  destruct (f z) eqn:Fz.
  - injection F as <-. destruct I as [-> | I]; [now left | right].
    now apply (ObjectStoreFacts.wf_head keyOf _ _ W).
  - destruct I as [-> | I]; [congruence |].
    apply IH; auto. eapply ObjectStoreFacts.wf_tail; eassumption.
Qed.

Lemma In_put_self {V} (keyOf : V -> string) (v : V) (s : list V) :
  In v (ObjectStore.put keyOf v s).
Proof.
  pose proof (ObjectStoreFacts.get_put_same keyOf v s) as G.
  now apply ObjectStoreFacts.get_Some in G.
Qed.

(** C7, as the code has it. The cache holds at most one record per record
    id: caching a profile writes its record under the profile's id,
    replacing the record that id had and no other. Looking a payment
    identifier up returns the first record, in record-id order, that
    carries it, and none exactly when no record carries it; that is the
    record cached last whenever no record under another id carries the
    identifier. *)
Theorem recipients_keyed_by_record_id (w : World) :
  let store := cachedRecipients (db w) in
  ObjectStore.wf rc_id store ->
  (forall recipient,
     let result := cacheRecipient recipient w in
     let store' := cachedRecipients (db (snd result)) in
     let record := stamped recipient (dateNow (host w) (1 + tick w)) in
     ObjectStore.wf rc_id store' /\
     (forall a b, In a store' -> In b store' -> rc_id a = rc_id b -> a = b) /\
     (fst result = Ok tt ->
        ObjectStore.get rc_id (rp_id recipient) store' = Some record /\
        forall k, k <> rp_id recipient ->
          ObjectStore.get rc_id k store' = ObjectStore.get rc_id k store) /\
     (fst result <> Ok tt -> store' = store) /\
     (healthy w -> fst result = Ok tt)) /\
  (forall paymentId,
     let result := getCachedRecipientByPaymentId paymentId w in
     (fst result = Ok (firstWithPaymentId paymentId store)
      \/ fst result = Throw StorageUnavailable) /\
     (healthy w -> fst result = Ok (firstWithPaymentId paymentId store)) /\
     db (snd result) = db w /\
     (firstWithPaymentId paymentId store = None <->
        forall x, In x store -> payment_id x <> paymentId) /\
     (forall x, firstWithPaymentId paymentId store = Some x ->
        In x store /\ payment_id x = paymentId /\
        forall y, In y store -> payment_id y = paymentId ->
          y = x \/ String_as_OT.lt (rc_id x) (rc_id y))) /\
  (forall recipient, healthy w ->
     (forall x, In x store -> payment_id x = rp_payment_id recipient ->
        rc_id x = rp_id recipient) ->
     fst (getCachedRecipientByPaymentId (rp_payment_id recipient)
            (snd (cacheRecipient recipient w)))
     = Ok (Some (stamped recipient (dateNow (host w) (1 + tick w))))).
Proof.
  intros store W.
  assert (forall recipient,
             ObjectStore.wf rc_id
               (cachedRecipients (db (snd (cacheRecipient recipient w))))) as W'.
  { intros recipient.
    destruct (cacheRecipient_stored recipient w) as [n | n]; simpl;
      [assumption | now apply ObjectStoreFacts.wf_put]. }
  split; [| split].
  - intros recipient result store' record. subst result store' record.
    specialize (W' recipient).
    pose proof (cacheRecipient_healthy recipient w) as Hh.
    split; [exact W' |].
    split; [intros a b; now apply ObjectStoreFacts.wf_key_inj |].
    destruct (cacheRecipient_stored recipient w) as [n | n]; simpl in *.
    + repeat split; try discriminate; auto.
    + repeat split; try congruence; auto.
      * exact (ObjectStoreFacts.get_put_same rc_id _ _).
      * intros k N. apply ObjectStoreFacts.get_put_other. simpl. congruence.
  - intros paymentId result. subst result.
    pose proof (getCachedRecipientByPaymentId_healthy paymentId w) as Hh.
    split; [| split; [| split; [| split]]].
    + destruct (getCachedRecipientByPaymentId_stored paymentId w); simpl; auto.
    + intros H. specialize (Hh H).
      destruct (getCachedRecipientByPaymentId_stored paymentId w); simpl in *;
        [congruence | reflexivity].
    + destruct (getCachedRecipientByPaymentId_stored paymentId w); simpl;
        reflexivity.
    + unfold firstWithPaymentId. split.
      * intros F x I E. apply (find_none _ _ F) in I.
        apply String.eqb_neq in I. contradiction.
      * intros H. destruct (find _ store) as [x |] eqn:F; [| reflexivity].
        apply find_some in F. destruct F as [I E]. apply String.eqb_eq in E.
        exfalso. exact (H x I E).
    + unfold firstWithPaymentId. intros x F.
      pose proof (find_some _ _ F) as [I E]. apply String.eqb_eq in E.
      repeat split; [assumption | assumption |].
      intros y Iy Ey. eapply (find_first rc_id); eauto.
      now apply String.eqb_eq.
  - intros recipient H U.
    destruct (cacheRecipient_run_healthy recipient w H) as [n E1].
    rewrite E1. cbn [snd].
    match goal with
    | |- fst (getCachedRecipientByPaymentId ?p ?w1) = _ =>
        destruct (getCachedRecipientByPaymentId_run_healthy p w w1 H eq_refl)
          as [m E2];
        rewrite E2
    end.
    cbn [fst db withDb cachedRecipients withRecipients]. f_equal.
    set (record := stamped recipient (dateNow (host w) (1 + tick w))).
    assert (ObjectStore.wf rc_id (ObjectStore.put rc_id record store)) as Wp
        by now apply ObjectStoreFacts.wf_put.
    unfold firstWithPaymentId. fold store.
    match goal with
    | |- find ?f ?l = _ => destruct (find f l) as [x |] eqn:F
    end.
    + f_equal. pose proof (find_some _ _ F) as [I E]. apply String.eqb_eq in E.
      apply (ObjectStoreFacts.wf_key_inj rc_id _ x record Wp I
               (In_put_self rc_id record store)).
      destruct (ObjectStoreFacts.In_put rc_id _ _ _ I) as [-> | Is];
        [reflexivity | now apply U].
    + exfalso.
      pose proof (find_none _ _ F record (In_put_self rc_id record store)) as N.
      cbn [payment_id record stamped] in N. now rewrite String.eqb_refl in N.
Qed.

(** *** [generateHash] and [addPendingTransaction] *)

Lemma generateHash_integrityHash (u : UnhashedTransaction Amount) :
  generateHash u
  = integrityHash (u_senderId u) (u_receiverId u) (u_amount u)
      (u_timestamp u) (u_deviceId u).
Proof. reflexivity. Qed.

Lemma hashStep_range (h : Z) (c : ascii) : - 2 ^ 31 <= hashStep h c < 2 ^ 31.
Proof.
  unfold hashStep. unfold Js.band at 1. apply JsFacts.toInt32_range.
Qed.

Lemma hashLoop_cons (c : ascii) (s : string) (h : Z) :
  hashLoop (String c s) h = hashLoop s (hashStep h c).
Proof. lazy beta iota delta [hashLoop]. reflexivity. Qed.

Lemma hashLoop_range (s : string) (h : Z) :
  - 2 ^ 31 <= h < 2 ^ 31 -> - 2 ^ 31 <= hashLoop s h < 2 ^ 31.
Proof.
  revert h. induction s as [| c s IH]; intros h H; [exact H |].
  rewrite hashLoop_cons. apply IH. apply hashStep_range.
Qed.

Lemma length_integrityHash sender receiver (amt : Amount) time device :
  String.length (integrityHash sender receiver amt time device) = 8%nat.
Proof.
  unfold integrityHash. rewrite JsFacts.length_padStart0.
  match goal with
  | |- context [hashLoop ?s 0] =>
      pose proof (hashLoop_range s 0 ltac:(lia)) as B
  end.
  match goal with
  | |- context [Js.toString16 ?n] =>
      pose proof (JsFacts.length_toString16 n ltac:(lia))
  end.
  lia.
Qed.

Lemma identified_enqueued tx device time : identified (enqueued tx device time).
Proof.
  split; [reflexivity | apply length_integrityHash].
Qed.

(** An enqueue that resolves has written the record [enqueued] for some
    device and instant, and nothing else. *)
Lemma addPendingTransaction_ok tx (w : World) t w' :
  addPendingTransaction tx w = (Ok t, w') ->
  exists device time,
    t = enqueued tx device time /\
    db w' = withPending (db w) (ObjectStore.put id t (pendingTransactions (db w))).
Proof.
  assert (forall device time,
             Js.slice0 8 (integrityHash (n_senderId tx) (n_receiverId tx)
                            (n_amount tx) time device)
             = integrityHash (n_senderId tx) (n_receiverId tx)
                 (n_amount tx) time device) as Sl.
  { intros device time.
    rewrite <- (length_integrityHash (n_senderId tx) (n_receiverId tx)
                  (n_amount tx) time device) at 1.
    apply JsFacts.slice0_all. }
  unfold addPendingTransaction, getDB, getDeviceId, now, bind, idb, ret. simpl.
  destruct (storageFails (host w) (tick w)) eqn:F1; simpl; [discriminate |].
  destruct (deviceIdItem w) as [d |] eqn:D; simpl;
    [destruct (String.eqb d "") eqn:Ed; simpl |].
  all: match goal with
       | |- context [storageFails ?h ?n] =>
           destruct (storageFails h n) eqn:F2; simpl; [discriminate |]
       end.
  all: rewrite generateHash_integrityHash; simpl; rewrite Sl.
  all: intros E; injection E as <- <-; simpl.
  all: eexists _, _; split; reflexivity.
Qed.

Lemma addPendingTransaction_throws tx (w : World) e w' :
  addPendingTransaction tx w = (Throw e, w') ->
  e = StorageUnavailable /\ db w' = db w.
Proof.
  unfold addPendingTransaction, getDB, getDeviceId, now, bind, idb, ret. simpl.
  destruct (storageFails (host w) (tick w)) eqn:F1; simpl;
    [intros E; injection E as <- <-; now split |].
  destruct (deviceIdItem w) as [d |] eqn:D; simpl;
    [destruct (String.eqb d "") eqn:Ed; simpl |].
  all: match goal with
       | |- context [storageFails ?h ?n] =>
           destruct (storageFails h n) eqn:F2; simpl; [| discriminate]
       end.
  all: intros E; injection E as <- <-; now split.
Qed.

Lemma addPendingTransaction_healthy tx (w : World) :
  healthy w -> exists t, fst (addPendingTransaction tx w) = Ok t.
Proof.
  intros H.
  unfold addPendingTransaction, getDB, getDeviceId, now, bind, idb, ret. simpl.
  rewrite H. simpl.
  destruct (deviceIdItem w) as [d |]; simpl;
    [destruct (String.eqb d ""); simpl |].
  all: rewrite H; simpl; eauto.
Qed.

(** Two identifiers of the queue agree exactly on equal timestamps and
    hashes. *)
Lemma identified_inj (a b : Tx) :
  identified a -> identified b ->
  (id a = id b <-> timestamp a = timestamp b /\ hash a = hash b).
Proof.
  intros [Ia La] [Ib Lb]. rewrite Ia, Ib. split.
  - intros E. simpl in E. injection E as E.
    apply JsFacts.append_inj_suffix in E; [| simpl; congruence].
    destruct E as [Et Eh]. injection Eh as Eh.
    split; [now apply JsFacts.intToString_inj | assumption].
  - intros [-> ->]. reflexivity.
Qed.

End OfflineDbFacts.

(** ** Facts about [syncEngine.ts] *)

Section SyncEngineFacts.
Context {Amount R : Type} {numOps : JsNumber Amount}
        {ledger : RemoteLedger R Amount}.

Notation World := (World Amount R).
Notation Tx := (PendingTransaction Amount).
Notation get := (ObjectStore.get id).

#[local] Arguments updateTransactionStatus : simpl never.
#[local] Arguments deleteTransaction : simpl never.
#[local] Arguments getPendingTransactions : simpl never.

Lemma sameTransfer_refl (a : Tx) : sameTransfer a a.
Proof. repeat split. Qed.

Lemma sameTransfer_trans (a b c : Tx) :
  sameTransfer a b -> sameTransfer b c -> sameTransfer a c.
Proof. unfold sameTransfer. intuition congruence. Qed.

Lemma sameTransfer_updated s inc (a : Tx) : sameTransfer a (updated s inc a).
Proof. repeat split. Qed.

Lemma touches_refl key (s : list Tx) : touches key s s.
Proof.
  repeat split; auto. intros b G. exists b. split; [assumption |].
  apply sameTransfer_refl.
Qed.

Lemma touches_statusWritten key st inc (s s1 : list Tx) :
  touches key s s1 -> touches key s (statusWritten key st inc s1).
Proof.
  intros [O [D W]]. repeat split.
  - intros k N. rewrite get_statusWritten_other by assumption. now apply O.
  - intros b G. rewrite get_statusWritten_same in G.
    destruct (get key s1) as [b1 |] eqn:G1; simpl in G; [| discriminate].
    injection G as <-. destruct (D b1 eq_refl) as [a [Ga Sa]].
    exists a. split; [assumption |].
    eapply sameTransfer_trans; [eassumption | apply sameTransfer_updated].
  - intros Ws. apply wf_statusWritten. now apply W.
Qed.

Lemma touches_delete key (s s1 : list Tx) :
  touches key s s1 -> touches key s (ObjectStore.delete id key s1).
Proof.
  intros [O [D W]]. repeat split.
  - intros k N. rewrite ObjectStoreFacts.get_delete_other by assumption.
    now apply O.
  - intros b G. rewrite ObjectStoreFacts.get_delete_same in G. discriminate.
  - intros Ws. apply ObjectStoreFacts.wf_delete. now apply W.
Qed.

Lemma touches_descends key (s s' : list Tx) : touches key s s' -> descends s s'.
Proof.
  intros [O [D _]] k b G.
  destruct (String.eqb_spec k key) as [-> | N]; [now apply D |].
  rewrite O in G by assumption. exists b. split; [assumption |].
  apply sameTransfer_refl.
Qed.

Lemma descends_refl (s : list Tx) : descends s s.
Proof.
  intros k b G. exists b. split; [assumption | apply sameTransfer_refl].
Qed.

Lemma descends_trans (s1 s2 s3 : list Tx) :
  descends s1 s2 -> descends s2 s3 -> descends s1 s3.
Proof.
  intros D1 D2 k c G. destruct (D2 k c G) as [b [Gb Sb]].
  destruct (D1 k b Gb) as [a [Ga Sa]]. exists a. split; [assumption |].
  eapply sameTransfer_trans; eassumption.
Qed.

(** One step through the body of the loop: the outcome of the next
    storage request or remote call. *)
Ltac step :=
  match goal with
  | |- context [updateTransactionStatus ?k ?s ?i ?W] =>
      destruct (updateTransactionStatus_stored k s i W) as [? | ?]; simpl
  | |- context [deleteTransaction ?k ?W] =>
      destruct (deleteTransaction_stored k W) as [? | ?]; simpl
  | |- context [selectByHash ?r ?h] =>
      let Sel := fresh "Sel" in
      destruct (selectByHash r h) as [[? | ?] ?] eqn:Sel; simpl
  | |- context [rpcProcessTransaction ?r ?a] =>
      let Rpc := fresh "Rpc" in
      destruct (rpcProcessTransaction r a) as [[? | ?] ?] eqn:Rpc; simpl
  | |- context [match data ?resp with _ => _ end] =>
      let D := fresh "D" in destruct (data resp) eqn:D; simpl
  | |- context [match error ?resp with _ => _ end] =>
      let E := fresh "E" in destruct (error resp) eqn:E; simpl
  end.

Ltac paths :=
  unfold syncOne, tryCatch, bind, ret, throw, awaitSelectByHash,
    awaitProcessTransaction; simpl;
  repeat step.

(** The loop body leaves the engine's own state and the platform alone. *)
Lemma syncOne_frame tx c (w : World) :
  let w' := snd (syncOne tx c w) in
  isSyncing w' = isSyncing w /\ syncCallback w' = syncCallback w /\
  host w' = host w /\ deviceIdItem w' = deviceIdItem w /\
  cachedRecipients (db w') = cachedRecipients (db w).
Proof.
  paths; repeat split.
Qed.

(** The loop body touches the record it is given and no other. *)
Lemma syncOne_touches tx c (w : World) :
  touches (id tx) (pendingTransactions (db w))
    (pendingTransactions (db (snd (syncOne tx c w)))).
Proof.
  paths;
    repeat first [ apply touches_refl
                 | apply touches_statusWritten
                 | apply touches_delete ].
Qed.

(** The loop body adds one to exactly one counter. *)
Lemma syncOne_counts tx c (w : World) c' :
  fst (syncOne tx c w) = Ok c' -> c' = incSynced c \/ c' = incFailed c.
Proof.
  paths; intros Hc; try discriminate; injection Hc as <-; auto.
Qed.

(** The remote calls of the loop body. *)
Lemma syncOne_trace tx c (w : World) :
  exists events,
    trace (snd (syncOne tx c w)) = (trace w ++ events)%list /\
    recordEvents tx events.
Proof.
  unfold recordEvents.
  paths;
    try (exists []; rewrite app_nil_r; split; [reflexivity | auto]; fail);
    try (eexists [_]; split; [reflexivity | eauto]; fail);
    try (eexists [_; _]; rewrite <- app_assoc; split; [reflexivity | auto]; fail).
Qed.

(** One step under a healthy platform [H]. *)
Ltac hstep H :=
  match goal with
  | |- context [updateTransactionStatus ?k ?s ?i ?W] =>
      let n := fresh "n" in
      let E := fresh "E" in
      destruct (updateTransactionStatus_run_healthy k s i _ W H eq_refl) as [n E];
      rewrite E; clear E; simpl
  | |- context [deleteTransaction ?k ?W] =>
      let n := fresh "n" in
      let E := fresh "E" in
      destruct (deleteTransaction_run_healthy k _ W H eq_refl) as [n E];
      rewrite E; clear E; simpl
  end.

Ltac hpaths H :=
  unfold syncOne, tryCatch, bind, ret, throw, awaitSelectByHash,
    awaitProcessTransaction; simpl;
  repeat first [ hstep H | step ].

(** Under a healthy platform the loop body resolves. *)
Lemma syncOne_healthy tx c (w : World) :
  healthy w -> exists c', fst (syncOne tx c w) = Ok c'.
Proof.
  intros H. hpaths H; eauto.
Qed.

(** A record the ledger already holds: no submission, the record removed
    and counted as synced. *)
Lemma syncOne_duplicate tx c (w : World) resp r1 :
  selectByHash (remote w) (hash tx) = (Resolved resp, r1) ->
  data resp <> None ->
  let result := syncOne tx c w in
  (trace (snd result) = trace w
   \/ trace (snd result) = (trace w ++ [EvSelectByHash (hash tx) true])%list) /\
  (healthy w ->
     fst result = Ok (incSynced c) /\
     trace (snd result) = (trace w ++ [EvSelectByHash (hash tx) true])%list /\
     get (id tx) (pendingTransactions (db (snd result))) = None).
Proof.
  intros Hsel Hdata result. subst result. split.
  - revert Hsel Hdata. paths; intros Hsel Hdata;
      try (injection Hsel as <- <-); try discriminate Hsel;
      try (rewrite D in Hdata; contradiction); auto.
  - intros H. revert Hsel Hdata. hpaths H; intros Hsel Hdata;
      try (injection Hsel as <- <-); try discriminate Hsel;
      try (rewrite D in Hdata; contradiction).
    repeat split.
    rewrite !ObjectStoreFacts.get_delete_same. reflexivity.
Qed.

(** Under a healthy platform the loop body always makes the duplicate
    look-up, and makes it before anything else it asks of the ledger. *)
Lemma syncOne_asks_first tx c (w : World) :
  healthy w ->
  exists found rest,
    trace (snd (syncOne tx c w))
    = (trace w ++ EvSelectByHash (hash tx) found :: rest)%list /\
    (rest = [] \/ (found = false /\ rest = [EvProcessTransaction (processArgs tx)])).
Proof.
  intros H.
  hpaths H; rewrite <- ?app_assoc; simpl;
    eexists _, _; (split; [reflexivity |]); auto.
Qed.

(** *** The loop *)

Lemma syncLoop_cons tx rest c (w : World) :
  syncLoop (tx :: rest) c w
  = match syncOne tx c w with
    | (Ok c', w') => syncLoop rest c' w'
    | (Throw e, w') => (Throw e, w')
    end.
Proof. reflexivity. Qed.

Lemma syncLoop_frame txs c (w : World) :
  let w' := snd (syncLoop txs c w) in
  isSyncing w' = isSyncing w /\ syncCallback w' = syncCallback w /\
  host w' = host w /\ deviceIdItem w' = deviceIdItem w /\
  cachedRecipients (db w') = cachedRecipients (db w).
Proof.
  revert c w. induction txs as [| tx rest IH]; intros c w; [repeat split |].
  rewrite syncLoop_cons.
  pose proof (syncOne_frame tx c w) as F.
  destruct (syncOne tx c w) as [[c' | e] w1]; simpl in F |- *; [| exact F].
  specialize (IH c' w1). simpl in IH. intuition congruence.
Qed.

Lemma syncLoop_descends txs c (w : World) :
  descends (pendingTransactions (db w))
    (pendingTransactions (db (snd (syncLoop txs c w)))).
Proof.
  revert c w. induction txs as [| tx rest IH]; intros c w; [apply descends_refl |].
  rewrite syncLoop_cons.
  pose proof (touches_descends _ _ _ (syncOne_touches tx c w)) as D.
  destruct (syncOne tx c w) as [[c' | e] w1]; simpl in D |- *; [| exact D].
  eapply descends_trans; [exact D | apply IH].
Qed.

Lemma syncLoop_wf txs c (w : World) :
  ObjectStore.wf id (pendingTransactions (db w)) ->
  ObjectStore.wf id (pendingTransactions (db (snd (syncLoop txs c w)))).
Proof.
  revert c w. induction txs as [| tx rest IH]; intros c w W; [exact W |].
  rewrite syncLoop_cons.
  destruct (syncOne_touches tx c w) as [_ [_ Wf]].
  destruct (syncOne tx c w) as [[c' | e] w1]; simpl in Wf |- *; auto.
Qed.

(** The loop leaves alone every record that is not in its list. *)
Lemma syncLoop_other txs c (w : World) k :
  ~ In k (map id txs) ->
  get k (pendingTransactions (db (snd (syncLoop txs c w))))
  = get k (pendingTransactions (db w)).
Proof.
  revert c w. induction txs as [| tx rest IH]; intros c w N; [reflexivity |].
  rewrite syncLoop_cons.
  destruct (syncOne_touches tx c w) as [O _].
  specialize (O k). simpl in N.
  destruct (syncOne tx c w) as [[c' | e] w1]; simpl in O |- *.
  - rewrite IH by tauto. apply O. intros ->. tauto.
  - apply O. intros ->. tauto.
Qed.

(** Every record of the list adds one to exactly one counter. *)
Lemma syncLoop_counts txs c (w : World) c' :
  fst (syncLoop txs c w) = Ok c' ->
  (synced c' + failedCount c' = synced c + failedCount c + List.length txs)%nat.
Proof.
  revert c w. induction txs as [| tx rest IH]; intros c w.
  - simpl. intros E. injection E as <-. lia.
  - rewrite syncLoop_cons.
    pose proof (syncOne_counts tx c w) as C1.
    destruct (syncOne tx c w) as [[c1 | e] w1]; simpl in C1 |- *;
      [| discriminate].
    intros E. apply IH in E.
    destruct (C1 c1 eq_refl) as [-> | ->]; simpl in E; lia.
Qed.

Lemma syncLoop_healthy txs c (w : World) :
  healthy w -> exists c', fst (syncLoop txs c w) = Ok c'.
Proof.
  revert c w. induction txs as [| tx rest IH]; intros c w H; [now exists c |].
  rewrite syncLoop_cons.
  destruct (syncOne_healthy tx c w H) as [c1 E1].
  destruct (syncOne_frame tx c w) as [_ [_ [Hh _]]].
  destruct (syncOne tx c w) as [[c2 | e] w1]; simpl in *; [| discriminate].
  apply IH. intros n. rewrite Hh. apply H.
Qed.

Lemma checkedBeforeSubmit_nil : checkedBeforeSubmit (@nil (Event Amount)).
Proof.
  intros before args after E. destruct before; discriminate.
Qed.

Lemma checkedBeforeSubmit_app (e1 e2 : list (Event Amount)) :
  checkedBeforeSubmit e1 -> checkedBeforeSubmit e2 ->
  checkedBeforeSubmit (e1 ++ e2).
Proof.
  intros C1 C2 before args after E.
  apply app_eq_app in E. destruct E as [l [[E1 E2] | [E1 E2]]].
  - destruct l as [| x l].
    + rewrite app_nil_r in E1. subst e1. simpl in E2.
      destruct (C2 [] args after (eq_sym E2)) as [b' Eb].
      destruct b'; discriminate.
    + simpl in E2. injection E2 as <- ->.
      now apply (C1 before args l).
  - subst before. destruct (C2 l args after E2) as [b' ->].
    exists (e1 ++ b')%list. now rewrite app_assoc.
Qed.

Lemma checkedBeforeSubmit_notify phase message count :
  checkedBeforeSubmit [@EvNotify Amount phase message count].
Proof.
  intros before args after E.
  destruct before as [| x [| y before]]; discriminate.
Qed.

Lemma checkedBeforeSubmit_record tx (events : list (Event Amount)) :
  recordEvents tx events -> checkedBeforeSubmit events.
Proof.
  intros [-> | [[found ->] | ->]] before args after E.
  - destruct before; discriminate.
  - destruct before as [| x [| y before]]; discriminate.
  - destruct before as [| x [| y [| z before]]]; try discriminate.
    injection E as E1 E2 E3. subst. now exists [].
Qed.

Lemma syncLoop_trace txs c (w : World) :
  exists events,
    trace (snd (syncLoop txs c w)) = (trace w ++ events)%list /\
    checkedBeforeSubmit events.
Proof.
  revert c w. induction txs as [| tx rest IH]; intros c w.
  - exists []. simpl. rewrite app_nil_r. split; [reflexivity |].
    apply checkedBeforeSubmit_nil.
  - rewrite syncLoop_cons.
    destruct (syncOne_trace tx c w) as [e1 [T1 R1]].
    apply checkedBeforeSubmit_record in R1.
    destruct (syncOne tx c w) as [[c1 | e] w1]; simpl in T1 |- *;
      [| now exists e1].
    destruct (IH c1 w1) as [e2 [T2 R2]].
    exists (e1 ++ e2)%list. split.
    + now rewrite T2, T1, app_assoc.
    + now apply checkedBeforeSubmit_app.
Qed.

(** *** The drain *)

#[local] Arguments syncLoop : simpl never.

(** The paths through [syncPendingTransactions] once the guard is passed;
    [facts txs c W] records what is needed of the loop before its outcome
    is named. *)
Ltac drain facts :=
  unfold syncPendingTransactions, tryFinally, bind, ret, notify; simpl;
  repeat match goal with
    | |- context [getPendingTransactions ?W] =>
        destruct (getPendingTransactions_stored W) as [? | ?]; simpl
    | |- context [(List.length ?l =? 0)%nat] =>
        let L := fresh "L" in
        destruct (List.length l =? 0)%nat eqn:L; simpl
    | |- context [syncLoop ?txs ?c ?W] =>
        let cl := fresh "cl" in
        let wl := fresh "wl" in
        let Fc := fresh "Fc" in
        facts txs c W;
        pose proof (proj1 (proj2 (syncLoop_frame txs c W))) as Fc;
        destruct (syncLoop txs c W) as [[cl | ?] wl]; simpl in *;
        rewrite ?Fc
    | Cb : syncCallback ?W = _ |- context [match syncCallback ?W with _ => _ end] =>
        rewrite Cb; simpl
    | |- context [match syncCallback ?W with _ => _ end] =>
        let Cb := fresh "Cb" in
        destruct (syncCallback W) eqn:Cb; simpl
    | |- context [match ?cb ?p ?m ?c with Some _ => _ | None => _ end] =>
        let Call := fresh "Call" in
        destruct (cb p m c) eqn:Call; simpl
    | |- context [(0 <? ?n)%nat] =>
        let Z := fresh "Z" in
        destruct (0 <? n)%nat eqn:Z; simpl
    end.

Ltac nothing txs c W := idtac.

Lemma syncPendingTransactions_busy (w : World) :
  isSyncing w = true -> syncPendingTransactions w = (Ok zeroResult, w).
Proof.
  intros B. unfold syncPendingTransactions. now rewrite B.
Qed.

Lemma syncPendingTransactions_releases (w : World) :
  isSyncing w = false -> isSyncing (snd (syncPendingTransactions w)) = false.
Proof.
  intros B. unfold syncPendingTransactions, tryFinally. rewrite B.
  match goal with
  | |- context [let (r, w') := ?m in _] => destruct m
  end.
  reflexivity.
Qed.

Lemma syncPendingTransactions_frame (w : World) :
  let w' := snd (syncPendingTransactions w) in
  syncCallback w' = syncCallback w /\ host w' = host w /\
  deviceIdItem w' = deviceIdItem w /\
  cachedRecipients (db w') = cachedRecipients (db w).
Proof.
  unfold syncPendingTransactions.
  destruct (isSyncing w); [repeat split |].
  drain ltac:(fun txs c W => pose proof (syncLoop_frame txs c W));
    repeat split; intuition congruence.
Qed.

Lemma syncPendingTransactions_descends (w : World) :
  descends (pendingTransactions (db w))
    (pendingTransactions (db (snd (syncPendingTransactions w)))).
Proof.
  unfold syncPendingTransactions.
  destruct (isSyncing w); [apply descends_refl |].
  drain ltac:(fun txs c W => pose proof (syncLoop_descends txs c W));
    try apply descends_refl; assumption.
Qed.

Lemma syncPendingTransactions_wf (w : World) :
  ObjectStore.wf id (pendingTransactions (db w)) ->
  ObjectStore.wf id (pendingTransactions (db (snd (syncPendingTransactions w)))).
Proof.
  unfold syncPendingTransactions. intros Wf.
  destruct (isSyncing w); [assumption |].
  drain ltac:(fun txs c W => pose proof (syncLoop_wf txs c W Wf));
    assumption.
Qed.

Lemma syncPendingTransactions_counts (w : World) res :
  isSyncing w = false ->
  fst (syncPendingTransactions w) = Ok res ->
  (synced res + failedCount res
   = List.length (listPending (pendingTransactions (db w))))%nat.
Proof.
  intros B. unfold syncPendingTransactions. rewrite B.
  drain ltac:(fun txs c W => pose proof (syncLoop_counts txs c W));
    intros E; try discriminate; injection E as <-.
  1: { apply Nat.eqb_eq in L. now rewrite L. }
  all: match goal with
       | H : forall c', Ok ?cl = Ok c' -> _ |- _ => now apply (H cl eq_refl)
       end.
Qed.

Lemma syncPendingTransactions_healthy (w : World) :
  healthy w -> quiet w -> exists res, fst (syncPendingTransactions w) = Ok res.
Proof.
  intros H Q. unfold syncPendingTransactions.
  destruct (isSyncing w) eqn:B; [simpl; eauto |].
  destruct (getPendingTransactions_run_healthy (withIsSyncing w true) H) as [n E].
  unfold tryFinally, bind. rewrite E. clear E.
  drain ltac:(fun txs c W => pose proof (syncLoop_healthy txs c W H));
    eauto;
    try match goal with
      | Cb : syncCallback w = Some ?cb, Call : ?cb _ _ _ = Some _ |- _ =>
          rewrite (Q cb Cb) in Call; discriminate
      end;
    try match goal with
      | H : exists c', Throw _ = Ok c' |- _ => destruct H; discriminate
      end.
Qed.

Lemma syncPendingTransactions_trace (w : World) :
  exists events,
    trace (snd (syncPendingTransactions w)) = (trace w ++ events)%list /\
    checkedBeforeSubmit events.
Proof.
  unfold syncPendingTransactions.
  destruct (isSyncing w).
  { exists []. simpl. rewrite app_nil_r. split; [reflexivity |].
    apply checkedBeforeSubmit_nil. }
  drain ltac:(fun txs c W => destruct (syncLoop_trace txs c W) as [events [T C]]);
    try rewrite T; rewrite <- ?app_assoc;
    eexists; (split; [reflexivity || (symmetry; apply app_nil_r) |]);
    repeat first [ apply checkedBeforeSubmit_nil
                 | apply checkedBeforeSubmit_notify
                 | assumption
                 | apply checkedBeforeSubmit_app ].
Qed.

Lemma In_listPending (store : list Tx) (t : Tx) :
  In t (listPending store) <-> In t store /\ status t = pending.
Proof.
  unfold listPending, ObjectStore.getAllFromIndex. rewrite filter_In.
  split; intros [I S]; (split; [assumption |]).
  - destruct (status t); [reflexivity | discriminate | discriminate].
  - now rewrite S.
Qed.

Lemma not_listed (store : list Tx) (k : string) :
  ObjectStore.wf id store ->
  (forall t, get k store = Some t -> status t <> pending) ->
  ~ In k (map id (listPending store)).
Proof.
  intros W N I. apply in_map_iff in I. destruct I as [t [E I]].
  apply In_listPending in I. destruct I as [I S].
  apply (N t); [| assumption].
  rewrite <- E. now apply ObjectStoreFacts.wf_In_get.
Qed.

(** A drain leaves alone every record that is not pending when it starts. *)
Lemma syncPendingTransactions_untouched (w : World) (k : string) :
  ObjectStore.wf id (pendingTransactions (db w)) ->
  (forall t, get k (pendingTransactions (db w)) = Some t -> status t <> pending) ->
  get k (pendingTransactions (db (snd (syncPendingTransactions w))))
  = get k (pendingTransactions (db w)).
Proof.
  intros W N. pose proof (not_listed _ _ W N) as NL.
  unfold syncPendingTransactions.
  destruct (isSyncing w); [reflexivity |].
  drain ltac:(fun txs c W => pose proof (syncLoop_other txs c W k NL));
    try reflexivity; assumption.
Qed.

(** *** The drain, turn by turn *)

Lemma syncLoop_nil c (w : World) : syncLoop [] c w = (Ok c, w).
Proof. reflexivity. Qed.

Lemma syncLoop_app pre post c (w : World) :
  syncLoop (pre ++ post) c w
  = match syncLoop pre c w with
    | (Ok c1, w1) => syncLoop post c1 w1
    | (Throw e, w1) => (Throw e, w1)
    end.
Proof.
  revert c w. induction pre as [| tx pre IH]; intros c w.
  - rewrite syncLoop_nil. reflexivity.
  - simpl app. rewrite !syncLoop_cons.
    destruct (syncOne tx c w) as [[c1 | e] w1]; [apply IH | reflexivity].
Qed.

(** Under a healthy platform the loop body is the turn of its record. *)
Lemma syncOne_turn tx c (w : World) v r1 calls :
  healthy w ->
  ledgerTurn (remote w) tx = (v, r1, calls) ->
  let result := syncOne tx c w in
  fst result = Ok (tally v c) /\
  remote (snd result) = r1 /\
  trace (snd result) = (trace w ++ calls)%list /\
  get (id tx) (pendingTransactions (db (snd result)))
  = leftQueued v tx (get (id tx) (pendingTransactions (db w))).
Proof.
  intros H. unfold ledgerTurn. cbn zeta.
  hpaths H; intros Hc;
    repeat match goal with
      | Eq : (_, _) = (_, _) |- _ => injection Eq as ? ?; subst
      end;
    try congruence; simpl;
    rewrite <- ?app_assoc;
    (split; [reflexivity |]); (split; [reflexivity |]); (split; [reflexivity |]);
    rewrite ?ObjectStoreFacts.get_delete_same, ?get_statusWritten_same;
    try reflexivity;
    destruct (get (id tx) (pendingTransactions (db w))); reflexivity.
Qed.

Lemma syncLoop_run txs c (w : World) c' r' calls :
  healthy w ->
  ledgerRun (remote w) txs c = (c', r', calls) ->
  let result := syncLoop txs c w in
  fst result = Ok c' /\ remote (snd result) = r' /\
  trace (snd result) = (trace w ++ calls)%list.
Proof.
  revert c w c' r' calls. induction txs as [| tx rest IH]; intros c w c' r' calls H.
  - intros E. cbn [ledgerRun] in E. injection E as <- <- <-.
    cbv zeta. rewrite syncLoop_nil. simpl. rewrite app_nil_r. repeat split.
  - cbn [ledgerRun].
    destruct (ledgerTurn (remote w) tx) as [[v r1] e1] eqn:T.
    destruct (ledgerRun r1 rest (tally v c)) as [[c2 r2] e2] eqn:Run.
    intros E. injection E as <- <- <-.
    destruct (syncOne_turn tx c w v r1 e1 H T) as [F1 [R1 [T1 _]]].
    destruct (syncOne_frame tx c w) as [_ [_ [Hh _]]].
    rewrite syncLoop_cons.
    destruct (syncOne tx c w) as [[c1 | e] w1]; simpl in *; [| discriminate].
    injection F1 as ->. subst r1.
    assert (healthy w1) as H1 by (intros n; rewrite Hh; apply H).
    destruct (IH _ w1 _ _ _ H1 Run) as [F2 [R2 T2]].
    split; [exact F2 |]. split; [exact R2 |].
    rewrite T2, T1. now rewrite app_assoc.
Qed.

Lemma ledgerRun_app (r : R) (pre post : list Tx) c :
  ledgerRun r (pre ++ post) c
  = let '(c1, r1, e1) := ledgerRun r pre c in
    let '(c2, r2, e2) := ledgerRun r1 post c1 in
    (c2, r2, (e1 ++ e2)%list).
Proof.
  revert r c. induction pre as [| tx pre IH]; intros r c.
  - simpl. now destruct (ledgerRun r post c) as [[c2 r2] e2].
  - simpl. destruct (ledgerTurn r tx) as [[v r1] e1].
    rewrite IH.
    destruct (ledgerRun r1 pre (tally v c)) as [[c1 r2] e2].
    destruct (ledgerRun r2 post c1) as [[c3 r3] e3].
    now rewrite app_assoc.
Qed.

Lemma verdictOf_at (r : R) (pre post : list Tx) (tx : Tx) c c1 r1 e1 :
  ~ In (id tx) (map id pre) ->
  ledgerRun r pre c = (c1, r1, e1) ->
  verdictOf r (pre ++ tx :: post) (id tx) = Some (fst (fst (ledgerTurn r1 tx))).
Proof.
  revert r c c1 r1 e1. induction pre as [| t pre IH]; intros r c c1 r1 e1 N E.
  - simpl in E. injection E as <- <- <-. simpl.
    destruct (ledgerTurn r tx) as [[v r2] ev]. now rewrite String.eqb_refl.
  - simpl in *.
    destruct (ledgerTurn r t) as [[v r2] ev].
    destruct (ledgerRun r2 pre (tally v c)) as [[c2 r3] e2] eqn:Run.
    injection E as <- <- <-.
    destruct (String.eqb_spec (id t) (id tx)) as [Eq | Ne]; [tauto |].
    eapply IH; [tauto | exact Run].
Qed.

(** The loop, seen from one of its records: the turns before it, its own
    turn, the turns after it. *)
Lemma syncLoop_at pre tx post c (w : World)
    c1 r1 e1 v r2 calls c3 r3 e3 :
  healthy w ->
  NoDup (map id (pre ++ tx :: post)) ->
  ledgerRun (remote w) pre c = (c1, r1, e1) ->
  ledgerTurn r1 tx = (v, r2, calls) ->
  ledgerRun r2 post (tally v c1) = (c3, r3, e3) ->
  let result := syncLoop (pre ++ tx :: post) c w in
  fst result = Ok c3 /\ remote (snd result) = r3 /\
  trace (snd result) = (trace w ++ e1 ++ calls ++ e3)%list /\
  get (id tx) (pendingTransactions (db (snd result)))
  = leftQueued v tx (get (id tx) (pendingTransactions (db w))).
Proof.
  intros H D Epre Eturn Epost result. subst result.
  assert (~ In (id tx) (map id pre) /\ ~ In (id tx) (map id post)) as [Npre Npost].
  { rewrite map_app in D. simpl in D. apply NoDup_remove_2 in D.
    rewrite in_app_iff in D. tauto. }
  rewrite syncLoop_app.
  destruct (syncLoop_run pre c w _ _ _ H Epre) as [F1 [R1 T1]].
  destruct (syncLoop_frame pre c w) as [_ [_ [Hh1 _]]].
  pose proof (syncLoop_other pre c w (id tx) Npre) as O1.
  destruct (syncLoop pre c w) as [[c1' | e] w1]; simpl in *; [| discriminate].
  injection F1 as ->. subst r1.
  assert (healthy w1) as H1 by (intros n; rewrite Hh1; apply H).
  rewrite syncLoop_cons.
  destruct (syncOne_turn tx c1 w1 v r2 calls H1 Eturn) as [F2 [R2 [T2 G2]]].
  destruct (syncOne_frame tx c1 w1) as [_ [_ [Hh2 _]]].
  destruct (syncOne tx c1 w1) as [[c2 | e] w2]; simpl in *; [| discriminate].
  injection F2 as ->. subst r2.
  assert (healthy w2) as H2 by (intros n; rewrite Hh2; apply H1).
  destruct (syncLoop_run post _ w2 _ _ _ H2 Epost) as [F3 [R3 T3]].
  pose proof (syncLoop_other post (tally v c1) w2 (id tx) Npost) as O3.
  split; [exact F3 |]. split; [exact R3 |]. split.
  - rewrite T3, T2, T1. now rewrite <- !app_assoc.
  - rewrite O3, G2, O1. reflexivity.
Qed.

(** The drain of a healthy platform with a quiet observer, seen from one
    of the records that are pending when it starts. *)
Lemma syncPendingTransactions_at (w : World) pre tx post
    c1 r1 e1 v r2 calls c3 r3 e3 :
  healthy w -> quiet w -> isSyncing w = false ->
  ObjectStore.wf id (pendingTransactions (db w)) ->
  listPending (pendingTransactions (db w)) = (pre ++ tx :: post)%list ->
  ledgerRun (remote w) pre zeroResult = (c1, r1, e1) ->
  ledgerTurn r1 tx = (v, r2, calls) ->
  ledgerRun r2 post (tally v c1) = (c3, r3, e3) ->
  let result := syncPendingTransactions w in
  fst result = Ok c3 /\ remote (snd result) = r3 /\
  (exists before after,
     trace (snd result) = (trace w ++ before ++ e1 ++ calls ++ e3 ++ after)%list /\
     Forall notification before /\ Forall notification after) /\
  get (id tx) (pendingTransactions (db (snd result)))
  = leftQueued v tx (get (id tx) (pendingTransactions (db w))).
Proof.
  intros H Q B W L Epre Eturn Epost result. subst result.
  assert (NoDup (map id (pre ++ tx :: post))) as ND.
  { rewrite <- L. apply ObjectStoreFacts.wf_NoDup.
    now apply ObjectStoreFacts.wf_filter. }
  unfold syncPendingTransactions. rewrite B.
  destruct (getPendingTransactions_run_healthy (withIsSyncing w true) H) as [n E].
  unfold tryFinally, bind. rewrite E. clear E. simpl. rewrite L.
  replace (List.length (pre ++ tx :: post) =? 0)%nat with false
    by (symmetry; apply Nat.eqb_neq; rewrite length_app; simpl; lia).
  unfold notify. simpl.
  repeat match goal with
    | |- context [syncLoop ?txs ?c ?W] =>
        let cl := fresh "cl" in
        let wl := fresh "wl" in
        let Fc := fresh "Fc" in
        destruct (syncLoop_at pre tx post c W _ _ _ _ _ _ _ _ _
                    H ND Epre Eturn Epost) as [Fl [Rl [Tl Gl]]];
        pose proof (proj1 (proj2 (syncLoop_frame txs c W))) as Fc;
        destruct (syncLoop txs c W) as [[cl | ?] wl]; simpl in *;
        rewrite ?Fc
    | Cb : syncCallback ?W = _ |- context [match syncCallback ?W with _ => _ end] =>
        rewrite Cb; simpl
    | |- context [match syncCallback ?W with _ => _ end] =>
        let Cb := fresh "Cb" in
        destruct (syncCallback W) eqn:Cb; simpl
    | |- context [match ?cb ?p ?m ?c with Some _ => _ | None => _ end] =>
        let Call := fresh "Call" in
        destruct (cb p m c) eqn:Call; simpl
    | |- context [(0 <? ?n)%nat] =>
        let Z := fresh "Z" in
        destruct (0 <? n)%nat eqn:Z; simpl
    end;
    try match goal with
      | Cb : syncCallback w = Some ?cb, Call : ?cb _ _ _ = Some _ |- _ =>
          rewrite (Q cb Cb) in Call; discriminate
      end;
    try discriminate Fl;
    (split; [exact Fl |]); (split; [exact Rl |]); (split; [| exact Gl]);
    rewrite Tl; rewrite <- ?app_assoc; simpl.
  all: first
    [ exists [], []; simpl; rewrite ?app_nil_r;
      split; [reflexivity | split; constructor]
    | eexists [_], []; simpl; rewrite ?app_nil_r;
      split; [reflexivity | split; repeat constructor]
    | eexists [], [_]; simpl;
      split; [reflexivity | split; repeat constructor]
    | eexists [], [_; _]; simpl;
      split; [reflexivity | split; repeat constructor]
    | eexists [_], [_]; simpl;
      split; [reflexivity | split; repeat constructor]
    | eexists [_], [_; _]; simpl;
      split; [reflexivity | split; repeat constructor] ].
Qed.

Lemma syncPendingTransactions_run (w : World) c r calls :
  healthy w -> quiet w -> isSyncing w = false ->
  ObjectStore.wf id (pendingTransactions (db w)) ->
  ledgerRun (remote w) (listPending (pendingTransactions (db w))) zeroResult
  = (c, r, calls) ->
  let result := syncPendingTransactions w in
  fst result = Ok c /\ remote (snd result) = r /\
  exists before after,
    trace (snd result) = (trace w ++ before ++ calls ++ after)%list /\
    Forall notification before /\ Forall notification after.
Proof.
  intros H Q B W E result. subst result.
  destruct (listPending (pendingTransactions (db w))) as [| tx post] eqn:L.
  - simpl in E. injection E as <- <- <-.
    unfold syncPendingTransactions. rewrite B.
    destruct (getPendingTransactions_run_healthy (withIsSyncing w true) H) as [n E].
    unfold tryFinally, bind. rewrite E. clear E. simpl. rewrite L. simpl.
    split; [reflexivity |]. split; [reflexivity |].
    exists [], []. simpl. rewrite app_nil_r. repeat split; constructor.
  - cbn [ledgerRun] in E.
    destruct (ledgerTurn (remote w) tx) as [[v r2] ev] eqn:T.
    destruct (ledgerRun r2 post (tally v zeroResult)) as [[c3 r3] e3] eqn:Run.
    injection E as <- <- <-.
    destruct (syncPendingTransactions_at w [] tx post _ _ _ _ _ _ _ _ _
                H Q B W L eq_refl T Run) as [F [Rm [[before [after [Tr N]]] _]]].
    split; [exact F |]. split; [exact Rm |].
    exists before, after. split; [| exact N].
    rewrite Tr. simpl. now rewrite <- app_assoc.
Qed.

Lemma verdictOf_absent (r : R) (txs : list Tx) (key : string) :
  ~ In key (map id txs) -> verdictOf r txs key = None.
Proof.
  revert r. induction txs as [| t txs IH]; intros r N; [reflexivity |].
  simpl in *. destruct (ledgerTurn r t) as [[v r1] ev].
  destruct (String.eqb_spec (id t) key) as [E | E]; [tauto |].
  apply IH. tauto.
Qed.

Lemma listed_split (store : list Tx) (tx : Tx) :
  ObjectStore.wf id store ->
  get (id tx) store = Some tx -> status tx = pending ->
  exists pre post,
    listPending store = (pre ++ tx :: post)%list /\
    ~ In (id tx) (map id pre).
Proof.
  intros W G S.
  assert (In tx (listPending store)) as I.
  { apply In_listPending. split; [| assumption].
    now apply ObjectStoreFacts.get_Some in G. }
  destruct (in_split _ _ I) as [pre [post L]].
  exists pre, post. split; [exact L |].
  assert (NoDup (map id (listPending store))) as ND.
  { apply ObjectStoreFacts.wf_NoDup. now apply ObjectStoreFacts.wf_filter. }
  rewrite L, map_app in ND. simpl in ND. apply NoDup_remove_2 in ND.
  rewrite in_app_iff in ND. tauto.
Qed.

(** A pending record has its turn in the drain, and a record that is not
    pending has none. *)
Lemma drainVerdict_listed (w : World) (tx : Tx) :
  ObjectStore.wf id (pendingTransactions (db w)) ->
  get (id tx) (pendingTransactions (db w)) = Some tx -> status tx = pending ->
  exists v, drainVerdict w (id tx) = Some v.
Proof.
  intros W G S. destruct (listed_split _ tx W G S) as [pre [post [L N]]].
  unfold drainVerdict. rewrite L.
  destruct (ledgerRun (remote w) pre zeroResult) as [[c1 r1] e1] eqn:Run.
  rewrite (verdictOf_at _ pre post tx _ _ _ _ N Run). eauto.
Qed.

Lemma drainVerdict_unlisted (w : World) (key : string) :
  ObjectStore.wf id (pendingTransactions (db w)) ->
  (forall t, get key (pendingTransactions (db w)) = Some t -> status t <> pending) ->
  drainVerdict w key = None.
Proof.
  intros W N. apply verdictOf_absent. now apply not_listed.
Qed.

(** What a drain leaves of a pending record is what the verdict of its
    turn says. *)
Lemma drain_settles (w : World) (tx : Tx) v :
  healthy w -> quiet w -> isSyncing w = false ->
  ObjectStore.wf id (pendingTransactions (db w)) ->
  get (id tx) (pendingTransactions (db w)) = Some tx -> status tx = pending ->
  drainVerdict w (id tx) = Some v ->
  get (id tx) (pendingTransactions (db (snd (syncPendingTransactions w))))
  = leftQueued v tx (Some tx).
Proof.
  intros H Q B W G S V.
  destruct (listed_split _ tx W G S) as [pre [post [L N]]].
  destruct (ledgerRun (remote w) pre zeroResult) as [[c1 r1] e1] eqn:Run.
  destruct (ledgerTurn r1 tx) as [[v' r2] calls] eqn:T.
  destruct (ledgerRun r2 post (tally v' c1)) as [[c3 r3] e3] eqn:Run'.
  unfold drainVerdict in V. rewrite L in V.
  rewrite (verdictOf_at _ pre post tx _ _ _ _ N Run), T in V.
  injection V as <-.
  destruct (syncPendingTransactions_at w pre tx post _ _ _ _ _ _ _ _ _
              H Q B W L Run T Run') as [_ [_ [_ Gl]]].
  rewrite Gl, G. reflexivity.
Qed.

(** When a turn is unsuccessful: the look-up rejects, or it finds nothing
    and the submission rejects or is answered with an error. *)
Lemma unsuccessful_turn (r : R) (tx : Tx) :
  fst (fst (ledgerTurn r tx)) = Unsuccessful <->
  match selectByHash r (hash tx) with
  | (Rejected _, _) => True
  | (Resolved found, r1) =>
      data found = None /\
      match fst (rpcProcessTransaction r1 (processArgs tx)) with
      | Rejected _ => True
      | Resolved answer => error answer <> None
      end
  end.
Proof.
  unfold ledgerTurn.
  destruct (selectByHash r (hash tx)) as [[found | reason] r1]; simpl;
    [| tauto].
  destruct (data found) as [row |]; simpl.
  - split; [discriminate | intros [D _]; discriminate].
  - destruct (rpcProcessTransaction r1 (processArgs tx)) as [[answer | reason] r2];
      simpl; [| tauto].
    destruct (error answer); simpl.
    + split; [intros _; split; [reflexivity | discriminate] | reflexivity].
    + split; [discriminate | intros [_ N]; congruence].
Qed.

Lemma turn_calls (r : R) (tx : Tx) :
  exists found rest,
    snd (ledgerTurn r tx) = EvSelectByHash (hash tx) found :: rest /\
    (rest = [] \/ (found = false /\ rest = [EvProcessTransaction (processArgs tx)])).
Proof.
  unfold ledgerTurn.
  destruct (selectByHash r (hash tx)) as [[found | reason] r1]; simpl;
    [| eauto].
  destruct (data found) as [row |]; simpl; [eauto |].
  destruct (rpcProcessTransaction r1 (processArgs tx)) as [[answer | reason] r2];
    simpl; [destruct (error answer) |]; simpl; eauto 6.
Qed.

Lemma duplicate_turn (r : R) (tx : Tx) found r1 :
  selectByHash r (hash tx) = (Resolved found, r1) -> data found <> None ->
  ledgerTurn r tx = (Duplicate, r1, [EvSelectByHash (hash tx) true]).
Proof.
  intros Sel D. unfold ledgerTurn. rewrite Sel.
  destruct (data found); [reflexivity | contradiction].
Qed.

(** *** The drain, as the event loop runs it *)

Notation Task := (Task Amount R).
Notation Amid := (Amid Amount R).
Notation Visit := (Visit Amount R).

Lemma perform_bindT {A B} (t : Task A) (k : A -> Task B) (s : Amid) :
  perform (bindT t k) s
  = match perform t s with
    | (Ok a, s1) => perform (k a) s1
    | (Throw e, s1) => (Throw e, s1)
    end.
Proof.
  revert s. induction t as [[a | e] | X step rest IH | X op rest IH]; intros s;
    simpl; try reflexivity.
  - destruct (step (world s)) as [o w']. apply IH.
  - destruct (op (world (meanwhile s))) as [o w']. apply IH.
Qed.

Lemma perform_tryCatchT {A} (t : Task A) (handler : Exn -> Task A) (s : Amid) :
  perform (tryCatchT t handler) s
  = match perform t s with
    | (Ok a, s1) => (Ok a, s1)
    | (Throw e, s1) => perform (handler e) s1
    end.
Proof.
  revert s. induction t as [[a | e] | X step rest IH | X op rest IH]; intros s;
    simpl; try reflexivity.
  - destruct (step (world s)) as [o w']. apply IH.
  - destruct (op (world (meanwhile s))) as [o w']. apply IH.
Qed.

Lemma perform_tryFinallyT {A} (t : Task A) (cleanup : World -> World) (s : Amid) :
  perform (tryFinallyT t cleanup) s
  = (fst (perform t s),
     withWorld (snd (perform t s)) (cleanup (world (snd (perform t s))))).
Proof.
  revert s. induction t as [o | X step rest IH | X op rest IH]; intros s;
    simpl; try reflexivity.
  - destruct (step (world s)) as [o w']. apply IH.
  - destruct (op (world (meanwhile s))) as [o w']. apply IH.
Qed.

(** *** A call that finds the flag set *)

Lemma enter_busy (w : World) :
  isSyncing w = true ->
  enter syncPendingTransactionsTask w = (Settled (Ok zeroResult), w).
Proof.
  intros B. unfold syncPendingTransactionsTask, reading. simpl. now rewrite B.
Qed.

Lemma perform_busy (s : Amid) :
  isSyncing (world s) = true ->
  perform syncPendingTransactionsTask s = (Ok zeroResult, s).
Proof.
  intros B. unfold syncPendingTransactionsTask, reading. simpl. rewrite B.
  now destruct s.
Qed.

(** *** The flag while the call in progress is outside *)

Lemma passed_refl (s : Amid) : passed [] s s.
Proof. split; [reflexivity | unfold callsAmong; simpl; lia]. Qed.

Lemma passed_trans u1 u2 (s1 s2 s3 : Amid) :
  passed u1 s1 s2 -> passed u2 s2 s3 -> passed (u1 ++ u2) s1 s3.
Proof.
  intros [A1 L1] [A2 L2]. split.
  - now rewrite A1, A2, app_assoc.
  - rewrite L2, L1, List.concat_app. unfold callsAmong. rewrite filter_app, length_app. lia.
Qed.

Lemma visits_orderly (visits : list Visit) (s : Amid) :
  orderly s -> Forall foreign visits ->
  let s' := fold_left visit visits s in
  orderly s' /\ ahead s' = ahead s /\
  List.length (arrivals s') = (List.length (arrivals s) + callsAmong visits)%nat /\
  (forallb isCall visits = true -> world s' = world s).
Proof.
  revert s. induction visits as [| v rest IH]; intros s O F; simpl.
  - repeat split; try apply O; unfold callsAmong; simpl; lia.
  - inversion F as [| ? ? Fv Frest]; subst.
    destruct O as [B [Fa Ta]].
    assert (orderly (visit s v) /\ ahead (visit s v) = ahead s /\
            List.length (arrivals (visit s v))
            = (List.length (arrivals s) + (if isCall v then 1 else 0))%nat /\
            (isCall v = true -> world (visit s v) = world s)) as [O1 [A1 [L1 W1]]].
    { destruct v as [| act].
      - unfold visit. rewrite (enter_busy (world s) B). simpl.
        repeat split; try assumption; try reflexivity.
        + apply Forall_app. split; [assumption |].
          constructor; [| constructor]. now repeat split.
        + rewrite length_app. reflexivity.
      - simpl. repeat split; try assumption; try lia; try discriminate.
        simpl in Fv |- *. now rewrite Fv. }
    destruct (IH (visit s v) O1 Frest) as [O2 [A2 [L2 W2]]].
    cbv zeta in *. repeat split; try apply O2.
    + congruence.
    + rewrite L2, L1. unfold callsAmong. simpl. destruct (isCall v); simpl; lia.
    + intros C. apply andb_true_iff in C. destruct C as [Cv Cr].
      rewrite W2 by assumption. now apply W1.
Qed.

Lemma meanwhile_orderly (s : Amid) :
  orderly s ->
  orderly (meanwhile s) /\
  (exists used, passed used s (meanwhile s) /\ (ahead s <> [] -> used <> [])) /\
  (forallb (forallb isCall) (ahead s) = true -> world (meanwhile s) = world s).
Proof.
  intros O. unfold meanwhile. destruct (ahead s) as [| visits later] eqn:E.
  - split; [assumption |]. split; [| reflexivity].
    exists []. split; [| congruence]. split; [now rewrite E | unfold callsAmong; simpl; lia].
  - destruct O as [B [Fa Ta]]. rewrite E in Fa.
    inversion Fa as [| ? ? Fv Fl]; subst.
    destruct (visits_orderly visits
                {| world := world s; ahead := later; arrivals := arrivals s |})
      as [O1 [A1 [L1 W1]]]; [now repeat split | assumption |].
    cbv zeta in *. simpl in *.
    split; [assumption |]. split.
    + exists [visits]. split; [| discriminate]. split.
      * rewrite E, A1. reflexivity.
      * simpl. rewrite app_nil_r. exact L1.
    + intros C. apply andb_true_iff in C. now apply W1.
Qed.

Lemma passed_calls used (s s' : Amid) :
  passed used s s' ->
  forallb (forallb isCall) (ahead s) = true ->
  forallb (forallb isCall) (ahead s') = true.
Proof.
  intros [A _] C. rewrite A, forallb_app in C.
  now apply andb_true_iff in C.
Qed.

Lemma holding_settle {A} (a : A) : holding (settle a) (ret a).
Proof.
  intros s O. simpl. split; [assumption |].
  split; [exists []; apply passed_refl | auto].
Qed.

Lemma holding_raise {A} (e : Exn) : holding (@raise _ _ A e) (throw e).
Proof.
  intros s O. simpl. split; [assumption |].
  split; [exists []; apply passed_refl | auto].
Qed.

Lemma holding_outside {A} (m : M Amount R A) :
  (forall w, isSyncing (snd (m w)) = isSyncing w) ->
  holding (Outside m Settled) m.
Proof.
  intros K s O. simpl.
  destruct (meanwhile_orderly s O) as [[B [Fa Ta]] [[used [P _]] W]].
  specialize (K (world (meanwhile s))).
  destruct (m (world (meanwhile s))) as [o w'] eqn:E. simpl in *.
  split; [split; [simpl; congruence | split; assumption] |].
  split; [exists used; exact P |].
  intros C. rewrite <- (W C), E. auto.
Qed.

Lemma holding_bindT {A B} (t : Task A) (k : A -> Task B) m k' :
  holding t m -> (forall a, holding (k a) (k' a)) ->
  holding (bindT t k) (bind m k').
Proof.
  intros Ht Hk s O. rewrite perform_bindT. unfold bind.
  destruct (Ht s O) as [O1 [[u1 P1] E1]].
  destruct (perform t s) as [[a | e] s1] eqn:Et; simpl in *.
  - destruct (Hk a s1 O1) as [O2 [[u2 P2] E2]].
    split; [assumption |].
    split; [exists (u1 ++ u2)%list; eapply passed_trans; eassumption |].
    intros C. destruct (E1 C) as [F1 W1].
    destruct (m (world s)) as [o w1]; simpl in *; subst.
    apply E2. eapply passed_calls; eassumption.
  - split; [assumption |]. split; [exists u1; assumption |].
    intros C. destruct (E1 C) as [F1 W1].
    destruct (m (world s)) as [o w1]; simpl in *; subst. auto.
Qed.

Lemma holding_tryCatchT {A} (t : Task A) (h : Exn -> Task A) m h' :
  holding t m -> (forall e, holding (h e) (h' e)) ->
  holding (tryCatchT t h) (tryCatch m h').
Proof.
  intros Ht Hh s O. rewrite perform_tryCatchT. unfold tryCatch.
  destruct (Ht s O) as [O1 [[u1 P1] E1]].
  destruct (perform t s) as [[a | e] s1] eqn:Et; simpl in *.
  - split; [assumption |]. split; [exists u1; assumption |].
    intros C. destruct (E1 C) as [F1 W1].
    destruct (m (world s)) as [o w1]; simpl in *; subst. auto.
  - destruct (Hh e s1 O1) as [O2 [[u2 P2] E2]].
    split; [assumption |].
    split; [exists (u1 ++ u2)%list; eapply passed_trans; eassumption |].
    intros C. destruct (E1 C) as [F1 W1].
    destruct (m (world s)) as [o w1]; simpl in *; subst.
    apply E2. eapply passed_calls; eassumption.
Qed.

(** The requests of the drain do not write the flag. *)
Lemma stored_isSyncing {A} (w : World) (a : A) d result :
  stored w a d result -> isSyncing (snd result) = isSyncing w.
Proof. intros [n | n]; simpl; now destruct w. Qed.

Lemma notify_isSyncing phase message count (w : World) :
  isSyncing (snd (notify phase message count w)) = isSyncing w.
Proof.
  unfold notify. destruct (syncCallback w) as [cb |]; [| reflexivity].
  destruct (cb phase message count); reflexivity.
Qed.

Lemma awaitSelectByHash_isSyncing h (w : World) :
  isSyncing (snd (awaitSelectByHash h w)) = isSyncing w.
Proof.
  unfold awaitSelectByHash. destruct (selectByHash (remote w) h) as [[? | ?] ?];
    reflexivity.
Qed.

Lemma awaitProcessTransaction_isSyncing args (w : World) :
  isSyncing (snd (awaitProcessTransaction args w)) = isSyncing w.
Proof.
  unfold awaitProcessTransaction.
  destruct (rpcProcessTransaction (remote w) args) as [[? | ?] ?]; reflexivity.
Qed.

Lemma holding_syncOneTask tx c : holding (syncOneTask tx c) (syncOne tx c).
Proof.
  unfold syncOneTask, syncOne, await.
  apply holding_tryCatchT.
  - apply holding_bindT.
    + apply holding_outside. intros w.
      exact (stored_isSyncing _ _ _ _ (updateTransactionStatus_stored _ _ _ w)).
    + intros _. apply holding_bindT.
      * apply holding_outside, awaitSelectByHash_isSyncing.
      * intros existing. destruct (data existing).
        -- apply holding_bindT; [| intros; apply holding_settle].
           apply holding_outside. intros w.
           exact (stored_isSyncing _ _ _ _ (deleteTransaction_stored _ w)).
        -- apply holding_bindT.
           ++ apply holding_outside, awaitProcessTransaction_isSyncing.
           ++ intros answer. destruct (error answer).
              ** apply holding_raise.
              ** apply holding_bindT; [| intros; apply holding_settle].
                 apply holding_outside. intros w.
                 exact (stored_isSyncing _ _ _ _ (deleteTransaction_stored _ w)).
  - intros _. apply holding_bindT; [| intros; apply holding_settle].
    apply holding_outside. intros w.
    exact (stored_isSyncing _ _ _ _ (updateTransactionStatus_stored _ _ _ w)).
Qed.

Lemma holding_syncLoopTask txs c : holding (syncLoopTask txs c) (syncLoop txs c).
Proof.
  revert c. induction txs as [| tx rest IH]; intros c.
  - apply holding_settle.
  - apply (holding_bindT (syncOneTask tx c) _ (syncOne tx c) (syncLoop rest));
      [apply holding_syncOneTask | exact IH].
Qed.

Lemma bind_run {A B} (m : M Amount R A) (k : A -> M Amount R B) (w : World) :
  bind m k w
  = match m w with
    | (Ok a, w') => k a w'
    | (Throw e, w') => (Throw e, w')
    end.
Proof. reflexivity. Qed.

(** What follows the fetch of a list that is not empty. *)
Lemma holding_report (txs : list Tx) :
  holding
    (bindT
      (observed
         (notify PhSyncing
            ("Syncing " ++ countText (List.length txs) ++ " transactions...")
            (List.length txs)))
      (fun _ =>
         bindT (syncLoopTask txs zeroResult)
           (fun c =>
              bindT
                (if (0 <? synced c)%nat then
                   observed
                     (notify PhSuccess
                        (countText (synced c) ++ " transaction"
                           ++ plural (synced c) ++ " synced!")
                        (synced c))
                 else settle tt)
                (fun _ =>
                   bindT
                     (if (0 <? failedCount c)%nat then
                        observed
                          (notify PhError
                             (countText (failedCount c) ++ " transaction"
                                ++ plural (failedCount c) ++ " failed to sync")
                             (failedCount c))
                      else settle tt)
                     (fun _ => settle c)))))
    (bind
      (notify PhSyncing
         ("Syncing " ++ countText (List.length txs) ++ " transactions...")
         (List.length txs))
      (fun _ =>
         bind (syncLoop txs zeroResult)
           (fun c =>
              bind
                (if (0 <? synced c)%nat then
                   notify PhSuccess
                     (countText (synced c) ++ " transaction"
                        ++ plural (synced c) ++ " synced!")
                     (synced c)
                 else ret tt)
                (fun _ =>
                   bind
                     (if (0 <? failedCount c)%nat then
                        notify PhError
                          (countText (failedCount c) ++ " transaction"
                             ++ plural (failedCount c) ++ " failed to sync")
                          (failedCount c)
                      else ret tt)
                     (fun _ => ret c))))).
Proof.
  apply holding_bindT; [apply holding_outside, notify_isSyncing |].
  intros _. apply holding_bindT; [apply holding_syncLoopTask |].
  intros c. apply holding_bindT.
  - destruct (0 <? synced c)%nat;
      [apply holding_outside, notify_isSyncing | apply holding_settle].
  - intros _. apply holding_bindT; [| intros _; apply holding_settle].
    destruct (0 <? failedCount c)%nat;
      [apply holding_outside, notify_isSyncing | apply holding_settle].
Qed.

(** A drain that passes the guard holds the flag wherever it is outside:
    every call that arrives meanwhile is turned away. *)
Lemma syncPendingTransactionsTask_holds (w : World) visits :
  isSyncing w = false -> Forall (Forall foreign) visits ->
  let result := perform syncPendingTransactionsTask (opening w visits) in
  Forall turnedAway (arrivals (snd result)) /\
  (exists used,
     visits = (used ++ ahead (snd result))%list /\
     (visits <> [] -> used <> []) /\
     List.length (arrivals (snd result)) = callsAmong (List.concat used)) /\
  isSyncing (world (snd result)) = false /\
  (forallb (forallb isCall) visits = true ->
     fst result = fst (syncPendingTransactions w) /\
     world (snd result) = snd (syncPendingTransactions w)).
Proof.
  intros B F.
  unfold syncPendingTransactionsTask.
  unfold reading, writing. cbn [bindT perform world opening withWorld fst snd].
  rewrite B. cbn [bindT perform world opening withWorld fst snd].
  set (s1 := withWorld (withWorld (opening w visits) w) (withIsSyncing w true)).
  assert (orderly s1) as O1 by (repeat split; [exact F | constructor]).
  rewrite perform_tryFinallyT, perform_bindT. unfold await.
  cbn [perform].
  destruct (meanwhile_orderly s1 O1) as [[B2 [F2 T2]] [[u1 [P1 N1]] W1]].
  pose proof (getPendingTransactions_stored (world (meanwhile s1))) as St.
  apply stored_isSyncing in St. simpl in W1.
  destruct (getPendingTransactions (world (meanwhile s1))) as [[txs | e] w2] eqn:E;
    simpl in St.
  - destruct (List.length txs =? 0)%nat eqn:L.
    + cbn [perform fst snd world arrivals ahead withWorld].
      split; [assumption |]. split.
      * exists u1. destruct P1 as [A1 L1]. simpl in A1, L1. auto.
      * split; [reflexivity |]. intros C.
        unfold syncPendingTransactions, tryFinally. rewrite B, bind_run.
        rewrite <- (W1 C), E, L. auto.
    + assert (orderly (withWorld (meanwhile s1) w2)) as O2
          by (split; [simpl; congruence | split; assumption]).
      destruct (holding_report txs _ O2) as [[B3 [F3 T3]] [[u2 P2] E2]].
      match goal with
      | |- context [perform ?t (withWorld (meanwhile s1) w2)] =>
          set (run := perform t (withWorld (meanwhile s1) w2)) in *
      end.
      cbn [fst snd world arrivals ahead withWorld].
      split; [assumption |]. split.
      * exists (u1 ++ u2)%list.
        destruct (passed_trans u1 u2 s1 (withWorld (meanwhile s1) w2) (snd run))
          as [A L']; [exact P1 | exact P2 |].
        simpl in A, L'. split; [exact A |]. split; [| exact L'].
        intros N. specialize (N1 N). destruct u1; [contradiction | discriminate].
      * split; [reflexivity |]. intros C.
        assert (forallb (forallb isCall) (ahead (withWorld (meanwhile s1) w2)) = true)
          as C2 by (eapply passed_calls; [exact P1 | exact C]).
        destruct (E2 C2) as [Ef Ew].
        cbn [world withWorld] in Ef, Ew.
        unfold syncPendingTransactions, tryFinally. rewrite B, bind_run.
        rewrite <- (W1 C), E, L, Ef, Ew.
        match goal with
        | |- context [bind ?m ?k w2] => destruct (bind m k w2)
        end; auto.
  - cbn [fst snd world arrivals ahead withWorld].
    split; [assumption |]. split.
    + exists u1. destruct P1 as [A1 L1]. simpl in A1, L1. auto.
    + split; [reflexivity |]. intros C.
      unfold syncPendingTransactions, tryFinally. rewrite B, bind_run.
      rewrite <- (W1 C), E. auto.
Qed.

(** *** The statements about the drain *)

(** C1. In a drain, every call of the process-transfer operation directly
    follows the duplicate look-up of the same hash, which found nothing,
    whatever fails. Under a healthy platform and a quiet observer, a drain
    that passes the guard gives every record that was pending when it
    started its turn, in the order of the list: with the ledger in the
    state the turns before have left it in, it makes the calls of that
    turn between the calls of the turns before and those of the turns
    after, and these begin with the look-up of the record's hash, which a
    submission follows only when the look-up has found nothing. A turn
    whose look-up finds the hash makes no other call; the record is
    removed from the queue, one is added to the success counter, and the
    drain goes on with the turns of the records after it, whose counts it
    returns. Of the loop body alone: it makes the look-up first under a
    healthy platform, and for a hash the ledger reports as existing it
    makes at most the look-up, whatever fails. *)
Theorem duplicate_check_precedes_submission :
  (forall w : World,
     exists events,
       trace (snd (syncPendingTransactions w)) = (trace w ++ events)%list /\
       forall before args after,
         events = (before ++ EvProcessTransaction args :: after)%list ->
         exists before',
           before
           = (before' ++ [EvSelectByHash (_transaction_hash args) false])%list) /\
  (forall (w : World) pre tx post c1 r1 e1 v r2 calls c3 r3 e3,
     healthy w -> quiet w -> isSyncing w = false ->
     ObjectStore.wf id (pendingTransactions (db w)) ->
     listPending (pendingTransactions (db w)) = (pre ++ tx :: post)%list ->
     ledgerRun (remote w) pre zeroResult = (c1, r1, e1) ->
     ledgerTurn r1 tx = (v, r2, calls) ->
     ledgerRun r2 post (tally v c1) = (c3, r3, e3) ->
     let result := syncPendingTransactions w in
     fst result = Ok c3 /\ remote (snd result) = r3 /\
     (exists before after,
        trace (snd result)
        = (trace w ++ before ++ e1 ++ calls ++ e3 ++ after)%list /\
        Forall notification before /\ Forall notification after) /\
     get (id tx) (pendingTransactions (db (snd result)))
     = leftQueued v tx (Some tx)) /\
  (forall (r : R) (tx : Tx),
     exists found rest,
       snd (ledgerTurn r tx) = EvSelectByHash (hash tx) found :: rest /\
       (rest = [] \/
        (found = false /\ rest = [EvProcessTransaction (processArgs tx)]))) /\
  (forall (r : R) (tx : Tx) found r1,
     selectByHash r (hash tx) = (Resolved found, r1) ->
     data found <> None ->
     ledgerTurn r tx = (Duplicate, r1, [EvSelectByHash (hash tx) true]) /\
     (forall c, tally Duplicate c = incSynced c) /\
     (forall was, leftQueued Duplicate tx was = None)) /\
  (forall (tx : Tx) c (w : World),
     healthy w ->
     exists found rest,
       trace (snd (syncOne tx c w))
       = (trace w ++ EvSelectByHash (hash tx) found :: rest)%list /\
       (rest = [] \/
        (found = false /\ rest = [EvProcessTransaction (processArgs tx)]))) /\
  (forall (tx : Tx) c (w : World) resp r1,
     selectByHash (remote w) (hash tx) = (Resolved resp, r1) ->
     data resp <> None ->
     let result := syncOne tx c w in
     (trace (snd result) = trace w
      \/ trace (snd result) = (trace w ++ [EvSelectByHash (hash tx) true])%list) /\
     (healthy w ->
        fst result = Ok (incSynced c) /\
        trace (snd result) = (trace w ++ [EvSelectByHash (hash tx) true])%list /\
        get (id tx) (pendingTransactions (db (snd result))) = None)).
Proof.
  split; [| split; [| split; [| split; [| split]]]].
  - intros w. destruct (syncPendingTransactions_trace w) as [events [T C]].
    exists events. split; [exact T | exact C].
  - intros w pre tx post c1 r1 e1 v r2 calls c3 r3 e3 H Q B W L Epre Eturn Epost.
    destruct (syncPendingTransactions_at w pre tx post _ _ _ _ _ _ _ _ _
                H Q B W L Epre Eturn Epost) as [F [Rm [Tr G]]].
    cbv zeta. split; [exact F |]. split; [exact Rm |]. split; [exact Tr |].
    rewrite G. f_equal.
    assert (In tx (listPending (pendingTransactions (db w)))) as I
        by (rewrite L; apply in_elt).
    apply In_listPending in I. destruct I as [I _].
    now apply ObjectStoreFacts.wf_In_get.
  - intros r tx. apply turn_calls.
  - intros r tx found r1 Sel D.
    split; [exact (duplicate_turn r tx found r1 Sel D) | split; reflexivity].
  - intros tx c w. apply syncOne_asks_first.
  - intros tx c w resp r1. apply syncOne_duplicate.
Qed.

(** C3. A call that finds the flag set returns the zero result at once
    and leaves the world as it is: no record read or written, no observer
    notified; as the event loop runs it, it settles in its first
    statements, without awaiting anything. A call that finds the flag
    clear sets it before it first gives control away, at the fetch of the
    pending records. While such a drain is in progress, that is, each
    time it has given control away, at an await or to the observer, the
    flag is set, whatever calls of the drain and whatever code that does
    not write the flag have run meanwhile: every call of the drain that
    arrives meanwhile meets the flag set, returns the zero result at once
    and leaves the world as it met it; each call among the visits that
    have run has so arrived, and those of the first time have run. When
    the pass ends the flag is clear, whether the call returns or throws;
    and when only calls of the drain have arrived meanwhile, the pass
    returns and leaves what it does when nothing arrives. *)
Theorem syncPendingTransactions_guard (w : World) :
  (isSyncing w = true -> syncPendingTransactions w = (Ok zeroResult, w)) /\
  (isSyncing w = false ->
     isSyncing (snd (syncPendingTransactions w)) = false /\
     forall e, fst (syncPendingTransactions w) = Throw e ->
       isSyncing (snd (syncPendingTransactions w)) = false) /\
  (isSyncing w = true ->
     enter syncPendingTransactionsTask w = (Settled (Ok zeroResult), w) /\
     forall visits,
       perform syncPendingTransactionsTask (opening w visits)
       = (Ok zeroResult, opening w visits)) /\
  (isSyncing w = false ->
     exists rest,
       enter syncPendingTransactionsTask w
       = (Outside getPendingTransactions rest, withIsSyncing w true)) /\
  (forall visits : list (list Visit),
     isSyncing w = false -> Forall (Forall foreign) visits ->
     let result := perform syncPendingTransactionsTask (opening w visits) in
     Forall turnedAway (arrivals (snd result)) /\
     (exists used,
        visits = (used ++ ahead (snd result))%list /\
        (visits <> [] -> used <> []) /\
        List.length (arrivals (snd result)) = callsAmong (List.concat used)) /\
     isSyncing (world (snd result)) = false /\
     (forall e, fst result = Throw e -> isSyncing (world (snd result)) = false) /\
     (forallb (forallb isCall) visits = true ->
        fst result = fst (syncPendingTransactions w) /\
        world (snd result) = snd (syncPendingTransactions w))).
Proof.
  split; [| split; [| split; [| split]]].
  - apply syncPendingTransactions_busy.
  - intros B. pose proof (syncPendingTransactions_releases w B). auto.
  - intros B. split; [now apply enter_busy |].
    intros visits. now apply perform_busy.
  - intros B. unfold syncPendingTransactionsTask, reading, writing, await.
    cbn [bindT enter]. rewrite B. cbn [bindT tryFinallyT enter].
    eexists. reflexivity.
  - intros visits B F.
    destruct (syncPendingTransactionsTask_holds w visits B F) as [T [U [Fl Eq]]].
    cbv zeta. split; [exact T |]. split; [exact U |]. split; [exact Fl |].
    split; [intros e _; exact Fl | exact Eq].
Qed.

(** C10. A drain that passes the guard and returns counts every record of
    the initial fetch of pending records once: the two counters (natural
    numbers) add up to the number of records fetched. Each turn of the
    loop that completes adds one to exactly one counter. Under a healthy
    platform and a quiet observer the drain returns. *)
Theorem syncPendingTransactions_accounts (w : World) :
  isSyncing w = false ->
  (forall res, fst (syncPendingTransactions w) = Ok res ->
     (synced res + failedCount res
      = List.length (listPending (pendingTransactions (db w))))%nat) /\
  (forall (tx : Tx) c (w1 : World) c', fst (syncOne tx c w1) = Ok c' ->
     c' = incSynced c \/ c' = incFailed c) /\
  (healthy w -> quiet w -> exists res, fst (syncPendingTransactions w) = Ok res).
Proof.
  intros B. split; [| split].
  - intros res. now apply syncPendingTransactions_counts.
  - intros tx c w1 c'. apply syncOne_counts.
  - apply syncPendingTransactions_healthy.
Qed.

(** *** Retries across drains *)

Lemma drained_invariants (w : World) :
  healthy w -> quiet w -> isSyncing w = false ->
  ObjectStore.wf id (pendingTransactions (db w)) ->
  healthy (drained w) /\ quiet (drained w) /\ isSyncing (drained w) = false /\
  ObjectStore.wf id (pendingTransactions (db (drained w))).
Proof.
  intros H Q B W. unfold drained.
  destruct (syncPendingTransactions_frame w) as [Fc [Fh _]].
  repeat split.
  - intros n. rewrite Fh. apply H.
  - intros cb E. rewrite Fc in E. now apply Q.
  - now apply syncPendingTransactions_releases.
  - now apply syncPendingTransactions_wf.
Qed.

Lemma drained_failed_stays (n : nat) (w : World) (t : Tx) :
  ObjectStore.wf id (pendingTransactions (db w)) ->
  get (id t) (pendingTransactions (db w)) = Some t ->
  status t = failed ->
  get (id t) (pendingTransactions (db (Nat.iter n drained w))) = Some t /\
  ObjectStore.wf id (pendingTransactions (db (Nat.iter n drained w))).
Proof.
  intros W G S. induction n as [| n [IHg IHw]]; [now split |].
  simpl. unfold drained at 1 3. split.
  - rewrite syncPendingTransactions_untouched; [assumption | assumption |].
    intros t' G'. rewrite IHg in G'. injection G' as <-. congruence.
  - now apply syncPendingTransactions_wf.
Qed.

(** C2. Under a healthy platform and a quiet observer, the drain has with
    the ledger the turns of the records pending when it starts, and what
    it leaves of a pending record is what the verdict of the record's turn
    says. A turn is unsuccessful when its look-up rejects, or finds
    nothing and the submission rejects or is answered with an error; the
    verdict of the record's turn is that of the ledger in the state the
    turns of the records before it have left. A
    pending record whose turn is unsuccessful in a drain has its retry
    count raised by one, and is failed if the count it had was two or more
    and pending otherwise. Starting from no retries: after a first drain
    in which its turn is unsuccessful the record is pending with one retry
    and has a turn in the next drain; after a second it is pending with
    two retries, still in the list of pending records, and has a turn in
    the next drain; after a third it is failed with three retries, no
    longer in the list of pending records, and has no turn in any later
    drain, none of which changes it. *)
Theorem retry_threshold (w : World) (tx : Tx) :
  healthy w -> quiet w -> isSyncing w = false ->
  ObjectStore.wf id (pendingTransactions (db w)) ->
  get (id tx) (pendingTransactions (db w)) = Some tx ->
  status tx = pending ->
  let record := fun w' : World => get (id tx) (pendingTransactions (db w')) in
  let fails := fun w' : World => drainVerdict w' (id tx) = Some Unsuccessful in
  let tried := fun w' : World => exists v, drainVerdict w' (id tx) = Some v in
  (forall c r calls,
     ledgerRun (remote w) (listPending (pendingTransactions (db w))) zeroResult
     = (c, r, calls) ->
     fst (syncPendingTransactions w) = Ok c /\ remote (drained w) = r /\
     exists before after,
       trace (drained w) = (trace w ++ before ++ calls ++ after)%list /\
       Forall notification before /\ Forall notification after) /\
  (forall (r : R) (t : Tx),
     fst (fst (ledgerTurn r t)) = Unsuccessful <->
     match selectByHash r (hash t) with
     | (Rejected _, _) => True
     | (Resolved found, r1) =>
         data found = None /\
         match fst (rpcProcessTransaction r1 (processArgs t)) with
         | Rejected _ => True
         | Resolved answer => error answer <> None
         end
     end) /\
  (forall pre post c1 r1 e1,
     listPending (pendingTransactions (db w)) = (pre ++ tx :: post)%list ->
     ledgerRun (remote w) pre zeroResult = (c1, r1, e1) ->
     drainVerdict w (id tx) = Some (fst (fst (ledgerTurn r1 tx)))) /\
  tried w /\
  (forall v, drainVerdict w (id tx) = Some v ->
     record (drained w) = leftQueued v tx (Some tx)) /\
  (fails w ->
     record (drained w)
     = Some (updated (if (2 <=? retryCount tx)%nat then failed else pending)
               true tx)) /\
  (retryCount tx = 0%nat -> fails w ->
     let w1 := drained w in
     record w1 = Some (retried tx pending 1) /\
     In (retried tx pending 1) (listPending (pendingTransactions (db w1))) /\
     tried w1 /\
     (fails w1 ->
        let w2 := drained w1 in
        record w2 = Some (retried tx pending 2) /\
        In (retried tx pending 2) (listPending (pendingTransactions (db w2))) /\
        tried w2 /\
        (fails w2 ->
           let w3 := drained w2 in
           record w3 = Some (retried tx failed 3) /\
           (forall t, In t (listPending (pendingTransactions (db w3))) ->
              id t <> id tx) /\
           (forall n, drainVerdict (Nat.iter n drained w3) (id tx) = None) /\
           forall n, record (Nat.iter n drained w3) = Some (retried tx failed 3)))).
Proof.
  intros H Q B W G S record fails tried. subst record fails tried. cbn beta.
  assert (forall (w' : World) (t : Tx),
             get (id t) (pendingTransactions (db w')) = Some t ->
             status t = pending ->
             In t (listPending (pendingTransactions (db w')))) as Listed.
  { intros w' t Gt St. apply In_listPending. split; [| exact St].
    now apply ObjectStoreFacts.get_Some in Gt. }
  split; [| split; [| split; [| split; [| split; [| split]]]]].
  - intros c r calls E. now apply syncPendingTransactions_run.
  - intros r t. apply unsuccessful_turn.
  - intros pre post c1 r1 e1 L E. unfold drainVerdict. rewrite L.
    apply (verdictOf_at (remote w) pre post tx zeroResult c1 r1 e1); [| exact E].
    assert (NoDup (map id (listPending (pendingTransactions (db w))))) as ND
        by (apply ObjectStoreFacts.wf_NoDup; now apply ObjectStoreFacts.wf_filter).
    rewrite L, map_app in ND. simpl in ND.
    apply NoDup_remove_2 in ND. intros I. apply ND, in_or_app. now left.
  - now apply drainVerdict_listed.
  - intros v V. now apply drain_settles.
  - intros V. exact (drain_settles w tx _ H Q B W G S V).
  - intros Z V1. cbv zeta.
    pose proof (drain_settles w tx _ H Q B W G S V1) as G1.
    assert (leftQueued Unsuccessful tx (Some tx) = Some (retried tx pending 1)) as E1
        by (unfold leftQueued, updated, retried; simpl; now rewrite Z).
    rewrite E1 in G1. fold (drained w) in G1.
    destruct (drained_invariants w H Q B W) as [H1 [Q1 [B1 W1]]].
    split; [exact G1 |]. split; [now apply Listed |].
    split; [exact (drainVerdict_listed (drained w) (retried tx pending 1)
                     W1 G1 eq_refl) |].
    intros V2.
    pose proof (drain_settles (drained w) (retried tx pending 1) _
                  H1 Q1 B1 W1 G1 eq_refl V2) as G2.
    change (get (id tx) (pendingTransactions (db (drained (drained w))))
            = Some (retried tx pending 2)) in G2.
    destruct (drained_invariants (drained w) H1 Q1 B1 W1) as [H2 [Q2 [B2 W2]]].
    split; [exact G2 |]. split; [now apply Listed |].
    split; [exact (drainVerdict_listed (drained (drained w)) (retried tx pending 2)
                     W2 G2 eq_refl) |].
    intros V3.
    pose proof (drain_settles (drained (drained w)) (retried tx pending 2) _
                  H2 Q2 B2 W2 G2 eq_refl V3) as G3.
    change (get (id tx) (pendingTransactions (db (drained (drained (drained w)))))
            = Some (retried tx failed 3)) in G3.
    destruct (drained_invariants (drained (drained w)) H2 Q2 B2 W2)
      as [H3 [Q3 [B3 W3]]].
    split; [exact G3 |]. split; [| split].
    + intros t I E. apply In_listPending in I. destruct I as [I St].
      pose proof (ObjectStoreFacts.wf_In_get id _ _ W3 I) as Gt.
      rewrite E, G3 in Gt. injection Gt as <-. discriminate.
    + intros n.
      destruct (drained_failed_stays n _ (retried tx failed 3) W3 G3 eq_refl)
        as [Gn Wn].
      apply drainVerdict_unlisted; [exact Wn |].
      intros t Gt. change (id tx) with (id (retried tx failed 3)) in Gt.
      rewrite Gn in Gt. injection Gt as <-. discriminate.
    + intros n.
      exact (proj1 (drained_failed_stays n _ (retried tx failed 3) W3 G3 eq_refl)).
Qed.

(** *** More about the drain *)

Lemma callFor_mono (txs txs' : list Tx) (e : Event Amount) :
  (forall t, In t txs -> In t txs') -> callFor txs e -> callFor txs' e.
Proof.
  intros I. destruct e; simpl; try tauto; intros [t [It E]]; eauto.
Qed.

Lemma syncOne_calls tx c (w : World) :
  exists events,
    trace (snd (syncOne tx c w)) = (trace w ++ events)%list /\
    Forall (callFor [tx]) events.
Proof.
  destruct (syncOne_trace tx c w) as [events [T Rec]].
  exists events. split; [exact T |].
  destruct Rec as [-> | [[found ->] | ->]]; repeat constructor;
    simpl; exists tx; (split; [now left | reflexivity]).
Qed.

Lemma syncLoop_calls txs c (w : World) :
  exists events,
    trace (snd (syncLoop txs c w)) = (trace w ++ events)%list /\
    Forall (callFor txs) events.
Proof.
  revert c w. induction txs as [| tx rest IH]; intros c w.
  - exists []. rewrite syncLoop_nil. simpl. rewrite app_nil_r.
    split; [reflexivity | constructor].
  - rewrite syncLoop_cons.
    destruct (syncOne_calls tx c w) as [e1 [T1 C1]].
    assert (Forall (callFor (tx :: rest)) e1) as C1'.
    { eapply Forall_impl; [| exact C1]. intros e. apply callFor_mono.
      intros t [<- | []]. now left. }
    destruct (syncOne tx c w) as [[c1 | e] w1]; simpl in T1 |- *; [| now exists e1].
    destruct (IH c1 w1) as [e2 [T2 C2]].
    exists (e1 ++ e2)%list. split; [now rewrite T2, T1, app_assoc |].
    apply Forall_app. split; [assumption |].
    eapply Forall_impl; [| exact C2]. intros e. apply callFor_mono.
    intros t I. now right.
Qed.

Lemma callFor_drainEvent (w : World) (e : Event Amount) :
  callFor (listPending (pendingTransactions (db w))) e -> drainEvent w e.
Proof. destruct e; simpl; tauto. Qed.

Lemma syncPendingTransactions_events (w : World) :
  exists events,
    trace (snd (syncPendingTransactions w)) = (trace w ++ events)%list /\
    Forall (drainEvent w) events /\
    (isSyncing w = true -> events = []).
Proof.
  unfold syncPendingTransactions.
  destruct (isSyncing w) eqn:B.
  { exists []. simpl. rewrite app_nil_r. repeat split. constructor. }
  drain ltac:(fun txs c W =>
                destruct (syncLoop_calls txs c W) as [events [T C]];
                apply (Forall_impl _ (callFor_drainEvent w)) in C);
    try rewrite T; rewrite <- ?app_assoc;
    eexists; (split; [reflexivity || (symmetry; apply app_nil_r) |]);
    (split; [| discriminate]);
    repeat first [ apply Forall_nil
                 | assumption
                 | apply Forall_cons; [simpl; congruence |]
                 | apply Forall_app; split ].
Qed.

(** X14. Whatever the platform and the ledger do, the remote calls of a drain
    are made for records that were pending when it started: every
    submission carries the arguments of such a record, marked as an offline
    transfer, and every look-up asks for the hash of one. A drain with no
    observer registered notifies nobody, and a call made while a drain is
    in progress calls nothing. *)
Theorem drain_calls_are_for_pending_records (w : World) :
  let listed := listPending (pendingTransactions (db w)) in
  exists events,
    trace (snd (syncPendingTransactions w)) = (trace w ++ events)%list /\
    (forall args, In (EvProcessTransaction args) events ->
       _is_offline args = true /\
       exists tx, In tx listed /\ args = processArgs tx) /\
    (forall h found, In (EvSelectByHash h found) events ->
       exists tx, In tx listed /\ h = hash tx) /\
    (syncCallback w = None ->
       forall phase message count, ~ In (EvNotify phase message count) events) /\
    (isSyncing w = true -> events = []).
Proof.
  intros listed. destruct (syncPendingTransactions_events w) as [events [T [C B]]].
  exists events. split; [exact T |].
  rewrite Forall_forall in C.
  split; [| split; [| split; [| exact B]]].
  - intros args I. destruct (C _ I) as [tx [It ->]].
    split; [reflexivity | eauto].
  - intros h found I. exact (C _ I).
  - intros N phase message count I. exact (C _ I N).
Qed.

(** X15. A drain that finds no pending record, whatever else the queue holds,
    returns the zero result without a remote call or a notification, and
    changes nothing but to release the guard. *)
Theorem syncPendingTransactions_idle (w : World) :
  isSyncing w = false ->
  listPending (pendingTransactions (db w)) = [] ->
  let result := syncPendingTransactions w in
  (fst result = Ok zeroResult \/ fst result = Throw StorageUnavailable) /\
  (healthy w -> fst result = Ok zeroResult) /\
  db (snd result) = db w /\ trace (snd result) = trace w /\
  remote (snd result) = remote w /\ isSyncing (snd result) = false.
Proof.
  intros B E result. subst result.
  pose proof (getPendingTransactions_healthy (withIsSyncing w true)) as Hh.
  unfold syncPendingTransactions, tryFinally, bind. rewrite B.
  destruct (getPendingTransactions_stored (withIsSyncing w true)) as [n | n];
    simpl in *.
  - repeat split; auto. intros H. specialize (Hh H). discriminate.
  - rewrite E. simpl. repeat split; auto.
Qed.

(** X16. An observer that throws when told that a drain begins stops the
    drain there: the exception reaches the caller, no record has been
    marked and nothing has been asked of the ledger, and the guard is
    released. *)
Theorem throwing_observer_aborts_drain (w : World) callback reason :
  healthy w -> isSyncing w = false ->
  syncCallback w = Some callback ->
  (forall message count, callback PhSyncing message count = Some reason) ->
  listPending (pendingTransactions (db w)) <> [] ->
  let result := syncPendingTransactions w in
  fst result = Throw (CallbackFailure reason) /\
  db (snd result) = db w /\ remote (snd result) = remote w /\
  isSyncing (snd result) = false /\
  exists message count,
    trace (snd result) = (trace w ++ [EvNotify PhSyncing message count])%list.
Proof.
  intros H B Cb Th N result. subst result.
  unfold syncPendingTransactions. rewrite B.
  destruct (getPendingTransactions_run_healthy (withIsSyncing w true) H) as [n E].
  unfold tryFinally, bind. rewrite E. clear E. simpl.
  destruct (listPending (pendingTransactions (db w))) as [| t l] eqn:L;
    [contradiction |].
  simpl. unfold notify. simpl. rewrite Cb, Th. simpl.
  repeat split. eauto.
Qed.

Lemma delete_put_same {V} (keyOf : V -> string) (v : V) (s : list V) :
  ObjectStore.delete keyOf (keyOf v) (ObjectStore.put keyOf v s)
  = ObjectStore.delete keyOf (keyOf v) s.
Proof.
  unfold ObjectStore.delete.
  induction s as [| x s IH]; simpl.
  - now rewrite String.eqb_refl.
  - destruct (String_as_OT.compare (keyOf v) (keyOf x)) eqn:C; simpl.
    + rewrite String.eqb_refl. simpl.
      apply ObjectStoreFacts.compare_Eq in C. rewrite <- C.
      now rewrite String.eqb_refl.
    + now rewrite String.eqb_refl.
    + now rewrite IH.
Qed.

Lemma delete_statusWritten key st inc (s : list Tx) :
  ObjectStore.delete id key (statusWritten key st inc s) = ObjectStore.delete id key s.
Proof.
  unfold statusWritten. destruct (get key s) as [tx |] eqn:G; [| reflexivity].
  destruct (ObjectStoreFacts.get_Some id _ _ _ G) as [_ E].
  rewrite <- E.
  exact (delete_put_same id (updated st inc tx) s).
Qed.

(** What the loop body does for a ledger that accepts everything. *)
Lemma syncOne_accepted tx c (w : World) :
  healthy w -> alwaysAccepts ->
  fst (syncOne tx c w) = Ok (incSynced c) /\
  pendingTransactions (db (snd (syncOne tx c w)))
  = ObjectStore.delete id (id tx) (pendingTransactions (db w)).
Proof.
  intros H [Asel Arpc].
  pose proof (Asel (remote w) (hash tx)) as As. revert As.
  hpaths H; intros As; simpl in As; try contradiction;
    try match goal with
      | Rpc : rpcProcessTransaction ?r ?a = _ |- _ =>
          pose proof (Arpc r a) as Ar; rewrite Rpc in Ar; simpl in Ar;
          try contradiction; try congruence
      end;
    (split; [reflexivity | apply delete_statusWritten]).
Qed.

Lemma syncLoop_accepted txs c (w : World) :
  healthy w -> alwaysAccepts ->
  fst (syncLoop txs c w)
  = Ok {| synced := synced c + List.length txs; failedCount := failedCount c |} /\
  pendingTransactions (db (snd (syncLoop txs c w)))
  = deleteAll txs (pendingTransactions (db w)).
Proof.
  revert c w. induction txs as [| tx rest IH]; intros c w H A.
  - rewrite syncLoop_nil. simpl. rewrite Nat.add_0_r. destruct c. now split.
  - rewrite syncLoop_cons.
    destruct (syncOne_accepted tx c w H A) as [E1 S1].
    destruct (syncOne_frame tx c w) as [_ [_ [Hh _]]].
    destruct (syncOne tx c w) as [[c1 | e] w1]; simpl in *; [| discriminate].
    injection E1 as ->.
    assert (healthy w1) as H1 by (intros n; rewrite Hh; apply H).
    destruct (IH (incSynced c) w1 H1 A) as [E2 S2].
    rewrite E2, S2, S1. simpl. split; [| reflexivity].
    do 2 f_equal. lia.
Qed.

Lemma deleteAll_filter (txs store : list Tx) :
  deleteAll txs store
  = filter (fun x => negb (existsb (fun t => String.eqb (id t) (id x)) txs)) store.
Proof.
  unfold deleteAll. revert store.
  induction txs as [| tx rest IH]; intros store; simpl.
  - symmetry. now apply filter_all.
  - rewrite IH. unfold ObjectStore.delete. rewrite filter_filter.
    apply filter_ext. intros x.
    rewrite (String.eqb_sym (id tx) (id x)).
    now destruct (String.eqb (id x) (id tx)).
Qed.

Lemma deleteAll_listPending (store : list Tx) :
  ObjectStore.wf id store ->
  deleteAll (listPending store) store
  = filter (fun t => negb (Status_eqb (status t) pending)) store.
Proof.
  intros W. rewrite deleteAll_filter. apply filter_ext_in. intros x I. f_equal.
  destruct (Status_eqb (status x) pending) eqn:S.
  - apply existsb_exists. exists x. split; [| apply String.eqb_refl].
    apply In_listPending. split; [assumption |].
    destruct (status x); [reflexivity | discriminate | discriminate].
  - apply not_true_iff_false. intros E.
    apply existsb_exists in E. destruct E as [t [It Et]].
    apply String.eqb_eq in Et. apply In_listPending in It. destruct It as [It St].
    assert (t = x) by (eapply ObjectStoreFacts.wf_key_inj; eauto).
    subst. rewrite St in S. discriminate.
Qed.

Lemma listPending_none (store : list Tx) :
  listPending (filter (fun t => negb (Status_eqb (status t) pending)) store) = [].
Proof.
  unfold listPending, ObjectStore.getAllFromIndex. rewrite filter_filter.
  induction store as [| x store IH]; simpl; [reflexivity |].
  destruct (status x); simpl; exact IH.
Qed.

Lemma syncPendingTransactions_accepted (w : World) :
  healthy w -> quiet w -> isSyncing w = false ->
  ObjectStore.wf id (pendingTransactions (db w)) ->
  alwaysAccepts ->
  fst (syncPendingTransactions w)
  = Ok {| synced := List.length (listPending (pendingTransactions (db w)));
          failedCount := 0 |} /\
  pendingTransactions (db (snd (syncPendingTransactions w)))
  = filter (fun t => negb (Status_eqb (status t) pending))
      (pendingTransactions (db w)).
Proof.
  intros H Q B W A.
  pose proof (deleteAll_listPending _ W) as D.
  unfold syncPendingTransactions. rewrite B.
  destruct (getPendingTransactions_run_healthy (withIsSyncing w true) H) as [n E].
  unfold tryFinally, bind. rewrite E. clear E.
  drain ltac:(fun txs c W =>
                destruct (syncLoop_accepted txs c W H A) as [Ec Es];
                simpl in Ec, Es; rewrite D in Es);
    try match goal with
      | Cb : syncCallback w = Some ?cb, Call : ?cb _ _ _ = Some _ |- _ =>
          rewrite (Q cb Cb) in Call; discriminate
      end;
    try discriminate Ec;
    try (split; [exact Ec | exact Es]).
  all: apply Nat.eqb_eq in L; rewrite L.
  all: split; [reflexivity |].
  all: rewrite <- D; apply length_zero_iff_nil in L; now rewrite L.
Qed.

(** X17. Under a healthy platform and a quiet observer, a drain against a
    ledger that answers every look-up and accepts every submission counts
    every pending record as synced and none as failed, removes exactly the
    pending records from the queue, and leaves none pending. *)
Theorem drain_empties_queue (w : World) :
  healthy w -> quiet w -> isSyncing w = false ->
  ObjectStore.wf id (pendingTransactions (db w)) ->
  alwaysAccepts ->
  let store := pendingTransactions (db w) in
  let result := syncPendingTransactions w in
  let store' := pendingTransactions (db (snd result)) in
  fst result = Ok {| synced := List.length (listPending store); failedCount := 0 |} /\
  store' = filter (fun t => negb (Status_eqb (status t) pending)) store /\
  listPending store' = [].
Proof.
  intros H Q B W A store result store'. subst result store' store.
  destruct (syncPendingTransactions_accepted w H Q B W A) as [E1 E2].
  split; [exact E1 |]. split; [exact E2 |].
  rewrite E2. apply listPending_none.
Qed.

(** X18. The loop body does not look at the [error] of the duplicate look-up:
    under a healthy platform, a look-up that resolves without a row, with
    or without an error, is followed by the submission of the transfer. A
    look-up that rejects is followed by no submission: the record counts
    as failed and gets one more retry. *)
Theorem lookup_error_is_not_checked tx c (w : World) :
  healthy w ->
  let result := syncOne tx c w in
  (forall resp r1,
     selectByHash (remote w) (hash tx) = (Resolved resp, r1) ->
     data resp = None ->
     trace (snd result)
     = (trace w ++ [EvSelectByHash (hash tx) false;
                    EvProcessTransaction (processArgs tx)])%list) /\
  (forall reason r1,
     selectByHash (remote w) (hash tx) = (Rejected reason, r1) ->
     trace (snd result) = (trace w ++ [EvSelectByHash (hash tx) false])%list /\
     fst result = Ok (incFailed c) /\
     get (id tx) (pendingTransactions (db (snd result)))
     = option_map
         (updated (if (2 <=? retryCount tx)%nat then failed else pending) true)
         (get (id tx) (pendingTransactions (db w)))).
Proof.
  intros H result. subst result. split.
  - intros resp r1 Hsel Hdata. revert Hsel Hdata.
    hpaths H; intros Hsel Hdata;
      try (injection Hsel as <- <-); try discriminate Hsel;
      try congruence;
      rewrite <- ?app_assoc; reflexivity.
  - intros reason r1 Hsel. revert Hsel.
    hpaths H; intros Hsel; try discriminate Hsel.
    repeat split.
    rewrite !get_statusWritten_same.
    destruct (get (id tx) (pendingTransactions (db w))); reflexivity.
Qed.

(** X19. A record that is not pending when a drain starts, be it failed or
    left in the syncing state by a drain that did not finish, is neither
    listed nor changed by that drain or by any later one. *)
Theorem interrupted_record_is_never_retried (n : nat) (w : World) (t : Tx) :
  ObjectStore.wf id (pendingTransactions (db w)) ->
  get (id t) (pendingTransactions (db w)) = Some t ->
  status t <> pending ->
  let store' := pendingTransactions (db (Nat.iter n drained w)) in
  get (id t) store' = Some t /\
  ~ In (id t) (map id (listPending store')) /\
  ObjectStore.wf id store'.
Proof.
  intros W G S store'. subst store'.
  assert (get (id t) (pendingTransactions (db (Nat.iter n drained w))) = Some t /\
          ObjectStore.wf id (pendingTransactions (db (Nat.iter n drained w))))
    as [Gn Wn].
  { induction n as [| n [IHg IHw]]; [now split |].
    simpl. unfold drained at 1 3. split.
    - rewrite syncPendingTransactions_untouched; [assumption | assumption |].
      intros t' G'. rewrite IHg in G'. injection G' as <-. exact S.
    - now apply syncPendingTransactions_wf. }
  split; [exact Gn |]. split; [| exact Wn].
  apply not_listed; [exact Wn |].
  intros t' G'. rewrite Gn in G'. injection G' as <-. exact S.
Qed.

Lemma descends_length (s s' : list Tx) :
  ObjectStore.wf id s' -> descends s s' ->
  (List.length s' <= List.length s)%nat.
Proof.
  intros W' D.
  rewrite <- (length_map id s'), <- (length_map id s).
  apply NoDup_incl_length; [now apply ObjectStoreFacts.wf_NoDup |].
  intros k I. apply in_map_iff in I. destruct I as [b [E I]].
  pose proof (ObjectStoreFacts.wf_In_get id _ _ W' I) as G.
  destruct (D _ _ G) as [a [Ga _]].
  apply ObjectStoreFacts.get_Some in Ga. destruct Ga as [Ia Ea].
  apply in_map_iff. exists a. split; [congruence | assumption].
Qed.

(** X20. A drain adds no record to the queue and rewrites none: every record
    of the queue after it is a record the queue had, with the same
    identifier, parties, amount, timestamp, hash, device and description;
    the queue is no longer than it was and still has one record per
    identifier. The cache of recipients, the device identifier and the
    observer are as they were. *)
Theorem drain_adds_no_record (w : World) :
  ObjectStore.wf id (pendingTransactions (db w)) ->
  let store := pendingTransactions (db w) in
  let w' := snd (syncPendingTransactions w) in
  let store' := pendingTransactions (db w') in
  (forall b, In b store' -> exists a, In a store /\ sameTransfer a b) /\
  (List.length store' <= List.length store)%nat /\
  ObjectStore.wf id store' /\
  cachedRecipients (db w') = cachedRecipients (db w) /\
  deviceIdItem w' = deviceIdItem w /\
  syncCallback w' = syncCallback w.
Proof.
  intros W store w' store'. subst store w' store'.
  pose proof (syncPendingTransactions_descends w) as D.
  pose proof (syncPendingTransactions_wf w W) as W'.
  destruct (syncPendingTransactions_frame w) as [Fc [_ [Fd Fr]]].
  split; [| split; [now apply descends_length | auto]].
  intros b I.
  pose proof (ObjectStoreFacts.wf_In_get id _ _ W' I) as G.
  destruct (D _ _ G) as [a [Ga Sa]].
  exists a. split; [| assumption].
  now apply ObjectStoreFacts.get_Some in Ga.
Qed.

(** *** One attempt per record and drain *)

Lemma syncOne_attempt tx c (w : World) a b :
  get (id tx) (pendingTransactions (db w)) = Some a ->
  get (id tx) (pendingTransactions (db (snd (syncOne tx c w)))) = Some b ->
  attempted a b.
Proof.
  unfold attempted. intros Ga. paths;
    rewrite ?get_statusWritten_same, ?ObjectStoreFacts.get_delete_same, ?Ga;
    simpl; intros Gb; try discriminate Gb; injection Gb as <-; simpl; auto.
Qed.

Lemma syncLoop_attempt txs c (w : World) k a b :
  NoDup (map id txs) ->
  get k (pendingTransactions (db w)) = Some a ->
  get k (pendingTransactions (db (snd (syncLoop txs c w)))) = Some b ->
  attempted a b.
Proof.
  revert c w. induction txs as [| tx rest IH]; intros c w D Ga Gb.
  - rewrite syncLoop_nil in Gb. simpl in Gb. rewrite Ga in Gb.
    injection Gb as <-. now left.
  - rewrite syncLoop_cons in Gb. simpl in D. inversion D as [| ? ? Nin D']; subst.
    pose proof (syncOne_attempt tx c w) as A1.
    destruct (syncOne_touches tx c w) as [O _]. specialize (O k).
    destruct (String.eqb_spec k (id tx)) as [-> | Ne].
    + destruct (syncOne tx c w) as [[c1 | e] w1]; simpl in *.
      * rewrite syncLoop_other in Gb by assumption. eauto.
      * eauto.
    + specialize (O Ne).
      destruct (syncOne tx c w) as [[c1 | e] w1]; simpl in *.
      * apply (IH c1 w1); [assumption | now rewrite O | assumption].
      * rewrite O, Ga in Gb. injection Gb as <-. now left.
Qed.

(** X21. Whatever fails, a drain makes at most one attempt per record: the
    retry count of a record that is still queued after the drain is the
    one it had or one more, never less; and a record that was not pending
    is exactly as it was. *)
Theorem drain_attempts_each_record_once (w : World) k a b :
  ObjectStore.wf id (pendingTransactions (db w)) ->
  get k (pendingTransactions (db w)) = Some a ->
  get k (pendingTransactions (db (snd (syncPendingTransactions w)))) = Some b ->
  (retryCount b = retryCount a \/ retryCount b = S (retryCount a)) /\
  (status a <> pending -> b = a).
Proof.
  intros W Ga Gb. split.
  - assert (NoDup (map id (listPending (pendingTransactions (db w))))) as ND.
    { apply ObjectStoreFacts.wf_NoDup. now apply ObjectStoreFacts.wf_filter. }
    fold (attempted a b). revert Gb.
    unfold syncPendingTransactions.
    destruct (isSyncing w).
    { simpl. rewrite Ga. intros Gb. injection Gb as <-. now left. }
    drain ltac:(fun txs c W => pose proof (syncLoop_attempt txs c W k a b ND Ga));
      intros Gb; auto;
      rewrite Ga in Gb; injection Gb as <-; now left.
  - intros S.
    rewrite syncPendingTransactions_untouched in Gb; [congruence | assumption |].
    intros t Gt. rewrite Ga in Gt. injection Gt as <-. exact S.
Qed.

(** *** The success counter and the queue *)

Lemma length_delete (k : string) (s : list Tx) :
  ObjectStore.wf id s -> get k s <> None ->
  S (List.length (ObjectStore.delete id k s)) = List.length s.
Proof.
  unfold ObjectStore.get, ObjectStore.delete.
  induction s as [| x s IH]; intros W G; simpl in *; [congruence |].
  destruct (String.eqb_spec (id x) k) as [E | E]; simpl.
  - f_equal. f_equal. apply filter_all. intros y I.
    apply negb_true_iff. apply String.eqb_neq. rewrite <- E.
    apply not_eq_sym. apply ObjectStoreFacts.lt_neq.
    now apply (ObjectStoreFacts.wf_head id _ _ W).
  - f_equal. apply IH; [| assumption].
    eapply ObjectStoreFacts.wf_tail; eassumption.
Qed.

Lemma length_statusWritten key st inc (s : list Tx) :
  ObjectStore.wf id s ->
  List.length (statusWritten key st inc s) = List.length s.
Proof.
  intros W. rewrite statusWritten_map by assumption.
  unfold setStatusIn. apply length_map.
Qed.

(** Under a healthy platform the loop body either removes its record and
    counts it as synced, or keeps it and counts it as failed. *)
Lemma syncOne_removes_or_keeps tx c (w : World) :
  healthy w ->
  ObjectStore.wf id (pendingTransactions (db w)) ->
  get (id tx) (pendingTransactions (db w)) <> None ->
  let result := syncOne tx c w in
  let store := pendingTransactions (db w) in
  let store' := pendingTransactions (db (snd result)) in
  (fst result = Ok (incSynced c) /\ S (List.length store') = List.length store) \/
  (fst result = Ok (incFailed c) /\ List.length store' = List.length store).
Proof.
  intros H W G result store store'. subst result store store'.
  pose proof (length_delete (id tx) _ W G) as Ld.
  pose proof (wf_statusWritten (id tx) syncing false _ W) as W1.
  pose proof (length_statusWritten (id tx) syncing false _ W) as L1.
  hpaths H;
    first [ left; split; [reflexivity |];
            rewrite delete_statusWritten; exact Ld
          | right; split; [reflexivity |];
            rewrite length_statusWritten by assumption; exact L1 ].
Qed.

Lemma syncLoop_removed txs c (w : World) c' :
  healthy w ->
  ObjectStore.wf id (pendingTransactions (db w)) ->
  NoDup (map id txs) ->
  (forall tx, In tx txs -> get (id tx) (pendingTransactions (db w)) <> None) ->
  fst (syncLoop txs c w) = Ok c' ->
  (List.length (pendingTransactions (db (snd (syncLoop txs c w)))) + synced c'
   = List.length (pendingTransactions (db w)) + synced c)%nat.
Proof.
  revert c w. induction txs as [| tx rest IH]; intros c w H W D G E.
  - rewrite syncLoop_nil in *. simpl in *. injection E as <-. reflexivity.
  - rewrite syncLoop_cons in *. inversion D as [| ? ? Nin D']; subst.
    pose proof (syncOne_removes_or_keeps tx c w H W (G tx (or_introl eq_refl)))
      as Cases.
    destruct (syncOne_frame tx c w) as [_ [_ [Hh _]]].
    destruct (syncOne_touches tx c w) as [O [_ Wf]].
    destruct (syncOne tx c w) as [[c1 | e] w1]; simpl in *; [| discriminate].
    assert (healthy w1) as H1 by (intros n; rewrite Hh; apply H).
    assert (forall t, In t rest ->
                      get (id t) (pendingTransactions (db w1)) <> None) as G1.
    { intros t I. rewrite O; [apply G; now right |].
      intros Et. apply Nin. rewrite <- Et. now apply in_map. }
    rewrite (IH c1 w1 H1 (Wf W) D' G1 E).
    destruct Cases as [[Ec L] | [Ec L]]; injection Ec as ->; simpl; lia.
Qed.

(** X22. Under a healthy platform, the success counter a drain returns is the
    number of records the drain has removed from the queue, and the
    failure counter the number of listed records it has kept. *)
Theorem synced_counts_the_removed_records (w : World) res :
  healthy w -> isSyncing w = false ->
  ObjectStore.wf id (pendingTransactions (db w)) ->
  fst (syncPendingTransactions w) = Ok res ->
  let store := pendingTransactions (db w) in
  let store' := pendingTransactions (db (snd (syncPendingTransactions w))) in
  (List.length store' + synced res = List.length store)%nat /\
  (List.length (listPending store) = synced res + failedCount res)%nat.
Proof.
  intros H B W E store store'. subst store store'.
  split; [| symmetry; now apply syncPendingTransactions_counts].
  assert (NoDup (map id (listPending (pendingTransactions (db w))))) as ND.
  { apply ObjectStoreFacts.wf_NoDup. now apply ObjectStoreFacts.wf_filter. }
  assert (forall tx, In tx (listPending (pendingTransactions (db w))) ->
                     get (id tx) (pendingTransactions (db w)) <> None) as G.
  { intros tx I. apply In_listPending in I. destruct I as [I _].
    rewrite (ObjectStoreFacts.wf_In_get id _ _ W I). discriminate. }
  revert E. unfold syncPendingTransactions. rewrite B.
  drain ltac:(fun txs c W' => pose proof (syncLoop_removed txs c W' res H W ND G));
    intros E; try discriminate E; injection E as <-; simpl; try lia.
  all: match goal with
       | K : Ok ?cl = Ok ?cl -> _ |- _ => specialize (K eq_refl); simpl in K; lia
       end.
Qed.

(** *** Every pending record is looked up *)


Lemma lookups_app (e1 e2 : list (Event Amount)) :
  lookups (e1 ++ e2) = (lookups e1 ++ lookups e2)%list.
Proof. apply flat_map_app. Qed.

Lemma syncOne_lookup tx c (w : World) :
  healthy w ->
  exists events,
    trace (snd (syncOne tx c w)) = (trace w ++ events)%list /\
    lookups events = [hash tx].
Proof.
  intros H. destruct (syncOne_asks_first tx c w H) as [found [more [T M]]].
  eexists. split; [exact T |].
  destruct M as [-> | [_ ->]]; reflexivity.
Qed.

Lemma syncLoop_lookups txs c (w : World) :
  healthy w ->
  exists events,
    trace (snd (syncLoop txs c w)) = (trace w ++ events)%list /\
    lookups events = map hash txs.
Proof.
  revert c w. induction txs as [| t rest IH]; intros c w H.
  - exists []. rewrite syncLoop_nil. simpl. rewrite app_nil_r. now split.
  - rewrite syncLoop_cons.
    destruct (syncOne_healthy t c w H) as [c1 E1].
    destruct (syncOne_frame t c w) as [_ [_ [Hh _]]].
    destruct (syncOne_lookup t c w H) as [e1 [T1 L1]].
    destruct (syncOne t c w) as [[c2 | e] w1]; simpl in *; [| discriminate].
    assert (healthy w1) as H1 by (intros n; rewrite Hh; apply H).
    destruct (IH c2 w1 H1) as [e2 [T2 L2]].
    exists (e1 ++ e2)%list. split.
    + now rewrite T2, T1, app_assoc.
    + rewrite lookups_app, L1, L2. reflexivity.
Qed.

(** X23. Under a healthy platform and a quiet observer, a drain that passes the
    guard asks the ledger for the hash of every record that was pending
    when it started, once each, in the order of the list of pending
    records, and for no other hash. *)
Theorem healthy_drain_looks_every_pending_record_up (w : World) :
  healthy w -> quiet w -> isSyncing w = false ->
  exists events,
    trace (snd (syncPendingTransactions w)) = (trace w ++ events)%list /\
    lookups events = map hash (listPending (pendingTransactions (db w))).
Proof.
  intros H Q B.
  unfold syncPendingTransactions. rewrite B.
  destruct (getPendingTransactions_run_healthy (withIsSyncing w true) H) as [n E].
  unfold tryFinally, bind. rewrite E. clear E.
  drain ltac:(fun txs c W =>
                destruct (syncLoop_lookups txs c W H) as [events [T Lk]]);
    try match goal with
      | Cb : syncCallback w = Some ?cb, Call : ?cb _ _ _ = Some _ |- _ =>
          rewrite (Q cb Cb) in Call; discriminate
      end;
    try match goal with
      | Hc : exists c', Throw _ = Ok c' |- _ => destruct Hc; discriminate
      end;
    try rewrite T; rewrite <- ?app_assoc;
    eexists; (split; [reflexivity || (symmetry; apply app_nil_r) |]);
    rewrite ?lookups_app; simpl; rewrite ?app_nil_r; try exact Lk.
  all: apply Nat.eqb_eq in L; apply length_zero_iff_nil in L; now rewrite L.
Qed.

(** *** What a drain can throw *)

Lemma syncOne_throws tx c (w : World) e :
  fst (syncOne tx c w) = Throw e -> e = StorageUnavailable.
Proof.
  paths; intros Hc; try discriminate Hc; injection Hc as <-; reflexivity.
Qed.

Lemma syncLoop_throws txs c (w : World) e :
  fst (syncLoop txs c w) = Throw e -> e = StorageUnavailable.
Proof.
  revert c w. induction txs as [| tx rest IH]; intros c w.
  - rewrite syncLoop_nil. discriminate.
  - rewrite syncLoop_cons.
    pose proof (syncOne_throws tx c w) as T1.
    destruct (syncOne tx c w) as [[c1 | e1] w1]; simpl in *; [apply IH |].
    intros Hc. injection Hc as <-. now apply T1.
Qed.

(** X26. No failure of the ledger makes a drain throw: a rejected look-up, a
    rejected or refused submission are caught and counted for the record.
    What a drain throws is the storage error or what the observer has
    thrown, and with an observer that does not throw the storage error
    alone; and the guard is released when it does. *)
Theorem only_storage_and_observer_failures_escape (w : World) e :
  fst (syncPendingTransactions w) = Throw e ->
  (e = StorageUnavailable \/ exists reason, e = CallbackFailure reason) /\
  (quiet w -> e = StorageUnavailable) /\
  isSyncing w = false /\
  isSyncing (snd (syncPendingTransactions w)) = false.
Proof.
  intros F.
  assert (isSyncing w = false) as B.
  { destruct (isSyncing w) eqn:B; [| reflexivity].
    rewrite (syncPendingTransactions_busy w B) in F. discriminate. }
  split; [| split; [| split; [exact B | now apply syncPendingTransactions_releases]]].
  - revert F. unfold syncPendingTransactions. rewrite B.
    drain ltac:(fun txs c W => pose proof (syncLoop_throws txs c W) as Th);
      intros F; try discriminate F; injection F as <-; eauto.
  - intros Q. revert F. unfold syncPendingTransactions. rewrite B.
    drain ltac:(fun txs c W => pose proof (syncLoop_throws txs c W) as Th);
      intros F; try discriminate F; injection F as <-; eauto;
      match goal with
      | Cb : syncCallback w = Some ?cb, Call : ?cb _ _ _ = Some _ |- _ =>
          rewrite (Q cb Cb) in Call; discriminate
      end.
Qed.

(** *** From the enqueue to the ledger *)







End SyncEngineFacts.

(** ** Identity of queued records *)

Section QueueIdentity.
Context {Amount R : Type} {numOps : JsNumber Amount}
        {ledger : RemoteLedger R Amount}.

Notation World := (World Amount R).
Notation Tx := (PendingTransaction Amount).
Notation get := (ObjectStore.get id).

Lemma descends_hashKept (s s' : list Tx) : descends s s' -> hashKept s s'.
Proof.
  intros D k a b Ga Gb. destruct (D k b Gb) as [a' [Ga' Sa]].
  rewrite Ga in Ga'. injection Ga' as <-.
  unfold sameTransfer in Sa. tauto.
Qed.

Lemma descends_filter (f : Tx -> bool) (s : list Tx) :
  ObjectStore.wf id s -> descends s (filter f s).
Proof.
  intros W k b G. apply ObjectStoreFacts.get_Some in G. destruct G as [I E].
  apply filter_In in I. destruct I as [I _].
  exists b. split; [| apply sameTransfer_refl].
  rewrite <- E. now apply ObjectStoreFacts.wf_In_get.
Qed.

Lemma updateTransactionStatus_descends key s inc (w : World) :
  descends (pendingTransactions (db w))
    (pendingTransactions (db (snd (updateTransactionStatus key s inc w)))).
Proof.
  destruct (updateTransactionStatus_stored key s inc w) as [n | n]; simpl.
  - apply descends_refl.
  - eapply touches_descends. apply touches_statusWritten, touches_refl.
Qed.

Lemma deleteTransaction_descends key (w : World) :
  descends (pendingTransactions (db w))
    (pendingTransactions (db (snd (deleteTransaction key w)))).
Proof.
  destruct (deleteTransaction_stored key w) as [n | n]; simpl.
  - apply descends_refl.
  - eapply touches_descends. apply touches_delete, touches_refl.
Qed.

Lemma clearSyncedTransactions_descends (w : World) :
  ObjectStore.wf id (pendingTransactions (db w)) ->
  descends (pendingTransactions (db w))
    (pendingTransactions (db (snd (clearSyncedTransactions w)))).
Proof.
  intros W.
  destruct (clearSyncedTransactions_stored w) as [n | n]; simpl.
  - apply descends_refl.
  - rewrite clearLoop_self by assumption. now apply descends_filter.
Qed.

Lemma addPendingTransaction_hashKept tx (w : World) :
  Forall identified (pendingTransactions (db w)) ->
  hashKept (pendingTransactions (db w))
    (pendingTransactions (db (snd (addPendingTransaction tx w)))).
Proof.
  intros F k a b Ga.
  destruct (addPendingTransaction tx w) as [[t | e] w'] eqn:E; simpl.
  - destruct (addPendingTransaction_ok tx w t w' E) as [device [time [Et Ed]]].
    rewrite Ed. simpl.
    destruct (String.eqb_spec (id t) k) as [<- | Ne].
    + rewrite ObjectStoreFacts.get_put_same. intros Gb. injection Gb as <-.
      apply ObjectStoreFacts.get_Some in Ga. destruct Ga as [Ia Ea].
      rewrite Forall_forall in F.
      apply (identified_inj t a); [| now apply F | now symmetry].
      rewrite Et. apply identified_enqueued.
    + rewrite ObjectStoreFacts.get_put_other by assumption. congruence.
  - destruct (addPendingTransaction_throws tx w e w' E) as [_ Ed].
    rewrite Ed. congruence.
Qed.

(** C5. The record an enqueue returns is the record it has persisted; its
    status is pending, its retry count is 0 and its hash is the integrity
    hash of its sender, receiver, amount, timestamp and device, so two
    enqueued records that agree on these five fields have equal hashes.
    The hash of a queued record is never computed again: no operation on
    the queue changes the hash held under an identifier. Under a healthy
    platform an enqueue returns; otherwise it throws [StorageUnavailable]
    and changes no record. *)
Theorem integrity_hash_fixed_at_creation :
  (forall (tx : NewTransaction Amount) (w : World) t w',
     addPendingTransaction tx w = (Ok t, w') ->
     status t = pending /\ retryCount t = 0%nat /\
     hash t = integrityHash (senderId t) (receiverId t) (amount t)
                (timestamp t) (deviceId t) /\
     senderId t = n_senderId tx /\ receiverId t = n_receiverId tx /\
     amount t = n_amount tx /\
     get (id t) (pendingTransactions (db w')) = Some t) /\
  (forall (tx1 tx2 : NewTransaction Amount) (w1 w2 : World) t1 t2 w1' w2',
     addPendingTransaction tx1 w1 = (Ok t1, w1') ->
     addPendingTransaction tx2 w2 = (Ok t2, w2') ->
     senderId t1 = senderId t2 -> receiverId t1 = receiverId t2 ->
     amount t1 = amount t2 -> timestamp t1 = timestamp t2 ->
     deviceId t1 = deviceId t2 ->
     hash t1 = hash t2) /\
  (forall (w : World),
     let store := pendingTransactions (db w) in
     let after := fun A (m : M Amount R A) => pendingTransactions (db (snd (m w))) in
     (forall key s inc,
        hashKept store (after _ (updateTransactionStatus key s inc))) /\
     (forall key, hashKept store (after _ (deleteTransaction key))) /\
     (ObjectStore.wf id store ->
        hashKept store (after _ clearSyncedTransactions)) /\
     hashKept store (after _ syncPendingTransactions) /\
     (forall tx, Forall identified store ->
        hashKept store (after _ (addPendingTransaction tx)))) /\
  (forall (tx : NewTransaction Amount) (w : World),
     (healthy w -> exists t, fst (addPendingTransaction tx w) = Ok t) /\
     (forall e w', addPendingTransaction tx w = (Throw e, w') ->
        e = StorageUnavailable /\ db w' = db w)).
Proof.
  split; [| split; [| split]].
  - intros tx w t w' E.
    destruct (addPendingTransaction_ok tx w t w' E) as [device [time [-> Ed]]].
    repeat split.
    rewrite Ed. simpl.
    exact (ObjectStoreFacts.get_put_same id (enqueued tx device time) _).
  - intros tx1 tx2 w1 w2 t1 t2 w1' w2' E1 E2 Es Er Ea Et Ed.
    destruct (addPendingTransaction_ok tx1 w1 t1 w1' E1) as [d1 [m1 [-> _]]].
    destruct (addPendingTransaction_ok tx2 w2 t2 w2' E2) as [d2 [m2 [-> _]]].
    unfold enqueued in *. cbn [hash senderId receiverId amount timestamp deviceId] in *.
    now rewrite Es, Er, Ea, Et, Ed.
  - intros w store after. subst store after. cbn beta.
    repeat split.
    + intros key s inc. apply descends_hashKept, updateTransactionStatus_descends.
    + intros key. apply descends_hashKept, deleteTransaction_descends.
    + intros W. now apply descends_hashKept, clearSyncedTransactions_descends.
    + apply descends_hashKept, syncPendingTransactions_descends.
    + intros tx F. now apply addPendingTransaction_hashKept.
  - intros tx w. split.
    + apply addPendingTransaction_healthy.
    + intros e w'. apply addPendingTransaction_throws.
Qed.

(** C6, as the code has it. Two enqueued records have the same identifier
    exactly when they have the same timestamp and the same integrity
    hash. An enqueue leaves in place every queued record whose timestamp
    or hash differs from those of the new record, and writes the new
    record over a queued record that agrees with it on both. *)
Theorem enqueue_identifier :
  (forall (tx1 tx2 : NewTransaction Amount) (w1 w2 : World) t1 t2 w1' w2',
     addPendingTransaction tx1 w1 = (Ok t1, w1') ->
     addPendingTransaction tx2 w2 = (Ok t2, w2') ->
     (id t1 = id t2 <-> timestamp t1 = timestamp t2 /\ hash t1 = hash t2)) /\
  (forall (tx : NewTransaction Amount) (w : World) t w',
     addPendingTransaction tx w = (Ok t, w') ->
     identified t /\
     forall a, get (id a) (pendingTransactions (db w)) = Some a -> identified a ->
       (timestamp a <> timestamp t \/ hash a <> hash t ->
          get (id a) (pendingTransactions (db w')) = Some a) /\
       (timestamp a = timestamp t -> hash a = hash t ->
          get (id a) (pendingTransactions (db w')) = Some t)).
Proof.
  split.
  - intros tx1 tx2 w1 w2 t1 t2 w1' w2' E1 E2.
    destruct (addPendingTransaction_ok tx1 w1 t1 w1' E1) as [d1 [m1 [-> _]]].
    destruct (addPendingTransaction_ok tx2 w2 t2 w2' E2) as [d2 [m2 [-> _]]].
    apply identified_inj; apply identified_enqueued.
  - intros tx w t w' E.
    destruct (addPendingTransaction_ok tx w t w' E) as [device [time [Et Ed]]].
    assert (identified t) as It by (rewrite Et; apply identified_enqueued).
    split; [exact It |].
    intros a Ga Ia. rewrite Ed. simpl.
    pose proof (identified_inj a t Ia It) as Inj.
    split.
    + intros D. rewrite ObjectStoreFacts.get_put_other; [assumption |].
      intros Eid. symmetry in Eid. apply Inj in Eid. destruct D; tauto.
    + intros Ets Eh. assert (id a = id t) as -> by (apply Inj; now split).
      apply ObjectStoreFacts.get_put_same.
Qed.

(** The two invariants of the queue, unique identifiers and identifiers of
    the shape [identified], hold of the empty queue and are kept by every
    operation on it. *)
Lemma descends_identified (s s' : list Tx) :
  ObjectStore.wf id s' -> descends s s' ->
  Forall identified s -> Forall identified s'.
Proof.
  intros W D F. rewrite Forall_forall in *. intros b I.
  pose proof (ObjectStoreFacts.wf_In_get id s' b W I) as G.
  destruct (D _ _ G) as [a [Ga Sa]].
  apply ObjectStoreFacts.get_Some in Ga. destruct Ga as [Ia _].
  destruct (F a Ia) as [Ea La].
  unfold sameTransfer in Sa. destruct Sa as [Si [_ [_ [_ [_ [St [Sh _]]]]]]].
  split; congruence.
Qed.

Lemma queue_invariants_kept (w : World) :
  let inv := fun store : list Tx =>
               ObjectStore.wf id store /\ Forall identified store in
  let after := fun A (m : M Amount R A) => pendingTransactions (db (snd (m w))) in
  inv (pendingTransactions (db w)) ->
  (forall tx, inv (after _ (addPendingTransaction tx))) /\
  (forall key s inc, inv (after _ (updateTransactionStatus key s inc))) /\
  (forall key, inv (after _ (deleteTransaction key))) /\
  inv (after _ clearSyncedTransactions) /\
  inv (after _ syncPendingTransactions).
Proof.
  intros inv after [W F]. subst inv after. cbn beta.
  assert (forall A (m : M Amount R A),
             ObjectStore.wf id (pendingTransactions (db (snd (m w)))) ->
             descends (pendingTransactions (db w))
               (pendingTransactions (db (snd (m w)))) ->
             ObjectStore.wf id (pendingTransactions (db (snd (m w)))) /\
             Forall identified (pendingTransactions (db (snd (m w))))) as K.
  { intros A m W' D. split; [assumption |]. eapply descends_identified; eauto. }
  repeat split.
  - destruct (addPendingTransaction tx w) as [[t | e] w'] eqn:E; simpl.
    + destruct (addPendingTransaction_ok tx w t w' E) as [device [time [_ Ed]]].
      rewrite Ed. simpl. now apply ObjectStoreFacts.wf_put.
    + destruct (addPendingTransaction_throws tx w e w' E) as [_ Ed].
      now rewrite Ed.
  - destruct (addPendingTransaction tx w) as [[t | e] w'] eqn:E; simpl.
    + destruct (addPendingTransaction_ok tx w t w' E) as [device [time [Et Ed]]].
      rewrite Ed. simpl. rewrite Forall_forall in *. intros x I.
      destruct (ObjectStoreFacts.In_put id _ _ _ I) as [-> | Ix]; [| now apply F].
      rewrite Et. apply identified_enqueued.
    + destruct (addPendingTransaction_throws tx w e w' E) as [_ Ed].
      now rewrite Ed.
  - apply K; [| apply updateTransactionStatus_descends].
    destruct (updateTransactionStatus_stored key s inc w); simpl;
      [assumption | now apply wf_statusWritten].
  - apply K; [| apply updateTransactionStatus_descends].
    destruct (updateTransactionStatus_stored key s inc w); simpl;
      [assumption | now apply wf_statusWritten].
  - apply K; [| apply deleteTransaction_descends].
    destruct (deleteTransaction_stored key w); simpl;
      [assumption | now apply ObjectStoreFacts.wf_delete].
  - apply K; [| apply deleteTransaction_descends].
    destruct (deleteTransaction_stored key w); simpl;
      [assumption | now apply ObjectStoreFacts.wf_delete].
  - apply K; [| now apply clearSyncedTransactions_descends].
    destruct (clearSyncedTransactions_stored w); simpl; [assumption |].
    rewrite clearLoop_self by assumption. now apply ObjectStoreFacts.wf_filter.
  - apply K; [| now apply clearSyncedTransactions_descends].
    destruct (clearSyncedTransactions_stored w); simpl; [assumption |].
    rewrite clearLoop_self by assumption. now apply ObjectStoreFacts.wf_filter.
  - apply K; [| apply syncPendingTransactions_descends].
    now apply syncPendingTransactions_wf.
  - apply K; [| apply syncPendingTransactions_descends].
    now apply syncPendingTransactions_wf.
Qed.

End QueueIdentity.

(** ** [Array.prototype.sort] with a comparator that orders by a key,
    largest first *)

Module JsArrayFacts.
Section Descending.
Context {A : Type} (keyOf : A -> Z).

Notation compare := (fun a b : A => keyOf b - keyOf a).
Notation descending := (fun a b : A => keyOf b <= keyOf a).
Notation at_ t := (fun x : A => keyOf x =? t).

Lemma insertBy_perm (x : A) (placed : list A) :
  Permutation (x :: placed) (JsArray.insertBy compare x placed).
Proof.
  induction placed as [| y rest IH]; simpl; [reflexivity |].
  destruct (0 <? keyOf x - keyOf y); [reflexivity |].
  rewrite perm_swap. now apply perm_skip.
Qed.

Lemma insertBy_sorted (x : A) (placed : list A) :
  StronglySorted descending placed ->
  StronglySorted descending (JsArray.insertBy compare x placed).
Proof.
  induction placed as [| y rest IH]; intros S; simpl.
  - constructor; constructor.
  - inversion S as [| ? ? S' F]; subst.
    destruct (Z.ltb_spec 0 (keyOf x - keyOf y)) as [L | L].
    + constructor; [assumption |]. constructor; [lia |].
      eapply Forall_impl; [| exact F]. simpl. intros z Hz. lia.
    + constructor; [now apply IH |].
      eapply Permutation_Forall; [apply insertBy_perm |].
      constructor; [lia | assumption].
Qed.

Lemma insertBy_stable (x : A) (placed : list A) (t : Z) :
  StronglySorted descending placed ->
  filter (at_ t) (JsArray.insertBy compare x placed)
  = (filter (at_ t) placed ++ filter (at_ t) [x])%list.
Proof.
  induction placed as [| y rest IH]; intros S; [reflexivity |].
  inversion S as [| ? ? S' F]; subst.
  cbn [JsArray.insertBy].
  destruct (Z.ltb_spec 0 (keyOf x - keyOf y)) as [L | L].
  - cbn [filter]. destruct (Z.eqb_spec (keyOf x) t) as [E | E];
      [| now rewrite app_nil_r].
    destruct (Z.eqb_spec (keyOf y) t) as [Ey | Ey]; [lia |].
    assert (filter (at_ t) rest = []) as ->; [| reflexivity].
    clear - F L E. induction rest as [| z rest IH]; [reflexivity |].
    inversion F; subst. cbn [filter].
    destruct (Z.eqb_spec (keyOf z) (keyOf x)); [lia | auto].
  - cbn [filter]. rewrite (IH S').
    destruct (keyOf y =? t); reflexivity.
Qed.

Lemma fold_insert (l acc : list A) :
  StronglySorted descending acc ->
  let result := fold_left (fun placed x => JsArray.insertBy compare x placed) l acc in
  Permutation (acc ++ l) result /\
  StronglySorted descending result /\
  forall t, filter (at_ t) result = (filter (at_ t) acc ++ filter (at_ t) l)%list.
Proof.
  revert acc. induction l as [| x l IH]; intros acc S; simpl.
  - rewrite app_nil_r. split; [reflexivity | split; [assumption |]].
    intros t. now rewrite app_nil_r.
  - destruct (IH _ (insertBy_sorted x acc S)) as [P [S' F]].
    split; [| split; [assumption |]].
    + rewrite <- P. rewrite <- (insertBy_perm x acc).
      symmetry. apply Permutation_middle.
    + intros t. rewrite F, insertBy_stable by assumption.
      rewrite <- app_assoc. cbn [filter].
      destruct (keyOf x =? t); reflexivity.
Qed.

(** The sort returns the elements it is given, largest key first, those
    of equal keys in the order they had. *)
Lemma sort_descending (l : list A) :
  let result := JsArray.sort compare l in
  Permutation l result /\
  StronglySorted descending result /\
  forall t, filter (at_ t) result = filter (at_ t) l.
Proof.
  unfold JsArray.sort.
  destruct (fold_insert l [] (SSorted_nil _)) as [P [S F]].
  split; [exact P | split; [exact S | exact F]].
Qed.

End Descending.
End JsArrayFacts.

(** ** More of the queue and of the cache of recipients *)

Section OfflineDbMore.
Context {Amount R : Type} {numOps : JsNumber Amount}
        {ledger : RemoteLedger R Amount}.

Notation World := (World Amount R).
Notation Tx := (PendingTransaction Amount).
Notation get := (ObjectStore.get id).

Lemma In_put_other {V} (keyOf : V -> string) (v x : V) (s : list V) :
  In x s -> keyOf x <> keyOf v -> In x (ObjectStore.put keyOf v s).
Proof.
  intros I N. induction s as [| y s IH]; simpl in *; [contradiction |].
  destruct (String_as_OT.compare (keyOf v) (keyOf y)) eqn:C.
  - apply ObjectStoreFacts.compare_Eq in C.
    destruct I as [-> | I]; [congruence | now right].
  - now right.
  - destruct I as [-> | I]; [now left | right; now apply IH].
Qed.

Lemma delete_absent (key : string) (store : list Tx) :
  get key store = None -> ObjectStore.delete id key store = store.
Proof.
  intros G. apply filter_all. intros x I. apply negb_true_iff.
  apply String.eqb_neq. now apply (ObjectStoreFacts.get_None id key store G).
Qed.

(** X1. [deleteTransaction] removes the record under the identifier and no
    other; for an identifier the store does not hold it resolves all the
    same and changes nothing, so a second delete is harmless; a call that
    does not resolve throws [StorageUnavailable] and removes nothing. *)
Theorem deleteTransaction_removes key (w : World) :
  let store := pendingTransactions (db w) in
  let result := deleteTransaction key w in
  let store' := pendingTransactions (db (snd result)) in
  (fst result = Ok tt -> get key store' = None) /\
  (forall k, k <> key -> get k store' = get k store) /\
  (forall x, In x store' -> In x store) /\
  (get key store = None -> store' = store) /\
  (fst result = Ok tt ->
     pendingTransactions (db (snd (deleteTransaction key (snd result)))) = store') /\
  (fst result <> Ok tt ->
     fst result = Throw StorageUnavailable /\ store' = store) /\
  (healthy w -> fst result = Ok tt) /\
  (ObjectStore.wf id store -> ObjectStore.wf id store') /\
  cachedRecipients (db (snd result)) = cachedRecipients (db w).
Proof.
  intros store result store'. subst store' result.
  pose proof (deleteTransaction_healthy key w) as Hh.
  assert (forall w1 : World,
             pendingTransactions (db w1) = ObjectStore.delete id key store ->
             pendingTransactions (db (snd (deleteTransaction key w1)))
             = ObjectStore.delete id key store) as Again.
  { intros w1 E1.
    destruct (deleteTransaction_stored key w1) as [n | n]; simpl; rewrite E1;
      [reflexivity |].
    apply delete_absent. apply ObjectStoreFacts.get_delete_same. }
  destruct (deleteTransaction_stored key w) as [n | n]; simpl in *; fold store.
  - repeat split; try reflexivity; try discriminate; try assumption; auto.
  - repeat split; try reflexivity; try assumption; try congruence.
    + intros _. apply ObjectStoreFacts.get_delete_same.
    + intros k N. now apply ObjectStoreFacts.get_delete_other.
    + intros x I. now apply filter_In in I.
    + apply delete_absent.
    + intros _. now apply Again.
    + apply ObjectStoreFacts.wf_delete.
Qed.

Lemma addPendingTransaction_device tx (w : World) t w' :
  addPendingTransaction tx w = (Ok t, w') ->
  deviceIdItem w' = Some (deviceId t) /\
  (forall d, deviceIdItem w = Some d -> d <> "" -> deviceId t = d) /\
  cachedRecipients (db w') = cachedRecipients (db w).
Proof.
  unfold addPendingTransaction, getDB, getDeviceId, now, bind, idb, ret. simpl.
  destruct (storageFails (host w) (tick w)) eqn:F1; simpl; [discriminate |].
  destruct (deviceIdItem w) as [d |] eqn:D; simpl;
    [destruct (String.eqb_spec d "") as [Ed | Ed]; simpl |].
  all: match goal with
       | |- context [storageFails ?h ?n] =>
           destruct (storageFails h n) eqn:F2; simpl; [discriminate |]
       end.
  all: intros E; injection E as <- <-; simpl.
  all: repeat split; try assumption.
  all: intros d' E'; try injection E' as <-; congruence.
Qed.

(** X2. An enqueue that resolves returns the record it has written: the
    record is in the queue under its identifier, pending with no retry,
    with the fields of the request and the identifier of this device,
    which [localStorage] now holds; the next list of pending records has
    it, and still has every record it had under another identifier. *)
Theorem addPendingTransaction_listed tx (w : World) t :
  fst (addPendingTransaction tx w) = Ok t ->
  let w' := snd (addPendingTransaction tx w) in
  let store' := pendingTransactions (db w') in
  get (id t) store' = Some t /\
  In t (listPending store') /\
  (forall l, fst (getPendingTransactions w') = Ok l -> l = listPending store') /\
  (forall x, In x (listPending (pendingTransactions (db w))) -> id x <> id t ->
     In x (listPending store')) /\
  status t = pending /\ retryCount t = 0%nat /\
  senderId t = n_senderId tx /\ receiverId t = n_receiverId tx /\
  receiverPhone t = n_receiverPhone tx /\ amount t = n_amount tx /\
  description t = n_description tx /\
  deviceIdItem w' = Some (deviceId t) /\
  (forall d, deviceIdItem w = Some d -> d <> "" -> deviceId t = d) /\
  cachedRecipients (db w') = cachedRecipients (db w).
Proof.
  intros F w' store'. subst store' w'.
  destruct (addPendingTransaction tx w) as [o w'] eqn:E. simpl in F. subst o.
  destruct (addPendingTransaction_ok _ _ _ _ E) as [device [time [Et Ed]]].
  destruct (addPendingTransaction_device _ _ _ _ E) as [D1 [D2 D3]].
  cbn [snd]. rewrite Ed. cbn [pendingTransactions withPending].
  assert (status t = pending) as St by now rewrite Et.
  split; [apply ObjectStoreFacts.get_put_same |].
  split.
  { apply In_listPending. split; [apply In_put_self | exact St]. }
  split.
  { intros l G.
    destruct (getPendingTransactions_stored w') as [n | n]; simpl in G;
      [discriminate |].
    injection G as <-. now rewrite Ed. }
  split.
  { intros x I N. apply In_listPending in I. destruct I as [I S].
    apply In_listPending. split; [| assumption]. now apply In_put_other. }
  rewrite Et at 1 2 3 4 5 6 7.
  repeat split; assumption.
Qed.

(** X3. [getDeviceId] returns the identifier [localStorage] holds when it
    holds a non-empty one, and changes nothing; otherwise it generates
    one and stores it. A second call returns what the first returned and
    generates nothing. The database is not touched. *)
Theorem getDeviceId_persists (w : World) :
  let first := getDeviceId w in
  (forall d, deviceIdItem w = Some d -> d <> "" -> first = (Ok d, w)) /\
  (exists d, fst first = Ok d /\ deviceIdItem (snd first) = Some d /\
             (d <> "" -> getDeviceId (snd first) = (Ok d, snd first))) /\
  db (snd first) = db w.
Proof.
  unfold getDeviceId. cbn zeta.
  destruct (deviceIdItem w) as [d |] eqn:D;
    [destruct (String.eqb_spec d "") as [Ed | Ed] |].
  - split; [intros d' E' N; congruence |].
    split; [| reflexivity].
    eexists. split; [reflexivity |]. split; [reflexivity |].
    intros N. cbn [snd deviceIdItem withDeviceIdItem].
    apply String.eqb_neq in N. now rewrite N.
  - split.
    { intros d' E' N. injection E' as <-. reflexivity. }
    split; [| reflexivity].
    exists d. cbn [fst snd]. rewrite D.
    split; [reflexivity |]. split; [reflexivity |].
    intros N. apply String.eqb_neq in N. now rewrite N.
  - split; [discriminate |].
    split; [| reflexivity].
    eexists. split; [reflexivity |]. split; [reflexivity |].
    intros N. cbn [snd deviceIdItem withDeviceIdItem].
    apply String.eqb_neq in N. now rewrite N.
Qed.

Lemma getAllOfflineTransactions_stored (w : World) :
  stored w (JsArray.sort byTimestampDescending (pendingTransactions (db w))) (db w)
    (getAllOfflineTransactions w).
Proof.
  unfold getAllOfflineTransactions, getDB, bind, idb, ret. simpl.
  destruct (storageFails (host w) (tick w)) eqn:F1; simpl;
    [exact (stored_fail _ _ _ 1) |].
  destruct (storageFails (host w) (S (tick w))) eqn:F2; simpl;
    [exact (stored_fail _ _ _ 2) | exact (stored_done _ _ _ 2)].
Qed.

(** X4. [getAllOfflineTransactions] that resolves returns every record of the
    queue, pending or not, each once, the newest first, and records
    created at the same instant in the order of their identifiers (the
    order of the store); it changes no record; otherwise it throws
    [StorageUnavailable]; under a healthy platform it resolves. *)
Theorem getAllOfflineTransactions_newest_first (w : World) :
  let store := pendingTransactions (db w) in
  let result := getAllOfflineTransactions w in
  (forall l, fst result = Ok l ->
     Permutation store l /\
     StronglySorted newerFirst l /\
     forall t, createdAt t l = createdAt t store) /\
  ((exists l, fst result = Ok l) \/ fst result = Throw StorageUnavailable) /\
  (healthy w -> exists l, fst result = Ok l) /\
  db (snd result) = db w.
Proof.
  intros store result. subst result.
  assert (healthy w -> fst (getAllOfflineTransactions w) <> Throw StorageUnavailable)
    as Hh.
  { intros H. unfold getAllOfflineTransactions, getDB, bind, idb, ret. simpl.
    rewrite !H. simpl. discriminate. }
  destruct (getAllOfflineTransactions_stored w) as [n | n]; simpl in *.
  - split; [discriminate |]. split; [now right |].
    split; [| reflexivity]. intros H. now destruct (Hh H).
  - split; [| split; [left; eauto | split; [eauto | reflexivity]]].
    intros l E. injection E as <-.
    exact (JsArrayFacts.sort_descending timestamp store).
Qed.

Lemma getAllCachedRecipients_stored (w : World) :
  stored w (cachedRecipients (db w)) (db w) (getAllCachedRecipients w).
Proof.
  unfold getAllCachedRecipients, getDB, bind, idb. simpl.
  destruct (storageFails (host w) (tick w)) eqn:F1; simpl;
    [exact (stored_fail _ _ _ 1) |].
  destruct (storageFails (host w) (S (tick w))) eqn:F2; simpl;
    [exact (stored_fail _ _ _ 2) | exact (stored_done _ _ _ 2)].
Qed.

(** X5. After [cacheRecipient] resolves, the list of all cached recipients
    has the record just written, every record that was cached under
    another record id, and nothing else; looking the profile's payment
    identifier up finds a record that carries it; the queue of transfers
    is as it was. *)
Theorem cacheRecipient_listed recipient (w : World) :
  fst (cacheRecipient recipient w) = Ok tt ->
  let w' := snd (cacheRecipient recipient w) in
  let record := stamped recipient (dateNow (host w) (1 + tick w)) in
  (forall l, fst (getAllCachedRecipients w') = Ok l ->
     In record l /\
     (forall x, In x (cachedRecipients (db w)) -> rc_id x <> rp_id recipient ->
        In x l) /\
     (forall x, In x l -> x = record \/ In x (cachedRecipients (db w)))) /\
  (forall found,
     fst (getCachedRecipientByPaymentId (rp_payment_id recipient) w') = Ok found ->
     exists x, found = Some x /\ payment_id x = rp_payment_id recipient) /\
  db (snd (getAllCachedRecipients w')) = db w' /\
  pendingTransactions (db w') = pendingTransactions (db w).
Proof.
  intros F w' record. subst w'.
  destruct (cacheRecipient_stored recipient w) as [n | n]; simpl in F;
    [discriminate |].
  cbn [snd]. fold record.
  set (w' := withDb (advance n w) _).
  split; [| split; [| split]].
  - intros l G.
    destruct (getAllCachedRecipients_stored w') as [m | m]; simpl in G;
      [discriminate |].
    injection G as <-.
    split; [apply In_put_self |].
    split; [intros x I N; now apply In_put_other |].
    intros x I. apply ObjectStoreFacts.In_put in I. tauto.
  - intros found G.
    destruct (getCachedRecipientByPaymentId_stored (rp_payment_id recipient) w')
      as [m | m]; simpl in G; [discriminate |].
    injection G as <-. unfold firstWithPaymentId.
    match goal with
    | |- context [find ?f ?l] => destruct (find f l) as [x |] eqn:Fx
    end.
    + exists x. split; [reflexivity |].
      apply find_some in Fx. now apply String.eqb_eq.
    + exfalso.
      pose proof (find_none _ _ Fx record (In_put_self rc_id record _)) as N.
      cbn [payment_id record stamped] in N. now rewrite String.eqb_refl in N.
  - destruct (getAllCachedRecipients_stored w'); reflexivity.
  - reflexivity.
Qed.

Lemma filter_active_counted (f : Tx -> bool) (store : list Tx) :
  (forall x, f x = true -> status x <> failed) ->
  filter f (filter active store) = filter f store.
Proof.
  intros N. rewrite filter_filter. apply filter_ext_in. intros x _.
  destruct (f x) eqn:Fx; [| apply andb_false_r].
  rewrite andb_true_r. specialize (N x Fx).
  unfold active. destruct (status x); congruence.
Qed.

(** X6. The purge changes neither the list of pending records nor the daily
    total of any sender: the total computed over the purged queue is the
    one computed at the same instant over the queue before the purge. After
    a purge that resolved, a second purge removes nothing. The cache of
    recipients is not touched. *)
Theorem purge_keeps_pending_and_total (w : World) :
  ObjectStore.wf id (pendingTransactions (db w)) ->
  let purged := snd (clearSyncedTransactions w) in
  listPending (pendingTransactions (db purged))
  = listPending (pendingTransactions (db w)) /\
  (forall userId,
     fst (getTodayOfflineTotal userId (withDb w (db purged)))
     = fst (getTodayOfflineTotal userId w)) /\
  (fst (clearSyncedTransactions w) = Ok tt ->
     pendingTransactions (db (snd (clearSyncedTransactions purged)))
     = pendingTransactions (db purged)) /\
  cachedRecipients (db purged) = cachedRecipients (db w).
Proof.
  intros W purged. subst purged.
  set (store := pendingTransactions (db w)) in *.
  assert (forall f : Tx -> bool,
             (forall x, f x = true -> status x <> failed) ->
             filter f (pendingTransactions (db (snd (clearSyncedTransactions w))))
             = filter f store) as Counted.
  { intros f N.
    destruct (clearSyncedTransactions_stored w) as [n | n]; simpl;
      [reflexivity |].
    fold store. rewrite (clearLoop_self store W).
    now apply filter_active_counted. }
  assert (cachedRecipients (db (snd (clearSyncedTransactions w)))
          = cachedRecipients (db w)) as Rc.
  { destruct (clearSyncedTransactions_stored w) as [n | n]; reflexivity. }
  split; [| split; [| split; [| exact Rc]]].
  - unfold listPending, ObjectStore.getAllFromIndex.
    apply Counted. intros x S.
    destruct (status x); [discriminate | discriminate | discriminate S].
  - intros userId.
    unfold getTodayOfflineTotal, getDB, now, bind, idb, ret. simpl.
    destruct (storageFails (host w) (tick w)); simpl; [reflexivity |].
    destruct (storageFails (host w) (S (tick w))); simpl; [reflexivity |].
    fold store. rewrite !codeTotal_spec. f_equal.
    unfold dailyOfflineTotal. do 2 f_equal.
    apply Counted. intros x S.
    apply andb_true_iff in S. destruct S as [_ S].
    destruct (status x); [discriminate | discriminate | discriminate S].
  - intros F.
    destruct (clearSyncedTransactions_stored w) as [n | n]; simpl in F;
      [discriminate |].
    cbn [snd].
    match goal with
    | |- context [clearSyncedTransactions ?w1] =>
        destruct (clearSyncedTransactions_stored w1) as [m | m]; simpl;
          [reflexivity |]
    end.
    fold store. rewrite (clearLoop_self store W).
    rewrite clearLoop_self by now apply ObjectStoreFacts.wf_filter.
    rewrite filter_filter. apply filter_ext. intros x. apply andb_diag.
Qed.

End OfflineDbMore.

(** ** The offline settings *)

Section SettingsFacts.
Context {V : Type}.

Notation steady w := (forall n, storageFails (settingsHost w) n = false).

Lemma settingOf_put_same (k : string) (v : option V) (store : list (OfflineSetting V)) :
  settingOf k
    (ObjectStore.put setting_key {| setting_key := k; setting_value := v |} store)
  = v.
Proof.
  unfold settingOf.
  pose proof (ObjectStoreFacts.get_put_same setting_key
                {| setting_key := k; setting_value := v |} store) as G.
  cbn [setting_key] in G. now rewrite G.
Qed.

Lemma settingOf_put_other (k k' : string) (v : option V)
    (store : list (OfflineSetting V)) :
  k' <> k ->
  settingOf k'
    (ObjectStore.put setting_key {| setting_key := k; setting_value := v |} store)
  = settingOf k' store.
Proof.
  intros N. unfold settingOf.
  rewrite ObjectStoreFacts.get_put_other; [reflexivity | simpl; congruence].
Qed.

(** X7. A setting that has been stored is the one read back under its key,
    until the key is stored again; the other keys keep their values; a key
    never stored, or stored with [null] or [undefined], reads as [null].
    Reading changes nothing. A call that does not resolve throws
    [StorageUnavailable] and leaves the settings as they were. *)
Theorem offline_setting_round_trip (k : string) (v : option V) (w : SettingsWorld V) :
  let written := setOfflineSetting k v w in
  let store := offlineSettings w in
  let store' := offlineSettings (snd written) in
  (fst written = Ok tt ->
     settingOf k store' = v /\
     (forall k', k' <> k -> settingOf k' store' = settingOf k' store) /\
     (forall x, fst (getOfflineSetting k (snd written)) = Ok x -> x = v)) /\
  (fst written <> Ok tt ->
     fst written = Throw StorageUnavailable /\ store' = store) /\
  (forall k',
     let read := getOfflineSetting k' w in
     (fst read = Ok (settingOf k' store) \/ fst read = Throw StorageUnavailable) /\
     offlineSettings (snd read) = store /\
     (steady w -> fst read = Ok (settingOf k' store))) /\
  (forall k', ObjectStore.get setting_key k' store = None -> settingOf k' store = None) /\
  (steady w -> fst written = Ok tt) /\
  (ObjectStore.wf setting_key store -> ObjectStore.wf setting_key store').
Proof.
  intros written store store'. subst written store'.
  assert (forall k' (w1 : SettingsWorld V),
             (fst (getOfflineSetting k' w1) = Ok (settingOf k' (offlineSettings w1))
              \/ fst (getOfflineSetting k' w1) = Throw StorageUnavailable) /\
             offlineSettings (snd (getOfflineSetting k' w1)) = offlineSettings w1 /\
             (steady w1 ->
              fst (getOfflineSetting k' w1) = Ok (settingOf k' (offlineSettings w1))))
    as Read.
  { intros k' w1. unfold getOfflineSetting, idbSettings, settingOf. simpl.
    destruct (storageFails (settingsHost w1) (settingsTick w1)) eqn:F1; simpl.
    { repeat split; auto. intros H. rewrite H in F1. discriminate. }
    destruct (storageFails (settingsHost w1) (S (settingsTick w1))) eqn:F2; simpl.
    { repeat split; auto. intros H. rewrite H in F2. discriminate. }
    repeat split; auto. }
  split; [| split; [| split; [| split; [| split]]]].
  - intros F.
    assert (offlineSettings (snd (setOfflineSetting k v w))
            = ObjectStore.put setting_key
                {| setting_key := k; setting_value := v |} store) as Es.
    { revert F. unfold setOfflineSetting, idbSettings. simpl.
      destruct (storageFails (settingsHost w) (settingsTick w)); simpl;
        [discriminate |].
      destruct (storageFails (settingsHost w) (S (settingsTick w))); simpl;
        [discriminate | reflexivity]. }
    split; [rewrite Es; apply settingOf_put_same |].
    split; [intros k' N; rewrite Es; now apply settingOf_put_other |].
    intros x G.
    destruct (Read k (snd (setOfflineSetting k v w))) as [[E | E] _];
      rewrite E in G; [| discriminate].
    injection G as <-. rewrite Es. apply settingOf_put_same.
  - unfold setOfflineSetting, idbSettings. simpl.
    destruct (storageFails (settingsHost w) (settingsTick w)); simpl;
      [now split |].
    destruct (storageFails (settingsHost w) (S (settingsTick w))); simpl;
      [now split | congruence].
  - intros k'. exact (Read k' w).
  - intros k' G. unfold settingOf. now rewrite G.
  - intros H. unfold setOfflineSetting, idbSettings. simpl. now rewrite !H.
  - intros W. unfold setOfflineSetting, idbSettings. simpl.
    destruct (storageFails (settingsHost w) (settingsTick w)); simpl;
      [assumption |].
    destruct (storageFails (settingsHost w) (S (settingsTick w))); simpl;
      [assumption | now apply ObjectStoreFacts.wf_put].
Qed.

End SettingsFacts.

(** ** The hash of a transfer and the hash of a PIN *)

Section HashFacts.
Context {Amount : Type} {numOps : JsNumber Amount}.

Lemma isLowerHex_hexDigit (d : Z) : 0 <= d < 16 -> isLowerHex (Js.hexDigit d) = true.
Proof.
  intros H.
  assert (d = 0 \/ d = 1 \/ d = 2 \/ d = 3 \/ d = 4 \/ d = 5 \/ d = 6 \/ d = 7 \/
          d = 8 \/ d = 9 \/ d = 10 \/ d = 11 \/ d = 12 \/ d = 13 \/ d = 14 \/ d = 15)
    as C by lia.
  repeat (destruct C as [-> | C]; [reflexivity |]). now subst.
Qed.

Lemma allLowerHex_append (a b : string) :
  allLowerHex (a ++ b) = allLowerHex a && allLowerHex b.
Proof.
  induction a as [| c a IH]; simpl; [reflexivity |].
  now rewrite IH, andb_assoc.
Qed.

Lemma allLowerHex_hexDigits (fuel : nat) (n : Z) (acc : string) :
  allLowerHex acc = true -> allLowerHex (Js.hexDigits fuel n acc) = true.
Proof.
  revert n acc. induction fuel as [| fuel IH]; intros n acc H; [exact H |].
  cbn [Js.hexDigits].
  assert (allLowerHex (String (Js.hexDigit (n mod 16)) acc) = true) as H'.
  { cbn [allLowerHex]. rewrite H, andb_true_r.
    apply isLowerHex_hexDigit. apply Z.mod_pos_bound. lia. }
  destruct (n / 16 =? 0); [exact H' | now apply IH].
Qed.

Lemma allLowerHex_repeat0 (k : nat) : allLowerHex (Js.repeat0 k) = true.
Proof. induction k as [| k IH]; [reflexivity | exact IH]. Qed.

Lemma allLowerHex_padStart0 (n : nat) (s : string) :
  allLowerHex s = true -> allLowerHex (Js.padStart0 n s) = true.
Proof.
  intros H. unfold Js.padStart0.
  now rewrite allLowerHex_append, allLowerHex_repeat0, H.
Qed.

Lemma repeat0_add (a b : nat) :
  Js.repeat0 (a + b) = (Js.repeat0 a ++ Js.repeat0 b)%string.
Proof. induction a as [| a IH]; simpl; [reflexivity | now rewrite IH]. Qed.

Lemma append_assoc (a b c : string) : ((a ++ b) ++ c = a ++ (b ++ c))%string.
Proof. induction a as [| x a IH]; simpl; [reflexivity | now rewrite IH]. Qed.

(** X8. [generateHash] returns exactly eight characters, each a digit of
    [toString(16)], so that the [slice(0, 8)] taken of it for the record
    identifier is the hash itself. *)
Theorem generateHash_eight_hex_digits (tx : UnhashedTransaction Amount) :
  String.length (generateHash tx) = 8%nat /\
  allLowerHex (generateHash tx) = true /\
  Js.slice0 8 (generateHash tx) = generateHash tx.
Proof.
  assert (String.length (generateHash tx) = 8%nat) as L.
  { rewrite generateHash_integrityHash. apply length_integrityHash. }
  split; [exact L |]. split.
  - unfold generateHash. cbn zeta. apply allLowerHex_padStart0.
    unfold Js.toString16. now apply allLowerHex_hexDigits.
  - rewrite <- L at 1. apply JsFacts.slice0_all.
Qed.

(** X9. The hash of a PIN is sixteen characters of which the first eight are
    zeros and the rest the eight hexadecimal digits of a 32-bit hash of the
    salted PIN; [verifyPin] accepts a PIN against its own hash, and accepts
    no hash of another length. *)
Theorem hashPin_shape (pin : string) :
  hashPin pin
  = ("00000000"
     ++ Js.padStart0 8
          (Js.toString16 (Z.abs (hashLoop (pin ++ "offlinepay-salt-v1") 0))))%string /\
  String.length (hashPin pin) = 16%nat /\
  allLowerHex (hashPin pin) = true /\
  verifyPin pin (hashPin pin) = true /\
  (forall h, verifyPin pin h = true -> String.length h = 16%nat).
Proof.
  assert (hashPin pin
          = ("00000000"
             ++ Js.padStart0 8
                  (Js.toString16
                     (Z.abs (hashLoop (pin ++ "offlinepay-salt-v1") 0))))%string) as E.
  { unfold hashPin. cbn zeta.
    set (digits := Js.toString16 _).
    assert (String.length digits <= 8)%nat as L.
    { apply JsFacts.length_toString16.
      pose proof (hashLoop_range (pin ++ "offlinepay-salt-v1") 0 ltac:(lia)). lia. }
    unfold Js.padStart0.
    replace (16 - String.length digits)%nat
      with (8 + (8 - String.length digits))%nat by lia.
    rewrite repeat0_add, append_assoc. reflexivity. }
  assert (String.length (hashPin pin) = 16%nat) as L.
  { rewrite E, JsFacts.length_append, JsFacts.length_padStart0.
    set (digits := Js.toString16 _).
    assert (String.length digits <= 8)%nat.
    { apply JsFacts.length_toString16.
      pose proof (hashLoop_range (pin ++ "offlinepay-salt-v1") 0 ltac:(lia)). lia. }
    change (String.length "00000000") with 8%nat. lia. }
  split; [exact E |]. split; [exact L |]. split; [| split].
  - unfold hashPin. cbn zeta. apply allLowerHex_padStart0.
    unfold Js.toString16. now apply allLowerHex_hexDigits.
  - unfold verifyPin. apply String.eqb_refl.
  - intros h Vh. unfold verifyPin in Vh. apply String.eqb_eq in Vh.
    now rewrite <- Vh.
Qed.

End HashFacts.

(** ** One-time passwords *)

Module JsMapFacts.
Section Facts.
Context {V : Type}.

Lemma map_get_set_same (k : string) (v : V) (m : list (string * V)) :
  JsMap.get k (JsMap.set k v m) = Some v.
Proof.
  unfold JsMap.get. induction m as [| e m IH]; simpl.
  - now rewrite String.eqb_refl.
  - destruct (String.eqb (fst e) k) eqn:E; simpl.
    + now rewrite String.eqb_refl.
    + now rewrite E.
Qed.

Lemma map_get_set_other (k k' : string) (v : V) (m : list (string * V)) :
  k' <> k -> JsMap.get k' (JsMap.set k v m) = JsMap.get k' m.
Proof.
  intros N. unfold JsMap.get. induction m as [| e m IH]; simpl.
  - apply not_eq_sym in N. apply String.eqb_neq in N. now rewrite N.
  - destruct (String.eqb_spec (fst e) k) as [E | E]; simpl.
    + destruct (String.eqb_spec k k'); [congruence |].
      destruct (String.eqb_spec (fst e) k'); [congruence | reflexivity].
    + destruct (String.eqb (fst e) k'); [reflexivity |].
      destruct (find _ (JsMap.set k v m)), (find _ m); congruence.
Qed.

Lemma map_get_delete_same (k : string) (m : list (string * V)) :
  JsMap.get k (JsMap.delete k m) = None.
Proof.
  unfold JsMap.get, JsMap.delete. induction m as [| e m IH]; simpl; [reflexivity |].
  destruct (String.eqb (fst e) k) eqn:E; simpl; [exact IH |].
  now rewrite E.
Qed.

Lemma map_get_delete_other (k k' : string) (m : list (string * V)) :
  k' <> k -> JsMap.get k' (JsMap.delete k m) = JsMap.get k' m.
Proof.
  intros N. unfold JsMap.get, JsMap.delete.
  induction m as [| e m IH]; simpl; [reflexivity |].
  destruct (String.eqb_spec (fst e) k) as [E | E]; simpl.
  - destruct (String.eqb_spec (fst e) k'); [congruence | exact IH].
  - destruct (String.eqb (fst e) k'); [reflexivity | exact IH].
Qed.

End Facts.
End JsMapFacts.

Section OtpFacts.

Notation Store := (list (string * StoredOtp)).

Lemma verifyOTP_absent (asked : Z) (phone guess : string) (otpStore : Store) :
  JsMap.get phone otpStore = None ->
  verifyOTP asked phone guess otpStore = (false, otpStore).
Proof. intros G. unfold verifyOTP. now rewrite G. Qed.

(** X10. A one-time password checked within five minutes of its issue is
    accepted, once: the check removes it, so that no later check for that
    phone succeeds, whatever the code, until another password is issued.
    The passwords of other phones are not touched. *)
Theorem verifyOTP_accepts_once (issued asked : Z) (phone code : string)
    (otpStore : Store) :
  asked <= issued + 300000 ->
  let live := storeOTP issued phone code otpStore in
  let result := verifyOTP asked phone code live in
  fst result = true /\
  JsMap.get phone (snd result) = None /\
  (forall later guess,
     verifyOTP later phone guess (snd result) = (false, snd result)) /\
  (forall other, other <> phone ->
     JsMap.get other (snd result) = JsMap.get other otpStore).
Proof.
  intros H live result. subst result live.
  unfold verifyOTP, storeOTP. rewrite JsMapFacts.map_get_set_same. cbn [expires otp].
  destruct (Z.ltb_spec (issued + 5 * 60 * 1000) asked) as [L | L]; [lia |].
  rewrite String.eqb_refl. cbn [fst snd].
  split; [reflexivity |].
  split; [apply JsMapFacts.map_get_delete_same |].
  split.
  - intros later guess. fold (verifyOTP later phone guess
                                (JsMap.delete phone
                                   (JsMap.set phone
                                      {| otp := code;
                                         expires := issued + 5 * 60 * 1000 |}
                                      otpStore))).
    apply verifyOTP_absent. apply JsMapFacts.map_get_delete_same.
  - intros other N.
    rewrite JsMapFacts.map_get_delete_other, JsMapFacts.map_get_set_other by assumption.
    reflexivity.
Qed.

(** X11. What [verifyOTP] refuses. A password checked more than five minutes
    after its issue is refused, even the right one, and removed. Within
    the five minutes a wrong code is refused and the password stays as it
    is, for any number of further checks. A phone for which nothing is
    stored is refused. Issuing another password for a phone replaces the
    one it had, with a new term of five minutes. *)
Theorem verifyOTP_refuses (issued asked : Z) (phone code guess : string)
    (otpStore : Store) :
  let live := storeOTP issued phone code otpStore in
  (issued + 300000 < asked ->
     verifyOTP asked phone guess live = (false, JsMap.delete phone live) /\
     JsMap.get phone (JsMap.delete phone live) = None) /\
  (asked <= issued + 300000 -> guess <> code ->
     verifyOTP asked phone guess live = (false, live)) /\
  (JsMap.get phone otpStore = None ->
     verifyOTP asked phone guess otpStore = (false, otpStore)) /\
  (forall again code',
     JsMap.get phone (storeOTP again phone code' live)
     = Some {| otp := code'; expires := again + 300000 |}) /\
  JsMap.get phone live = Some {| otp := code; expires := issued + 300000 |}.
Proof.
  intros live. subst live. unfold verifyOTP, storeOTP.
  rewrite !JsMapFacts.map_get_set_same. cbn [expires otp].
  split; [| split; [| split; [| split]]].
  - intros L.
    destruct (Z.ltb_spec (issued + 5 * 60 * 1000) asked) as [L' | L']; [| lia].
    split; [reflexivity | apply JsMapFacts.map_get_delete_same].
  - intros L N.
    destruct (Z.ltb_spec (issued + 5 * 60 * 1000) asked) as [L' | L']; [lia |].
    apply not_eq_sym in N. apply String.eqb_neq in N. now rewrite N.
  - intros G. now rewrite G.
  - intros again code'. rewrite JsMapFacts.map_get_set_same. reflexivity.
  - reflexivity.
Qed.

End OtpFacts.

(** ** Automatic draining *)

Section AutoSyncFacts.

Lemma Listener_eqb_refl (l : Listener) : Listener_eqb l l = true.
Proof.
  destruct l; simpl; [apply Nat.eqb_refl | apply String.eqb_refl].
Qed.

Lemma Listener_eqb_eq (a b : Listener) : Listener_eqb a b = true -> a = b.
Proof.
  destruct a, b; simpl; intros E; try discriminate.
  - apply Nat.eqb_eq in E. congruence.
  - apply String.eqb_eq in E. congruence.
Qed.

Notation isSync := (fun l => match l with
                             | SyncListener _ => true
                             | OtherListener _ => false
                             end).

Lemma timers_of_listeners (ls : list Listener) :
  flat_map (fun l => match l with
                     | SyncListener _ => [1000]
                     | OtherListener _ => []
                     end) ls
  = map (fun _ => 1000) (filter isSync ls).
Proof.
  induction ls as [| l ls IH]; simpl; [reflexivity |].
  destruct l; simpl; now rewrite IH.
Qed.

Lemma none_registered (l : Listener) (ls : list Listener) :
  filter isSync ls = [] -> isSync l = true -> existsb (Listener_eqb l) ls = false.
Proof.
  intros F S. apply not_true_iff_false. intros E.
  apply existsb_exists in E. destruct E as [x [I E]].
  apply Listener_eqb_eq in E. subst x.
  assert (In l (filter isSync ls)) as I' by (apply filter_In; now split).
  rewrite F in I'. contradiction.
Qed.

(** X12. [startAutoSync] registers one listener of this module for the
    "online" event, however often it is called: a call made when one is
    registered changes nothing. The first call also asks for a sync in two
    seconds when the browser is online, and for none otherwise. Once
    started, the browser going online asks for exactly one sync, a second
    later. The listeners other code has registered stay. *)
Theorem startAutoSync_registers_once (a : AutoSync) :
  autoSyncInvariant a ->
  let started := startAutoSync a in
  autoSyncInvariant started /\
  (exists l, onlineListener started = Some l /\ syncListeners started = [l]) /\
  startAutoSync started = started /\
  (onlineListener a <> None -> started = a) /\
  (onlineListener a = None ->
     syncTimers started
     = if navigatorOnLine a then (syncTimers a ++ [2000])%list else syncTimers a) /\
  syncTimers (dispatchOnline started) = (syncTimers started ++ [1000])%list /\
  (forall name, In (OtherListener name) (windowOnline started)
                <-> In (OtherListener name) (windowOnline a)).
Proof.
  intros Inv started. subst started.
  unfold autoSyncInvariant, syncListeners in *. unfold startAutoSync.
  destruct (onlineListener a) as [l |] eqn:O.
  - rewrite O. unfold dispatchOnline, syncListeners. cbn [syncTimers onlineListener].
    rewrite timers_of_listeners, Inv.
    split; [reflexivity |].
    split; [exists l; now split |].
    split; [reflexivity |].
    split; [reflexivity |].
    split; [discriminate |].
    split; [reflexivity | tauto].
  - cbn [onlineListener windowOnline syncTimers dispatchOnline syncListeners].
    unfold addEventListener.
    rewrite (none_registered (SyncListener (closures a)) _ Inv eq_refl).
    rewrite timers_of_listeners, filter_app, Inv.
    split; [reflexivity |].
    split; [eexists; split; reflexivity |].
    split; [reflexivity |].
    split; [congruence |].
    split; [reflexivity |].
    split; [reflexivity |].
    intros name. split.
    + intros I. apply in_app_or in I. destruct I as [I | [I | []]];
        [assumption | discriminate].
    + intros I. apply in_or_app. now left.
Qed.

(** X13. [stopAutoSync] removes the listener of this module, after which the
    browser going online asks for no sync; a second call changes nothing.
    It cancels no sync already asked for, and leaves the listeners of
    other code registered. *)
Theorem stopAutoSync_unregisters (a : AutoSync) :
  autoSyncInvariant a ->
  let stopped := stopAutoSync a in
  autoSyncInvariant stopped /\
  onlineListener stopped = None /\
  syncListeners stopped = [] /\
  stopAutoSync stopped = stopped /\
  syncTimers stopped = syncTimers a /\
  syncTimers (dispatchOnline stopped) = syncTimers stopped /\
  (forall name, In (OtherListener name) (windowOnline stopped)
                <-> In (OtherListener name) (windowOnline a)).
Proof.
  intros Inv stopped. subst stopped.
  unfold autoSyncInvariant, syncListeners in *. unfold stopAutoSync.
  destruct (onlineListener a) as [l |] eqn:O.
  - assert (isSync l = true) as S.
    { assert (In l (filter isSync (windowOnline a))) as I
          by (rewrite Inv; now left).
      now apply filter_In in I. }
    assert (filter isSync (removeEventListener l (windowOnline a)) = []) as E.
    { unfold removeEventListener.
      transitivity (filter (fun x => negb (Listener_eqb l x))
                      (filter isSync (windowOnline a))).
      - rewrite !filter_filter. apply filter_ext. intros x. apply andb_comm.
      - rewrite Inv. simpl. now rewrite Listener_eqb_refl. }
    unfold dispatchOnline.
    cbn [onlineListener windowOnline syncTimers].
    rewrite timers_of_listeners, E. simpl. rewrite app_nil_r.
    do 6 (split; [reflexivity |]).
    intros name. unfold removeEventListener. split.
    + intros I. now apply filter_In in I.
    + intros I. apply filter_In. split; [assumption |].
      destruct l; [reflexivity | discriminate].
  - rewrite O. unfold dispatchOnline. cbn [syncTimers windowOnline].
    rewrite timers_of_listeners, Inv. simpl. rewrite app_nil_r.
    do 6 (split; [reflexivity |]). tauto.
Qed.

End AutoSyncFacts.

(** ** The statements at work on the concrete platform *)

Import Mock.

(** A transfer queued offline and drained against a ledger that accepts it:
    the record is removed, the observer hears of one synced transfer. *)
Example drain_accepts :
  let w := withQueue (start steadyHost openLedger) [recordA] in
  fst (syncPendingTransactions w) = Ok {| synced := 1; failedCount := 0 |} /\
  pendingTransactions (db (snd (syncPendingTransactions w))) = [] /\
  trace (snd (syncPendingTransactions w))
  = [EvNotify PhSyncing "Syncing 1 transactions..." 1;
     EvSelectByHash "7755a780" false;
     EvProcessTransaction (processArgs recordA);
     EvNotify PhSuccess "1 transaction synced!" 1].
Proof. repeat split; vm_compute; reflexivity. Qed.

(** A ledger that cannot be reached: the look-up rejects, nothing is
    submitted, the record goes back to pending with one retry. *)
Example drain_unreachable :
  let w := withQueue (start steadyHost downLedger) [recordA] in
  fst (syncPendingTransactions w) = Ok {| synced := 0; failedCount := 1 |} /\
  pendingTransactions (db (snd (syncPendingTransactions w)))
  = [retried recordA pending 1] /\
  trace (snd (syncPendingTransactions w))
  = [EvNotify PhSyncing "Syncing 1 transactions..." 1;
     EvSelectByHash "7755a780" false;
     EvNotify PhError "1 transaction failed to sync" 1].
Proof. repeat split; vm_compute; reflexivity. Qed.

(** A storage failure while the pending records are fetched propagates to
    the caller. *)
Example drain_storage_error :
  let w := withQueue (start brokenHost openLedger) [recordA] in
  fst (syncPendingTransactions w) = Throw StorageUnavailable /\
  pendingTransactions (db (snd (syncPendingTransactions w))) = [recordA].
Proof. repeat split; vm_compute; reflexivity. Qed.

Lemma wf_queue_FA : ObjectStore.wf id [recordF; recordA].
Proof.
  repeat (constructor; try reflexivity).
Defined.

Lemma wf_queue_A : ObjectStore.wf id [recordA].
Proof.
  repeat constructor.
Defined.

Lemma steadyHost_healthy {R} `{RemoteLedger R Z} (w : World Z R) :
  host w = steadyHost -> healthy w.
Proof.
  intros E n. rewrite E. reflexivity.
Defined.

Lemma run_eq {A Amount R} (r : Outcome A * World Amount R) (a : A) :
  fst r = Ok a -> r = (Ok a, snd r).
Proof.
  destruct r as [o w]. simpl. now intros ->.
Defined.

Lemma duplicate_check_precedes_submission_witness :
  let w := withQueue (start steadyHost ledgerWithA) [recordF; recordA] in
  fst (syncPendingTransactions w) = Ok {| synced := 1; failedCount := 0 |} /\
  ObjectStore.get id (id recordA)
    (pendingTransactions (db (snd (syncPendingTransactions w)))) = None.
Proof.
  intros w.
  assert (quiet w) as Q by (intros cb E; injection E as <-; reflexivity).
  assert (ledgerTurn ledgerWithA recordA
          = (Duplicate, ledgerWithA, [EvSelectByHash "7755a780" true])) as T
      by reflexivity.
  destruct (proj1 (proj2 duplicate_check_precedes_submission)
              w [] recordA [] zeroResult ledgerWithA []
              Duplicate ledgerWithA [EvSelectByHash "7755a780" true]
              {| synced := 1; failedCount := 0 |} ledgerWithA []
              (steadyHost_healthy w eq_refl) Q eq_refl wf_queue_FA
              eq_refl eq_refl T eq_refl) as [F [_ [_ G]]].
  split; [exact F | exact G].
Defined.

Lemma retry_threshold_witness :
  let w := withQueue (start steadyHost Fixtures.decliningLedger) [recordA] in
  let record := fun w' : World Z Ledger =>
                  ObjectStore.get id (id recordA) (pendingTransactions (db w')) in
  record (drained w) = Some (retried recordA pending 1) /\
  record (drained (drained w)) = Some (retried recordA pending 2) /\
  record (drained (drained (drained w))) = Some (retried recordA failed 3).
Proof.
  intros w record.
  assert (quiet w) as Q by (intros cb E; injection E as <-; reflexivity).
  assert (drainVerdict w (id recordA) = Some Unsuccessful) as V1
      by (vm_compute; reflexivity).
  assert (drainVerdict (drained w) (id recordA) = Some Unsuccessful) as V2
      by (vm_compute; reflexivity).
  assert (drainVerdict (drained (drained w)) (id recordA) = Some Unsuccessful) as V3
      by (vm_compute; reflexivity).
  destruct (retry_threshold w recordA (steadyHost_healthy w eq_refl) Q eq_refl
              wf_queue_A eq_refl eq_refl) as [_ [_ [_ [_ [_ [_ C]]]]]].
  destruct (C eq_refl V1) as [G1 [_ [_ C2]]].
  destruct (C2 V2) as [G2 [_ [_ C3]]].
  destruct (C3 V3) as [G3 _].
  split; [exact G1 | split; [exact G2 | exact G3]].
Defined.

Lemma syncPendingTransactions_guard_witness :
  let busy := withIsSyncing (withQueue (start steadyHost openLedger) [recordA]) true in
  let broken := withQueue (start brokenHost openLedger) [recordA] in
  let w := withQueue (start steadyHost openLedger) [recordA] in
  let visits := [[Call; Call]; [Other (fun w1 => withSyncCallback w1 None)]; [Call]] in
  let result := perform syncPendingTransactionsTask (opening w visits) in
  syncPendingTransactions busy = (Ok zeroResult, busy) /\
  fst (syncPendingTransactions broken) = Throw StorageUnavailable /\
  isSyncing (snd (syncPendingTransactions broken)) = false /\
  Forall turnedAway (arrivals (snd result)) /\
  List.length (arrivals (snd result)) = 3%nat /\
  isSyncing (world (snd result)) = false.
Proof.
  intros busy broken w visits result.
  assert (Forall (Forall foreign) visits) as F.
  { repeat constructor. }
  destruct (proj2 (proj2 (proj2 (proj2 (syncPendingTransactions_guard w))))
              visits eq_refl F) as [T [_ [Fl _]]].
  split; [exact (proj1 (syncPendingTransactions_guard busy) eq_refl) |].
  split; [reflexivity |].
  split; [exact (proj1 (proj1 (proj2 (syncPendingTransactions_guard broken)) eq_refl)) |].
  split; [exact T |]. split; [vm_compute; reflexivity | exact Fl].
Defined.

Lemma clearSyncedTransactions_purges_witness :
  let w := withQueue (start steadyHost openLedger) [recordF; recordA] in
  ObjectStore.wf id (pendingTransactions (db w)) /\
  pendingTransactions (db (snd (clearSyncedTransactions w))) = [recordA].
Proof.
  intros w. split; [exact wf_queue_FA |].
  exact (proj1 (clearSyncedTransactions_purges w wf_queue_FA) eq_refl).
Defined.

Lemma integrity_hash_fixed_at_creation_witness :
  let result := addPendingTransaction transferA (start steadyHost openLedger) in
  fst result = Ok recordA /\
  status recordA = pending /\ retryCount recordA = 0%nat /\
  hash recordA = integrityHash "S" "R" 100 1700000000002 "device-1".
Proof.
  intros result.
  assert (fst result = Ok recordA) as F by (vm_compute; reflexivity).
  destruct (proj1 integrity_hash_fixed_at_creation transferA _ _ _ (run_eq _ _ F))
    as [S [Rc [Hh _]]].
  split; [exact F |].
  split; [exact S | split; [exact Rc | exact Hh]].
Defined.

Lemma updateTransactionStatus_frame_witness :
  let w := withQueue (start steadyHost openLedger) [recordF; recordA] in
  ObjectStore.wf id (pendingTransactions (db w)) /\
  pendingTransactions (db (snd (updateTransactionStatus (id recordA) failed true w)))
  = [recordF; retried recordA failed 1].
Proof.
  intros w. split; [exact wf_queue_FA |].
  exact (proj1 (proj2 (updateTransactionStatus_frame (id recordA) failed true w
                         wf_queue_FA)) eq_refl).
Defined.

Lemma getTodayOfflineTotal_sum_witness :
  let w := withQueue (start steadyHost openLedger) [recordF; recordA] in
  fst (getTodayOfflineTotal "S" w) = Ok 100.
Proof.
  intros w.
  exact (proj1 (proj2 (getTodayOfflineTotal_sum "S" w)) (steadyHost_healthy w eq_refl)).
Defined.

Lemma syncPendingTransactions_accounts_witness :
  let w := withQueue (start steadyHost openLedger) [recordF; recordA] in
  isSyncing w = false /\
  fst (syncPendingTransactions w) = Ok {| synced := 1; failedCount := 0 |} /\
  (1 + 0 = List.length (listPending (pendingTransactions (db w))))%nat.
Proof.
  intros w.
  assert (fst (syncPendingTransactions w) = Ok {| synced := 1; failedCount := 0 |})
    as E by (vm_compute; reflexivity).
  split; [reflexivity | split; [exact E |]].
  exact (proj1 (syncPendingTransactions_accounts w eq_refl) _ E).
Defined.

Lemma enqueue_identifier_witness :
  let w1 := snd (addPendingTransaction transferA (start steadyHost openLedger)) in
  let w2 := snd (addPendingTransaction transferB w1) in
  ObjectStore.get id (id recordA) (pendingTransactions (db w1)) = Some recordA /\
  ObjectStore.get id (id recordA) (pendingTransactions (db w2)) = Some recordA.
Proof.
  intros w1 w2.
  assert (ObjectStore.get id (id recordA) (pendingTransactions (db w1)) = Some recordA)
    as G by (vm_compute; reflexivity).
  assert (fst (addPendingTransaction transferB w1)
          = Ok (enqueued transferB "device-1" 1700000000005))
    as F by (vm_compute; reflexivity).
  assert (identified recordA) as I by (split; reflexivity).
  split; [exact G |].
  destruct (proj2 enqueue_identifier transferB w1 _ w2 (run_eq _ _ F)) as [_ K].
  apply (proj1 (K recordA G I)). left. discriminate.
Defined.

(** Two enqueues of transfers that differ only in their description, made
    within one millisecond, get one identifier: the second record replaces
    the first in the queue. *)
Lemma enqueue_reuses_identifier :
  let first := addPendingTransaction transferA (start frozenHost openLedger) in
  let second := addPendingTransaction transferB (snd first) in
  exists t1 t2,
    fst first = Ok t1 /\ fst second = Ok t2 /\
    id t1 = id t2 /\ description t1 <> description t2 /\
    ObjectStore.get id (id t1) (pendingTransactions (db (snd first))) = Some t1 /\
    ObjectStore.get id (id t1) (pendingTransactions (db (snd second))) = Some t2 /\
    List.length (pendingTransactions (db (snd second))) = 1%nat.
Proof.
  intros first second.
  exists (enqueued transferA "device-1" 1700000000000),
         (enqueued transferB "device-1" 1700000000000).
  repeat split; try (vm_compute; reflexivity).
  vm_compute. discriminate.
Qed.

Lemma recipients_keyed_by_record_id_witness :
  let w1 := snd (cacheRecipient profileOld (start steadyHost openLedger)) in
  ObjectStore.wf rc_id (cachedRecipients (db w1)) /\
  fst (getCachedRecipientByPaymentId "OP-ASHA" (snd (cacheRecipient profileOld w1)))
  = Ok (Some (stamped profileOld 1700000000004)).
Proof.
  intros w1.
  assert (ObjectStore.wf rc_id (cachedRecipients (db w1))) as W
      by (vm_compute; repeat constructor).
  split; [exact W |].
  apply (proj2 (proj2 (recipients_keyed_by_record_id w1 W)) profileOld
           (steadyHost_healthy w1 eq_refl)).
  intros x [<- | []] _. reflexivity.
Defined.

(** Two profiles cached under different record ids with one payment
    identifier are both kept, and the look-up returns the one cached first. *)
Lemma lookup_returns_older_recipient :
  let w1 := snd (cacheRecipient profileOld (start steadyHost openLedger)) in
  let w2 := snd (cacheRecipient profileNew w1) in
  List.length (ObjectStore.getAllFromIndex payment_id "OP-ASHA"
                 (cachedRecipients (db w2))) = 2%nat /\
  fst (getCachedRecipientByPaymentId "OP-ASHA" w2)
  = Ok (Some (stamped profileOld 1700000000001)) /\
  stamped profileOld 1700000000001 <> stamped profileNew 1700000000004.
Proof.
  intros w1 w2. repeat split; try (vm_compute; reflexivity).
  discriminate.
Qed.

(** ** The further statements at work *)

Import Fixtures.

Lemma wf_queue_S : ObjectStore.wf id [recordS].
Proof.
  repeat constructor.
Defined.

Lemma addPendingTransaction_listed_witness :
  let result := addPendingTransaction transferA (start steadyHost openLedger) in
  fst result = Ok recordA /\
  In recordA (listPending (pendingTransactions (db (snd result)))).
Proof.
  intros result.
  assert (fst result = Ok recordA) as F by (vm_compute; reflexivity).
  split; [exact F |].
  exact (proj1 (proj2 (addPendingTransaction_listed transferA _ recordA F))).
Defined.

Lemma cacheRecipient_listed_witness :
  let w := start steadyHost openLedger in
  fst (cacheRecipient profileOld w) = Ok tt /\
  In (stamped profileOld 1700000000001) [stamped profileOld 1700000000001].
Proof.
  intros w.
  assert (fst (cacheRecipient profileOld w) = Ok tt) as F by reflexivity.
  assert (fst (getAllCachedRecipients (snd (cacheRecipient profileOld w)))
          = Ok [stamped profileOld 1700000000001]) as G by (vm_compute; reflexivity).
  split; [exact F |].
  exact (proj1 (proj1 (cacheRecipient_listed profileOld w F) _ G)).
Defined.

Lemma purge_keeps_pending_and_total_witness :
  let w := withQueue (start steadyHost openLedger) [recordF; recordA] in
  ObjectStore.wf id (pendingTransactions (db w)) /\
  listPending (pendingTransactions (db (snd (clearSyncedTransactions w))))
  = [recordA].
Proof.
  intros w. split; [exact wf_queue_FA |].
  exact (proj1 (purge_keeps_pending_and_total w wf_queue_FA)).
Defined.

Lemma verifyOTP_accepts_once_witness :
  2000 <= 1000 + 300000 /\
  fst (verifyOTP 2000 "9876543210" "482913"
         (storeOTP 1000 "9876543210" "482913" [])) = true.
Proof.
  assert (2000 <= 1000 + 300000) as H by (intros C; discriminate C).
  split; [exact H |].
  exact (proj1 (verifyOTP_accepts_once 1000 2000 "9876543210" "482913" [] H)).
Defined.

Lemma startAutoSync_registers_once_witness :
  autoSyncInvariant pageLoaded /\
  startAutoSync (startAutoSync pageLoaded) = startAutoSync pageLoaded /\
  syncTimers (dispatchOnline (startAutoSync pageLoaded)) = [2000; 1000].
Proof.
  assert (autoSyncInvariant pageLoaded) as Inv by reflexivity.
  destruct (startAutoSync_registers_once pageLoaded Inv) as [_ [_ [Again [_ [_ [T _]]]]]].
  split; [exact Inv | split; [exact Again | exact T]].
Defined.

Lemma stopAutoSync_unregisters_witness :
  autoSyncInvariant (startAutoSync pageLoaded) /\
  syncListeners (stopAutoSync (startAutoSync pageLoaded)) = [] /\
  syncTimers (stopAutoSync (startAutoSync pageLoaded)) = [2000].
Proof.
  assert (autoSyncInvariant (startAutoSync pageLoaded)) as Inv by reflexivity.
  destruct (stopAutoSync_unregisters (startAutoSync pageLoaded) Inv)
    as [_ [_ [None [_ [T _]]]]].
  split; [exact Inv | split; [exact None | exact T]].
Defined.

Lemma syncPendingTransactions_idle_witness :
  let w := withQueue (start steadyHost openLedger) [recordF] in
  isSyncing w = false /\
  listPending (pendingTransactions (db w)) = [] /\
  fst (syncPendingTransactions w) = Ok zeroResult /\
  trace (snd (syncPendingTransactions w)) = [].
Proof.
  intros w.
  destruct (syncPendingTransactions_idle w eq_refl eq_refl) as [_ [Hh [_ [T _]]]].
  split; [reflexivity | split; [reflexivity |]].
  split; [exact (Hh (steadyHost_healthy w eq_refl)) | exact T].
Defined.

Lemma throwing_observer_aborts_drain_witness :
  let w := withSyncCallback (withQueue (start steadyHost openLedger) [recordA])
             (Some throwingObserver) in
  fst (syncPendingTransactions w) = Throw (CallbackFailure "render failed") /\
  db (snd (syncPendingTransactions w)) = db w /\
  isSyncing (snd (syncPendingTransactions w)) = false.
Proof.
  intros w.
  assert (listPending (pendingTransactions (db w)) <> []) as N by discriminate.
  destruct (throwing_observer_aborts_drain w throwingObserver "render failed"
              (steadyHost_healthy w eq_refl) eq_refl eq_refl
              (fun _ _ => eq_refl) N) as [F [D [_ [G _]]]].
  split; [exact F | split; [exact D | exact G]].
Defined.

Lemma drain_empties_queue_witness :
  let w := withQueue (startAccepting steadyHost) [recordF; recordA] in
  fst (syncPendingTransactions w) = Ok {| synced := 1; failedCount := 0 |} /\
  pendingTransactions (db (snd (syncPendingTransactions w))) = [recordF].
Proof.
  intros w.
  assert (quiet w) as Q by (intros cb E; injection E as <-; reflexivity).
  assert (alwaysAccepts (Amount := Z) (R := nat)) as A
      by (split; intros; simpl; [exact I | reflexivity]).
  destruct (drain_empties_queue w (steadyHost_healthy w eq_refl) Q eq_refl
              wf_queue_FA A) as [F [S _]].
  split; [exact F | exact S].
Defined.

Lemma lookup_error_is_not_checked_witness :
  let w := withQueue (startErring steadyHost) [recordA] in
  trace (snd (syncOne recordA zeroResult w))
  = [EvSelectByHash "7755a780" false; EvProcessTransaction (processArgs recordA)].
Proof.
  intros w.
  assert (selectByHash (remote w) (hash recordA)
          = (Resolved {| data := None; error := Some "multiple rows returned" |},
             false)) as Sel by reflexivity.
  exact (proj1 (lookup_error_is_not_checked recordA zeroResult w
                  (steadyHost_healthy w eq_refl)) _ _ Sel eq_refl).
Defined.

Lemma interrupted_record_is_never_retried_witness :
  let w := withQueue (start steadyHost openLedger) [recordS] in
  ObjectStore.get id (id recordS)
    (pendingTransactions (db (Nat.iter 2 drained w))) = Some recordS.
Proof.
  intros w.
  assert (status recordS <> pending) as S by discriminate.
  exact (proj1 (interrupted_record_is_never_retried 2 w recordS wf_queue_S
                  eq_refl S)).
Defined.

Lemma drain_adds_no_record_witness :
  let w := withQueue (start steadyHost openLedger) [recordF; recordA] in
  ObjectStore.wf id (pendingTransactions (db w)) /\
  (List.length (pendingTransactions (db (snd (syncPendingTransactions w)))) <= 2)%nat.
Proof.
  intros w. split; [exact wf_queue_FA |].
  exact (proj1 (proj2 (drain_adds_no_record w wf_queue_FA))).
Defined.

Lemma drain_attempts_each_record_once_witness :
  let w := withQueue (start steadyHost downLedger) [recordA] in
  ObjectStore.get id (id recordA)
    (pendingTransactions (db (snd (syncPendingTransactions w))))
  = Some (retried recordA pending 1) /\
  (retryCount (retried recordA pending 1) = retryCount recordA \/
   retryCount (retried recordA pending 1) = S (retryCount recordA)).
Proof.
  intros w.
  assert (ObjectStore.get id (id recordA)
            (pendingTransactions (db (snd (syncPendingTransactions w))))
          = Some (retried recordA pending 1)) as G by (vm_compute; reflexivity).
  split; [exact G |].
  exact (proj1 (drain_attempts_each_record_once w (id recordA) recordA
                  (retried recordA pending 1) wf_queue_A eq_refl G)).
Defined.

Lemma synced_counts_the_removed_records_witness :
  let w := withQueue (start steadyHost openLedger) [recordF; recordA] in
  fst (syncPendingTransactions w) = Ok {| synced := 1; failedCount := 0 |} /\
  (List.length (pendingTransactions (db (snd (syncPendingTransactions w)))) + 1
   = 2)%nat.
Proof.
  intros w.
  assert (fst (syncPendingTransactions w) = Ok {| synced := 1; failedCount := 0 |})
    as E by (vm_compute; reflexivity).
  split; [exact E |].
  exact (proj1 (synced_counts_the_removed_records w _
                  (steadyHost_healthy w eq_refl) eq_refl wf_queue_FA E)).
Defined.

Lemma healthy_drain_looks_every_pending_record_up_witness :
  let w := withQueue (start steadyHost openLedger) [recordA] in
  exists events,
    trace (snd (syncPendingTransactions w)) = (trace w ++ events)%list /\
    lookups events = map hash (listPending (pendingTransactions (db w))).
Proof.
  intros w.
  assert (quiet w) as Q by (intros cb E; injection E as <-; reflexivity).
  exact (healthy_drain_looks_every_pending_record_up w
           (steadyHost_healthy w eq_refl) Q eq_refl).
Defined.


Lemma only_storage_and_observer_failures_escape_witness :
  let w := withQueue (start brokenHost downLedger) [recordA] in
  fst (syncPendingTransactions w) = Throw StorageUnavailable /\
  isSyncing (snd (syncPendingTransactions w)) = false.
Proof.
  intros w.
  assert (fst (syncPendingTransactions w) = Throw StorageUnavailable) as F
      by reflexivity.
  split; [exact F |].
  exact (proj2 (proj2 (proj2 (only_storage_and_observer_failures_escape w _ F)))).
Defined.
